(** * bin/build.js: the packaging and reporting steps of the build script

    A shallow embedding of [bin/build.js]: the three esbuild [onEnd] hooks
    (manifest post-processor, README copier, public-directory copier), the
    plugin list handed to [esbuild.context], and the development-mode
    reporter [logServedFiles].

    Conventions of the model.
    - JavaScript strings and file contents are [string]s, read as byte
      sequences (UTF-8 passes through every operation used here unchanged).
    - The file system is a tree of directories and regular files; a
      directory keeps its entries in enumeration order.
    - A path that the script builds with [path.join] or [path.resolve] and
      only hands to the file system is the list of its segments; the
      reporter takes path strings apart itself, so there a path is a
      string and the file system resolves it against the working
      directory.
    - [async] functions are state transformers that either complete, throw
      a JavaScript error, or exhaust the recursion budget of the model; a
      throw keeps the effects that happened before it.
    - Node and esbuild builtins ([JSON.parse], [Number::toString], the path
      separator, the location of the script) are an interface the model is
      parameterised by. *)

From Stdlib Require Import List String Ascii Bool Arith Lia DecimalString.
Import ListNotations.
Local Open Scope list_scope.
Local Open Scope string_scope.
#[local] Set Warnings "-register-all".

(* ===================================================================== *)
(** * Part I: definitions                                                 *)
(* ===================================================================== *)

(** ** Strings *)

Module Str.

(** The double quote character, code 34. *)
Definition dquote : string := String (ascii_of_nat 34) EmptyString.

(** [String.prototype.endsWith]: some tail of [s] is [suffix]. *)
Fixpoint endsWith (s suffix : string) : bool :=
  if String.eqb s suffix then true
  else match s with
       | EmptyString => false
       | String _ s' => endsWith s' suffix
       end.

(** [String.prototype.split] with a one-character separator: the
    segments between the occurrences, empty ones kept; the empty string
    splits into one empty segment. *)
Fixpoint split (sep : ascii) (s : string) : list string :=
  match s with
  | EmptyString => [EmptyString]
  | String c s' =>
      if Ascii.eqb c sep then EmptyString :: split sep s'
      else match split sep s' with
           | [] => [String c EmptyString]
           | seg :: rest => String c seg :: rest
           end
  end.

(** [Array.prototype.join] on an array of strings. *)
Definition join (glue : string) (parts : list string) : string :=
  String.concat glue parts.

(** [c] occurs in [s]. *)
Fixpoint contains (c : ascii) (s : string) : bool :=
  match s with
  | EmptyString => false
  | String d s' => Ascii.eqb d c || contains c s'
  end.

End Str.

(** ** JavaScript completions *)

(** The errors the script can meet: the file-system error codes of the
    calls it makes, and the two language errors of [JSON.parse] and of a
    property access on a non-object. *)
Inductive error : Type :=
| ENOENT | ENOTDIR | EISDIR | EEXIST
| SyntaxError | TypeError.

(** How a call ends: with a value, with a thrown error, or (model only)
    with the recursion budget used up. *)
Inductive result (A : Type) : Type :=
| Ok (a : A)
| Threw (e : error)
| OutOfFuel.
Arguments Ok {A} a.
Arguments Threw {A} e.
Arguments OutOfFuel {A}.

Definition result_map {A B : Type} (f : A -> B) (r : result A) : result B :=
  match r with
  | Ok a => Ok (f a)
  | Threw e => Threw e
  | OutOfFuel => OutOfFuel
  end.

Definition result_bind {A B : Type} (r : result A) (k : A -> result B) : result B :=
  match r with
  | Ok a => k a
  | Threw e => Threw e
  | OutOfFuel => OutOfFuel
  end.

(** Stateful calls over a state [S]: the state after the call and how the
    call ended.  A throw hands on the state reached so far. *)
Definition St (S A : Type) : Type := S -> S * result A.

Definition ret {S A : Type} (a : A) : St S A := fun s => (s, Ok a).

Definition throw {S A : Type} (e : error) : St S A := fun s => (s, Threw e).

Definition bind {S A B : Type} (m : St S A) (k : A -> St S B) : St S B :=
  fun s =>
    match m s with
    | (s', Ok a) => k a s'
    | (s', Threw e) => (s', Threw e)
    | (s', OutOfFuel) => (s', OutOfFuel)
    end.

(** [try { body } catch (error) { handler }]. *)
Definition try_catch {S A : Type} (body : St S A) (handler : error -> St S A) : St S A :=
  fun s =>
    match body s with
    | (s', Threw e) => handler e s'
    | other => other
    end.

(** [for (let x of l) { await body(x) }]. *)
Fixpoint for_of {S A : Type} (l : list A) (body : A -> St S unit) : St S unit :=
  match l with
  | [] => ret tt
  | x :: rest => bind (body x) (fun _ => for_of rest body)
  end.

(** A pure fallible value as a call. *)
Definition lift_result {S A : Type} (r : result A) : St S A := fun s => (s, r).

Declare Scope js_scope.
Delimit Scope js_scope with js.
Notation "x <- c ;; k" := (bind c (fun x => k))
  (at level 61, c at next level, right associativity) : js_scope.
Notation "c ;;; k" := (bind c (fun _ => k))
  (at level 61, right associativity) : js_scope.
Local Open Scope js_scope.

(** ** Ordered association lists

    Own properties of an object and entries of a directory: names are
    looked up by first occurrence and the order of the entries is kept. *)

Module Assoc.
Section Assoc.
Context {V : Type}.

(** The value under [key]. *)
Fixpoint get (key : string) (l : list (string * V)) : option V :=
  match l with
  | [] => None
  | (k, v) :: rest => if String.eqb k key then Some v else get key rest
  end.

(** [key] removed, the other entries in their order. *)
Fixpoint remove (key : string) (l : list (string * V)) : list (string * V) :=
  match l with
  | [] => []
  | (k, v) :: rest =>
      if String.eqb k key then remove key rest
      else (k, v) :: remove key rest
  end.

(** [key] set to [v]: an existing entry keeps its place, a new one goes
    last. *)
Fixpoint put (key : string) (v : V) (l : list (string * V)) : list (string * V) :=
  match l with
  | [] => [(key, v)]
  | (k, w) :: rest =>
      if String.eqb k key then (k, v) :: rest
      else (k, w) :: put key v rest
  end.

End Assoc.
End Assoc.

(** ** JSON values and [JSON.stringify] *)

Module Json.

(** What [JSON.parse] returns, as the script then mutates it.  An object
    keeps its own properties in property order; an array may carry named
    properties besides its items (an assignment [a.browser = ...] adds
    one), which [JSON.stringify] does not print. *)
Inductive value (number : Type) : Type :=
| JNull
| JBool (b : bool)
| JNumber (n : number)
| JString (s : string)
| JArray (items : list (value number)) (named : list (string * value number))
| JObject (props : list (string * value number)).
Arguments JNull {number}.
Arguments JBool {number} b.
Arguments JNumber {number} n.
Arguments JString {number} s.
Arguments JArray {number} items named.
Arguments JObject {number} props.


(** [delete x.key] in strict code: [null] has no properties to delete
    from, every other value answers (a primitive through its wrapper).
    A deleted property goes and the others keep their order. *)
Definition js_delete {number : Type} (x : value number) (key : string)
  : result (value number) :=
  match x with
  | JNull => Threw TypeError
  | JObject props => Ok (JObject (Assoc.remove key props))
  | JArray items named => Ok (JArray items (Assoc.remove key named))
  | other => Ok other
  end.

(** [x.key = v] in strict code: only objects and arrays take a
    property; an existing property keeps its place and a new one goes
    last ([key] is no array index here). *)
Definition js_assign {number : Type} (x : value number) (key : string)
  (v : value number) : result (value number) :=
  match x with
  | JObject props => Ok (JObject (Assoc.put key v props))
  | JArray items named => Ok (JArray items (Assoc.put key v named))
  | _ => Threw TypeError
  end.

Definition hex_digit (n : nat) : string :=
  String.substring n 1 "0123456789abcdef".

Definition backslash : string := String (ascii_of_nat 92) EmptyString.

(** One character of [QuoteJSONString]. *)
Definition quote_char (c : ascii) : string :=
  let n := nat_of_ascii c in
  if Nat.eqb n 34 then backslash ++ Str.dquote
  else if Nat.eqb n 92 then backslash ++ backslash
  else if Nat.eqb n 8 then backslash ++ "b"
  else if Nat.eqb n 9 then backslash ++ "t"
  else if Nat.eqb n 10 then backslash ++ "n"
  else if Nat.eqb n 12 then backslash ++ "f"
  else if Nat.eqb n 13 then backslash ++ "r"
  else if Nat.ltb n 32 then backslash ++ "u00" ++ hex_digit (n / 16) ++ hex_digit (n mod 16)
  else String c EmptyString.

Fixpoint quote_body (s : string) : string :=
  match s with
  | EmptyString => EmptyString
  | String c s' => quote_char c ++ quote_body s'
  end.

(** [QuoteJSONString]. *)
Definition quote (s : string) : string := Str.dquote ++ quote_body s ++ Str.dquote.

Definition newline : string := String (ascii_of_nat 10) EmptyString.

Section Stringify.
Context {number : Type}.
Variable Number_toString : number -> string.
(** The indentation unit: [JSON.stringify(v, null, 2)] has two spaces. *)
Variable gap : string.

(** [SerializeJSONProperty] with a non-empty gap, at indentation
    [indent]. *)
Fixpoint serialize (indent : string) (v : value number) : string :=
  match v with
  | JNull => "null"
  | JBool true => "true"
  | JBool false => "false"
  | JNumber n => Number_toString n
  | JString s => quote s
  | JArray items _ =>
      match items with
      | [] => "[]"
      | _ =>
          let stepback := indent in
          let indent := stepback ++ gap in
          "[" ++ newline ++ indent
              ++ Str.join ("," ++ newline ++ indent) (map (serialize indent) items)
              ++ newline ++ stepback ++ "]"
      end
  | JObject props =>
      match props with
      | [] => "{}"
      | _ =>
          let stepback := indent in
          let indent := stepback ++ gap in
          "{" ++ newline ++ indent
              ++ Str.join ("," ++ newline ++ indent)
                   (map (fun kv => quote (fst kv) ++ ": " ++ serialize indent (snd kv)) props)
              ++ newline ++ stepback ++ "}"
      end
  end.
End Stringify.

(** A string of [n] spaces. *)
Fixpoint spaces (n : nat) : string :=
  match n with
  | 0 => EmptyString
  | S n' => String " " (spaces n')
  end.

End Json.
Export Json.

(** ** The file system *)

Module Fs.

(** A file-system node: a regular file with its bytes, or a directory with
    its entries in enumeration order.  These are the two kinds the script
    tells apart ([isDirectory] or not); links and special files are not
    modelled. *)
Inductive node : Type :=
| File (data : string)
| Dir (entries : list (string * node)).

(** A resolved path: the segments from the root of the file system. *)
Definition path : Type := list string.

(** [path.join(p, name)] for a plain entry name. *)
Definition path_join (p : path) (name : string) : path := (p ++ [name])%list.

(** What [fs.Dirent] tells: the entry's name and whether it is a
    directory. *)
Record Dirent : Type := { name : string; isDirectory : bool }.

Definition is_dir (n : node) : bool :=
  match n with
  | Dir _ => true
  | File _ => false
  end.

Definition dirent_of (e : string * node) : Dirent :=
  {| name := fst e; isDirectory := is_dir (snd e) |}.

(** The node at a path, if there is one. *)
Fixpoint lookup (p : path) (n : node) : option node :=
  match p with
  | [] => Some n
  | s :: p' =>
      match n with
      | File _ => None
      | Dir es =>
          match Assoc.get s es with
          | Some c => lookup p' c
          | None => None
          end
      end
  end.

(** [fs.access(p)] resolves when the path exists. *)
Definition exists_at (p : path) (fs : node) : bool :=
  match lookup p fs with
  | Some _ => true
  | None => false
  end.

(** [fs.readdir(p, { withFileTypes: true })]. *)
Definition readdir_at (p : path) (fs : node) : result (list Dirent) :=
  match lookup p fs with
  | Some (Dir es) => Ok (map dirent_of es)
  | Some (File _) => Threw ENOTDIR
  | None => Threw ENOENT
  end.

(** [fs.readFile(p, 'utf-8')]. *)
Definition read_at (p : path) (fs : node) : result string :=
  match lookup p fs with
  | Some (File data) => Ok data
  | Some (Dir _) => Threw EISDIR
  | None => Threw ENOENT
  end.

(** [mkdir(p, { recursive: true })]: every missing directory on the way is
    made (a new entry goes last); a file on the way is an error and
    nothing is made. *)
Fixpoint mkdir_at (p : path) (n : node) : result node :=
  match n with
  | File _ => Threw (match p with [] => EEXIST | _ => ENOTDIR end)
  | Dir es =>
      match p with
      | [] => Ok n
      | s :: p' =>
          let child := match Assoc.get s es with
                       | Some c => c
                       | None => Dir []
                       end in
          result_map (fun c' => Dir (Assoc.put s c' es)) (mkdir_at p' child)
      end
  end.

(** Writing [data] to the file at [p]: the file is created in an existing
    directory or overwritten; a missing directory, a file used as a
    directory and a directory in the file's place are errors. *)
Fixpoint write_at (p : path) (data : string) (n : node) : result node :=
  match p, n with
  | [], File _ => Ok (File data)
  | [], Dir _ => Threw EISDIR
  | _ :: _, File _ => Threw ENOTDIR
  | s :: p', Dir es =>
      match Assoc.get s es with
      | Some c => result_map (fun c' => Dir (Assoc.put s c' es)) (write_at p' data c)
      | None =>
          match p' with
          | [] => Ok (Dir (Assoc.put s (File data) es))
          | _ :: _ => Threw ENOENT
          end
      end
  end.

(** [unlink(p)]: the file at [p] is taken out of its directory; where
    there is no file at [p], nothing changes. *)
Fixpoint unlink_at (p : path) (n : node) : node :=
  match p, n with
  | s :: p', Dir es =>
      match Assoc.get s es with
      | Some c =>
          match p' with
          | [] =>
              match c with
              | File _ => Dir (Assoc.remove s es)
              | Dir _ => n
              end
          | _ :: _ => Dir (Assoc.put s (unlink_at p' c) es)
          end
      | None => n
      end
  | _, _ => n
  end.

(** A call that changes the file system, or fails and leaves it alone. *)
Definition update (f : node -> result node) : St node unit :=
  fun fs =>
    match f fs with
    | Ok fs' => (fs', Ok tt)
    | Threw e => (fs, Threw e)
    | OutOfFuel => (fs, OutOfFuel)
    end.

(** [copyFile(src, dest)] with no flags, in the order Node goes about it.
    The source is opened for reading, which a directory allows as well as
    a file.  The destination is then opened for writing: it is created in
    an existing directory or emptied, and a directory in its place, a
    missing directory and a file used as a directory are errors that leave
    everything as it was.  Then the bytes are copied over.  Reading from a
    source that is a directory fails with [EISDIR], and a destination that
    was opened is removed when the copy fails. *)
Definition copy_at (src dest : path) : St node unit :=
  fun fs =>
    match lookup src fs with
    | None => (fs, Threw ENOENT)
    | Some (File data) => update (write_at dest data) fs
    | Some (Dir _) =>
        match write_at dest EmptyString fs with
        | Ok opened => (unlink_at dest opened, Threw EISDIR)
        | Threw e => (fs, Threw e)
        | OutOfFuel => (fs, OutOfFuel)
        end
    end.

(** A call that only reads the file system. *)
Definition query {A : Type} (f : node -> result A) : St node A :=
  fun fs => (fs, f fs).

Definition access (p : path) : St node bool := query (fun fs => Ok (exists_at p fs)).
Definition readdir (p : path) : St node (list Dirent) := query (readdir_at p).
Definition readFile (p : path) : St node string := query (read_at p).
Definition mkdir (p : path) : St node unit := update (mkdir_at p).
Definition copyFile (src dest : path) : St node unit := copy_at src dest.
Definition writeFile (p : path) (data : string) : St node unit := update (write_at p data).

End Fs.
Export Fs.

(** ** The process: file system and console *)

(** A row of the table [logServedFiles] prints. *)
Record served_file : Type :=
  { File_Location : string;
    Import_Suggestion : string }.

(** What went to the console: [console.log], [console.error] with the
    error it was given, and [console.table]. *)
Inductive console_line : Type :=
| Log (msg : string)
| LogError (msg : string) (e : error)
| Table (rows : list served_file).

Record world : Type :=
  { files : node;
    console : list console_line }.

(** A file-system call inside the process. *)
Definition fs_call {A : Type} (m : St node A) : St world A :=
  fun w =>
    let (fs', r) := m (files w) in
    ({| files := fs'; console := console w |}, r).

Definition print (l : console_line) : St world unit :=
  fun w => ({| files := files w; console := (console w ++ [l])%list |}, Ok tt).

Definition console_log (msg : string) : St world unit := print (Log msg).
Definition console_error (msg : string) (e : error) : St world unit := print (LogError msg e).
Definition console_table (rows : list served_file) : St world unit := print (Table rows).

(** ** What the script takes from its host *)

(** The builtins and the environment of a run: [JSON.parse] on a file's
    text ([None] is a [SyntaxError]) with the number type of its values
    and [Number::toString], the path separator [sep], [__dirname] of
    [bin/build.js], the working directory, and [process.env.NODE_ENV]. *)
Class Host : Type :=
  { number : Type;
    Number_toString : number -> string;
    JSON_parse : string -> option (value number);
    sep : ascii;
    dirname : path;
    cwd : path;
    NODE_ENV : option string }.

(** ** bin/build.js *)

Section Build.
Context {host : Host}.

(** *** Configuration (lines 10-20) *)

Definition BUILD_DIRECTORY : string := "dist".

(** [process.env.NODE_ENV === 'production']. *)
Definition PRODUCTION : bool :=
  match NODE_ENV with
  | Some v => String.eqb v "production"
  | None => false
  end.

Definition ENTRY_POINTS : list string := ["src/index.ts"].

Definition LIVE_RELOAD : bool := negb PRODUCTION.
Definition SERVE_PORT : nat := 3000.
Definition SERVE_ORIGIN : string :=
  "http://localhost:" ++ NilEmpty.string_of_uint (Nat.to_uint SERVE_PORT).

(** [path.resolve(__dirname, '..')], [path.join(rootDir, BUILD_DIRECTORY)]
    and [path.join(rootDir, 'public')], which every hook computes anew. *)
Definition rootDir : path := removelast dirname.
Definition distDir : path := path_join rootDir BUILD_DIRECTORY.
Definition publicDir : path := path_join rootDir "public".

(** *** generatePackageJsonPlugin (lines 23-55) *)

(** [JSON.parse(text)]. *)
Definition parse (text : string) : result (value number) :=
  match JSON_parse text with
  | Some v => Ok v
  | None => Threw SyntaxError
  end.

(** [JSON.stringify(v, null, space)] for [space] from 1 to 10. *)
Definition JSON_stringify (v : value number) (space : nat) : string :=
  serialize Number_toString (spaces space) EmptyString v.

(** Lines 37-41: the four [delete]s and the assignment of [browser]. *)
Definition modify_packageJson (packageJson : value number) : result (value number) :=
  result_bind (js_delete packageJson "scripts") (fun packageJson =>
  result_bind (js_delete packageJson "devDependencies") (fun packageJson =>
  result_bind (js_delete packageJson "files") (fun packageJson =>
  result_bind (js_delete packageJson "publishConfig") (fun packageJson =>
  js_assign packageJson "browser" (JString "index.js"))))).

(** The [onEnd] callback of the plugin. *)
Definition generatePackageJson_onEnd : St world unit :=
  try_catch
    (packageJsonContent <- fs_call (readFile (path_join rootDir "package.json")) ;;
     packageJson <- lift_result (parse packageJsonContent) ;;
     packageJson <- lift_result (modify_packageJson packageJson) ;;
     fs_call (writeFile (path_join distDir "package.json")
                        (JSON_stringify packageJson 2)) ;;;
     console_log "package.json generated in dist directory")
    (fun error => console_error "Error generating package.json:" error).

(** *** copyReadmePlugin (lines 58-73) *)

(** The promise chain [copyFile(...).then(...).catch(...)], which the
    callback starts and does not return, is run to its end here. *)
Definition copyReadme_onEnd : St world unit :=
  try_catch
    (fs_call (copyFile (path_join rootDir "README.md") (path_join distDir "README.md")) ;;;
     console_log "README.md copied to dist directory")
    (fun error => console_error "Error copying README.md:" error).

(** *** copyPublicPlugin (lines 76-121) *)

(** Lines 94-108.  [fuel] bounds the depth of the recursion. *)
Fixpoint copyRecursive (fuel : nat) (src dest : path) : St node unit :=
  match fuel with
  | 0 => fun fs => (fs, OutOfFuel)
  | S fuel' =>
      entries <- readdir src ;;
      mkdir dest ;;;
      for_of entries (fun entry =>
        let srcPath := path_join src (name entry) in
        let destPath := path_join dest (name entry) in
        if isDirectory entry
        then copyRecursive fuel' srcPath destPath
        else copyFile srcPath destPath)
  end.

(** The [onEnd] callback of the plugin. *)
Definition copyPublic_onEnd (fuel : nat) : St world unit :=
  try_catch
    (publicDirExists <- fs_call (access publicDir) ;;
     if publicDirExists : bool
     then
       fs_call (copyRecursive fuel publicDir distDir) ;;;
       console_log "Public directory contents copied to dist directory"
     else
       console_log "Public directory does not exist. Skipping copy operation.")
    (fun error => console_error "Error in copyPublicPlugin:" error).

(** *** The plugin list (lines 124-140) *)

Inductive plugin : Type :=
| sassPlugin
| copyPublicPlugin
| generatePackageJsonPlugin
| copyReadmePlugin.

Definition plugins : list plugin :=
  ([sassPlugin; copyPublicPlugin]
   ++ (if PRODUCTION then [generatePackageJsonPlugin; copyReadmePlugin] else []))%list.

(** The callback a plugin's [setup] registers with [build.onEnd]; the Sass
    plugin, a collaborator of the script, registers none that the script
    defines. *)
Definition onEnd (fuel : nat) (p : plugin) : option (St world unit) :=
  match p with
  | sassPlugin => None
  | copyPublicPlugin => Some (copyPublic_onEnd fuel)
  | generatePackageJsonPlugin => Some generatePackageJson_onEnd
  | copyReadmePlugin => Some copyReadme_onEnd
  end.

Fixpoint registered (fuel : nat) (ps : list plugin) : list (St world unit) :=
  match ps with
  | [] => []
  | p :: rest =>
      match onEnd fuel p with
      | Some callback => callback :: registered fuel rest
      | None => registered fuel rest
      end
  end.

(** esbuild at the end of a build: the registered callbacks run one after
    the other in registration order; what a callback throws is caught and
    becomes an error of the build result. *)
Fixpoint runOnEndCallbacks (callbacks : list (St world unit)) : St world (list error) :=
  match callbacks with
  | [] => ret []
  | callback :: rest =>
      errors <- try_catch (callback ;;; ret []) (fun e => ret [e]) ;;
      more <- runOnEndCallbacks rest ;;
      ret (errors ++ more)%list
  end.

(** The end of a build of the context of line 124. *)
Definition build_end (fuel : nat) : St world (list error) :=
  runOnEndCallbacks (registered fuel plugins).

(** *** logServedFiles (lines 162-203) *)

(** An element of the arrays [getFiles] handles: a path, or the array a
    recursive call returned. *)
Inductive item : Type :=
| Path (p : string)
| Paths (elements : list item).

(** [Array.prototype.flat()], depth 1: the elements of an element that is
    an array take its place. *)
Definition flat (l : list item) : list item :=
  flat_map (fun x => match x with
                     | Paths elements => elements
                     | Path _ => [x]
                     end) l.

(** [Array.prototype.map] with a callback that can throw. *)
Fixpoint map_result {A B : Type} (f : A -> result B) (l : list A) : result (list B) :=
  match l with
  | [] => Ok []
  | x :: rest =>
      result_bind (f x) (fun y =>
      result_bind (map_result f rest) (fun ys => Ok (y :: ys)))
  end.

(** [join] of [path] on a normalised directory path and an entry name. *)
Definition join (dirPath name : string) : string :=
  dirPath ++ String sep EmptyString ++ name.

(** [readdirSync(dirPath, { withFileTypes: true })] on a relative path. *)
Definition readdirSync (fs : node) (dirPath : string) : result (list Dirent) :=
  readdir_at (cwd ++ Str.split sep dirPath)%list fs.

(** Lines 168-175. *)
Fixpoint getFiles (fuel : nat) (fs : node) (dirPath : string) : result (list item) :=
  match fuel with
  | 0 => OutOfFuel
  | S fuel' =>
      result_bind (readdirSync fs dirPath) (fun dirents =>
      result_bind
        (map_result (fun dirent =>
           let path := join dirPath (name dirent) in
           if isDirectory dirent
           then result_map Paths (getFiles fuel' fs path)
           else Ok (Path path)) dirents) (fun files =>
      Ok (flat files)))
  end.

(** [paths[0] = v]. *)
Definition set_first (v : string) (paths : list string) : list string :=
  match paths with
  | [] => [v]
  | _ :: rest => v :: rest
  end.

Definition link_tag (location : string) : string :=
  "<link href=" ++ Str.dquote ++ location ++ Str.dquote
    ++ " rel=" ++ Str.dquote ++ "stylesheet" ++ Str.dquote
    ++ " type=" ++ Str.dquote ++ "text/css" ++ Str.dquote ++ "/>".

Definition script_tag (location : string) : string :=
  "<script defer src=" ++ Str.dquote ++ location ++ Str.dquote ++ "></script>".

(** Lines 183-187: the served location of an output file. *)
Definition location_of (file : string) : string :=
  let paths := Str.split sep file in
  let paths := set_first SERVE_ORIGIN paths in
  Str.join "/" paths.

(** Lines 180-198: the callback of [files.map]; [None] is its
    [undefined]. *)
Definition file_info (file : item) : result (option served_file) :=
  match file with
  | Paths _ => Threw TypeError
  | Path file =>
      if Str.endsWith file ".map" then Ok None
      else
        let location := location_of file in
        let tag := if Str.endsWith location ".css"
                   then link_tag location
                   else script_tag location in
        Ok (Some {| File_Location := location; Import_Suggestion := tag |})
  end.

(** [.filter(Boolean)] on rows and [undefined]s. *)
Definition filter_Boolean {A : Type} (l : list (option A)) : list A :=
  flat_map (fun x => match x with
                     | Some a => [a]
                     | None => []
                     end) l.

(** Lines 179-199. *)
Definition filesInfo (files : list item) : result (list served_file) :=
  result_map filter_Boolean (map_result file_info files).

Definition logServedFiles (fuel : nat) : St world unit :=
  files <- (fun w => (w, getFiles fuel (files w) BUILD_DIRECTORY)) ;;
  filesInfo <- lift_result (filesInfo files) ;;
  console_table filesInfo.

End Build.

(** ** Measures and shapes of trees, used to state the properties *)

(** The names of a list are pairwise different. *)
Fixpoint distinct (names : list string) : bool :=
  match names with
  | [] => true
  | x :: rest => negb (existsb (String.eqb x) rest) && distinct rest
  end.

(** Every directory of the tree names each of its entries once, as a file
    system does. *)
Fixpoint unique_names (n : node) : bool :=
  match n with
  | File _ => true
  | Dir es => distinct (map fst es) && forallb (fun e => unique_names (snd e)) es
  end.

(** No entry name of the tree has the character [c] in it (as no name
    has the path separator). *)
Fixpoint names_without (c : ascii) (n : node) : bool :=
  match n with
  | File _ => true
  | Dir es =>
      forallb (fun e => negb (Str.contains c (fst e)) && names_without c (snd e)) es
  end.

(** The number of nested directory levels of a tree. *)
Fixpoint depth (n : node) : nat :=
  match n with
  | File _ => 0
  | Dir es => S (list_max (map (fun e => depth (snd e)) es))
  end.

(** [q] is a path to [p] or to a directory above it. *)
Definition is_prefix (q p : path) : Prop := exists r, p = (q ++ r)%list.

(** Neither path is the other or lies under it. *)
Definition apart (p q : path) : Prop := ~ is_prefix p q /\ ~ is_prefix q p.

Fixpoint prefixb (q p : path) : bool :=
  match q, p with
  | [], _ => true
  | _ :: _, [] => false
  | a :: q', b :: p' => String.eqb a b && prefixb q' p'
  end.

(** [mkdir(p, { recursive: true })] can succeed: no file stands on the
    way to [p] or at [p]. *)
Fixpoint creatable (p : path) (n : node) : bool :=
  match n with
  | File _ => false
  | Dir es =>
      match p with
      | [] => true
      | s :: p' =>
          match Assoc.get s es with
          | Some c => creatable p' c
          | None => true
          end
      end
  end.

(** A source tree fits a destination slot: wherever both have a node at
    the same relative path, both are files or both are directories. *)
Fixpoint compatible (s : node) (d : option node) : bool :=
  match s, d with
  | _, None => true
  | File _, Some (File _) => true
  | Dir es, Some (Dir des) =>
      forallb (fun e => compatible (snd e) (Assoc.get (fst e) des)) es
  | _, _ => false
  end.

(** The tree with [new] at [p]: directories missing on the way are made,
    entries keep their places and new ones go last. *)
Fixpoint graft (p : path) (new : node) (n : node) : node :=
  match p with
  | [] => new
  | s :: p' =>
      match n with
      | File _ => n
      | Dir es =>
          let child := match Assoc.get s es with
                       | Some c => c
                       | None => Dir []
                       end in
          Dir (Assoc.put s (graft p' new child) es)
      end
  end.

Definition entries_of (d : option node) : list (string * node) :=
  match d with
  | Some (Dir des) => des
  | _ => []
  end.

(** The destination after a source tree is copied onto it: every source
    file replaces or adds the file of its name, every source directory
    is merged into the directory of its name. *)
Fixpoint overlay (s : node) (d : option node) : node :=
  match s with
  | File data => File data
  | Dir es =>
      Dir (fold_left
             (fun des e => Assoc.put (fst e) (overlay (snd e) (Assoc.get (fst e) des)) des)
             es (entries_of d))
  end.

(** The relative paths of the files of a tree: each directory's entries in
    enumeration order, a directory's files in the place of the
    directory. *)
Fixpoint leaf_files (n : node) : list path :=
  match n with
  | File _ => [[]]
  | Dir es => flat_map (fun e => map (cons (fst e)) (leaf_files (snd e))) es
  end.

(** A file is there. *)
Definition is_file (o : option node) : bool :=
  match o with
  | Some (File _) => true
  | _ => false
  end.

(** The depth of the tree at a path, 0 where there is none. *)
Definition depth_at (p : path) (fs : node) : nat :=
  match lookup p fs with
  | Some n => depth n
  | None => 0
  end.

(** ** What the statements are written with *)

Local Open Scope list_scope.

(** The test the statements use for [apart]. *)
Definition apartb (p q : path) : bool := negb (prefixb p q) && negb (prefixb q p).

(** The body of the loop of lines 98-107, with the recursive call as a
    parameter. *)
Definition copy_entry (recur : path -> path -> St node unit) (src dest : path)
  (entry : Dirent) : St node unit :=
  let srcPath := path_join src (name entry) in
  let destPath := path_join dest (name entry) in
  if isDirectory entry then recur srcPath destPath else copyFile srcPath destPath.

(** One step of the fold that [overlay] is. *)
Definition overlay_step (des : list (string * node)) (e : string * node)
  : list (string * node) :=
  Assoc.put (fst e) (overlay (snd e) (Assoc.get (fst e) des)) des.

(** The entries of a directory yet to be copied, as the loop meets
    them: each is still in place in the source, fits the slot of its name
    in the destination, and is shallow enough for the budget. *)
Definition pending (fuel : nat) (src : path) (fs : node)
  (des : list (string * node)) (e : string * node) : Prop :=
  lookup (path_join src (fst e)) fs = Some (snd e) /\
  unique_names (snd e) = true /\
  depth (snd e) <= fuel /\
  compatible (snd e) (Assoc.get (fst e) des) = true.

(** What stands apart from the destination is as it was. *)
Definition same_apart (dest : path) (fs fs' : node) : Prop :=
  forall q, apart dest q -> lookup q fs' = lookup q fs.

(** A file that was there is still there with its bytes, unless its path
    is the destination path of a file of the source tree. *)
Definition keeps_files (src dest : path) (fs0 fs fs' : node) : Prop :=
  forall q data,
    lookup q fs = Some (File data) ->
    lookup q fs' = Some (File data) \/
    exists rel, q = dest ++ rel /\ is_file (lookup (src ++ rel) fs0) = true.

(** The two snippets of the report, written out; character 34 is the
    double quote.  A script tag with the [defer] attribute that loads
    [url], and a [link] tag that takes [url] as a style sheet. *)
Definition deferred_script (url : string) : string :=
  ("<script defer src=" ++ String "034" url ++ String "034" "></script>")%string.

Definition stylesheet_link (url : string) : string :=
  ("<link href=" ++ String "034" url
     ++ String "034" " rel=" ++ String "034" "stylesheet"
     ++ String "034" " type=" ++ String "034" "text/css"
     ++ String "034" "/>")%string.

Section Statements.
Context {host : Host}.

(** The manifest of the run, read, parsed and trimmed. *)
Definition trimmed_manifest (fs : node) : result (value number) :=
  result_bind
    (result_bind (read_at (path_join rootDir "package.json") fs) parse)
    modify_packageJson.

(** The separator as a string. *)
Definition sep_string : string := String sep EmptyString.

(** The element of the mapped array for one directory entry. *)
Definition listed (dirPath : string) (e : string * node) : item :=
  match snd e with
  | File _ => Path (join dirPath (fst e))
  | Dir _ =>
      Paths (map (fun rel => Path (fold_left join rel (join dirPath (fst e))))
                 (leaf_files (snd e)))
  end.

End Statements.

(** ** A sample project *)

(** A project to try the statements on: [public/] with a file and a
    subdirectory, and an output directory that already holds a bundle and
    an older copy of the icon. *)
Definition sample_public_entries : list (string * node) :=
  [("favicon.ico", File "ICO-v2");
   ("img", Dir [("logo.png", File "PNG")])].

Definition sample_public : node := Dir sample_public_entries.

Definition sample_dist : node :=
  Dir [("index.js", File "bundle");
       ("favicon.ico", File "ICO-v1")].

Definition sample_fs : node :=
  Dir [("proj", Dir [("public", sample_public); ("dist", sample_dist)])].

(** A project whose output directory has a directory [a] where [public/]
    has a file [a], and an older [z.txt]. *)
Definition sample_clash : node :=
  Dir [("proj", Dir [("public", Dir [("a", File "A"); ("z.txt", File "new")]);
                     ("dist", Dir [("a", Dir []); ("z.txt", File "old")])])].

(** The manifest of the sample project, and a stand-in for [JSON.parse]
    that knows this document. *)
Definition sample_manifest : value nat :=
  JObject [("name", JString "fs-developer-starter");
           ("version", JString "1.0.0");
           ("scripts", JObject [("build", JString "node bin/build.js")]);
           ("files", JArray [JString "dist"] []);
           ("devDependencies", JObject [("esbuild", JString "^0.19.0")]);
           ("retries", JNumber 3)].

Definition nat_toString (n : nat) : string := NilEmpty.string_of_uint (Nat.to_uint n).

Definition sample_text : string :=
  serialize nat_toString (spaces 2) EmptyString sample_manifest.

Definition sample_parse (text : string) : option (value nat) :=
  if String.eqb text sample_text then Some sample_manifest
  else if String.eqb text "null" then Some JNull
  else None.

(** The text the sample manifest is written out as, once trimmed: four
    members, each on a line of its own behind two spaces. *)
Definition sample_trimmed_text : string :=
  (let quoted s := Str.dquote ++ s ++ Str.dquote in
   "{" ++ newline
     ++ "  " ++ quoted "name" ++ ": " ++ quoted "fs-developer-starter" ++ "," ++ newline
     ++ "  " ++ quoted "version" ++ ": " ++ quoted "1.0.0" ++ "," ++ newline
     ++ "  " ++ quoted "retries" ++ ": 3," ++ newline
     ++ "  " ++ quoted "browser" ++ ": " ++ quoted "index.js" ++ newline
     ++ "}")%string.

(** A POSIX host that runs [bin/build.js] of the project at [/proj] from
    the project directory. *)
Definition posix (env : option string) : Host :=
  {| number := nat;
     Number_toString := nat_toString;
     JSON_parse := sample_parse;
     sep := "/"%char;
     dirname := ["proj"; "bin"];
     cwd := ["proj"];
     NODE_ENV := env |}.

Definition posix_production : Host := posix (Some "production").
Definition posix_development : Host := posix None.

(** A Windows host in development mode: the separator is the
    backslash. *)
Definition win32_development : Host :=
  {| number := nat;
     Number_toString := nat_toString;
     JSON_parse := sample_parse;
     sep := "\"%char;
     dirname := ["C:"; "proj"; "bin"];
     cwd := ["C:"; "proj"];
     NODE_ENV := Some "development" |}.

(** The sample project without a [public/] directory and with a manifest
    that is no JSON document. *)
Definition sample_bare : world :=
  {| files := Dir [("proj", Dir [("package.json", File "{ name: ");
                                 ("dist", sample_dist)])];
     console := [] |}.

(** The sample project with its manifest and an output directory. *)
Definition sample_world : world :=
  {| files := Dir [("proj", Dir [("package.json", File sample_text);
                                 ("public", sample_public);
                                 ("dist", sample_dist)])];
     console := [] |}.

(** An output directory with a script, its source map and a style
    sheet. *)
Definition sample_served : world :=
  {| files := Dir [("proj", Dir [("dist", Dir [("app.js", File "js");
                                               ("app.js.map", File "map");
                                               ("styles.css", File "css")])])];
     console := [] |}.

(** An output directory with nested directories. *)
Definition sample_output_entries : list (string * node) :=
  [("app.js", File "js");
   ("assets", Dir [("fonts", Dir [("a.woff", File "woff")]);
                   ("logo.png", File "png")]);
   ("styles.css", File "css")].

Definition sample_output : node :=
  Dir [("proj", Dir [("dist", Dir sample_output_entries)])].

Definition sample_output_win32 : world :=
  {| files := Dir [("C:", sample_output)]; console := [] |}.

(** ** More of the script *)

Local Open Scope string_scope.

Section Options.
Context {host : Host}.

(** The options of [esbuild.context] (lines 124-140); [define] maps the
    name of a constant to the text of its value. *)
Record BuildOptions : Type :=
  { bundle : bool;
    entryPoints : list string;
    outdir : string;
    minify : bool;
    sourcemap : bool;
    target : string;
    inject : option (list string);
    option_plugins : list plugin;
    define : list (string * string) }.

Definition context_options : BuildOptions :=
  {| bundle := true;
     entryPoints := ENTRY_POINTS;
     outdir := BUILD_DIRECTORY;
     minify := PRODUCTION;
     sourcemap := negb PRODUCTION;
     target := if PRODUCTION then "es2020" else "esnext";
     inject := if LIVE_RELOAD then Some ["./bin/live-reload.js"] else None;
     option_plugins := plugins;
     define := [("SERVE_ORIGIN", quote SERVE_ORIGIN)] |}.

(** The directory esbuild writes to and serves: [outdir], resolved
    against the working directory. *)
Definition served_directory : path :=
  (cwd ++ Str.split sep (outdir context_options))%list.

End Options.

Local Open Scope list_scope.

(** ** What the further statements are written with *)

(** A directory is there. *)
Definition is_directory (o : option node) : bool :=
  match o with
  | Some (Dir _) => true
  | _ => false
  end.

(** An object or an array: a value that takes properties. *)
Definition takes_properties {number : Type} (v : value number) : bool :=
  match v with
  | JObject _ | JArray _ _ => true
  | _ => false
  end.

(** The four keys the manifest post-processor deletes. *)
Definition build_only (key : string) : bool :=
  String.eqb key "scripts" || String.eqb key "devDependencies"
  || String.eqb key "files" || String.eqb key "publishConfig".

(** The keys of a trimmed manifest, from the keys of the manifest: the
    build-only ones dropped, the rest in their order, and [browser] last
    when it was not there. *)
Definition trimmed_keys (keys : list string) : list string :=
  let kept := filter (fun k => negb (build_only k)) keys in
  if existsb (String.eqb "browser") kept then kept else kept ++ ["browser"%string].

(** Every node that was there is still there, a file as a file and a
    directory as a directory. *)
Definition keeps_kinds (fs fs' : node) : Prop :=
  forall q,
    (is_file (lookup q fs) = true -> is_file (lookup q fs') = true) /\
    (is_directory (lookup q fs) = true -> is_directory (lookup q fs') = true).

Section MoreStatements.
Context {host : Host}.

(** The row the reporter prints for the file at the relative path [rel]
    of the output directory, if any. *)
Definition row_of (rel : path) : option served_file :=
  if Str.endsWith (last rel EmptyString) ".map" then None
  else
    let location := Str.join "/" (SERVE_ORIGIN :: rel) in
    Some {| File_Location := location;
            Import_Suggestion :=
              if Str.endsWith (last rel EmptyString) ".css"
              then link_tag location
              else script_tag location |}.

End MoreStatements.

(** ** More samples *)

(** The sample project with [null] for a manifest. *)
Definition sample_null_manifest : world :=
  {| files := Dir [("proj", Dir [("package.json", File "null");
                                 ("dist", sample_dist)])];
     console := [] |}.

(** The sample project before its first build: no output directory. *)
Definition sample_unbuilt : world :=
  {| files := Dir [("proj", Dir [("package.json", File sample_text);
                                 ("README.md", File "# Starter");
                                 ("public", sample_public)])];
     console := [] |}.

(** What a look at a path shows: nothing, a directory, or a file and its
    bytes. *)
Definition glance (o : option node) : option (option string) :=
  match o with
  | None => None
  | Some (Dir _) => Some None
  | Some (File data) => Some (Some data)
  end.

(** A stand-in for [JSON.parse] that knows one array. *)
Definition array_parse (text : string) : option (value nat) :=
  if String.eqb text "[1, 2]" then Some (JArray [JNumber 1; JNumber 2] [])
  else None.

Definition posix_array : Host :=
  {| number := nat;
     Number_toString := nat_toString;
     JSON_parse := array_parse;
     sep := "/"%char;
     dirname := ["proj"; "bin"];
     cwd := ["proj"];
     NODE_ENV := Some "production" |}.

(** The sample project with an array for a manifest. *)
Definition sample_array_manifest : world :=
  {| files := Dir [("proj", Dir [("package.json", File "[1, 2]");
                                 ("dist", sample_dist)])];
     console := [] |}.

(** The sample project with everything a production build reads. *)
Definition sample_complete : world :=
  {| files := Dir [("proj", Dir [("package.json", File sample_text);
                                 ("README.md", File "# Starter");
                                 ("public", sample_public);
                                 ("dist", sample_dist)])];
     console := [] |}.

(** A property of the node at a slot, true of an empty slot. *)
Definition if_there (P : node -> bool) (o : option node) : bool :=
  match o with
  | Some n => P n
  | None => true
  end.

(** The sample project with a file where the output directory should
    be. *)
Definition sample_dist_is_file : world :=
  {| files := Dir [("proj", Dir [("public", sample_public);
                                 ("dist", File "not a directory")])];
     console := [] |}.

(** A host that runs the script of the project at [/proj] from
    [/elsewhere]. *)
Definition posix_elsewhere : Host :=
  {| number := nat;
     Number_toString := nat_toString;
     JSON_parse := sample_parse;
     sep := "/"%char;
     dirname := ["proj"; "bin"];
     cwd := ["elsewhere"];
     NODE_ENV := None |}.

(** The sample project with a [package.json] and a README of their own
    in [public/]. *)
Definition sample_public_shadowing : list (string * node) :=
  [("package.json", File "public copy");
   ("README.md", File "public readme");
   ("favicon.ico", File "ICO-v2")].

Definition sample_shadowed : world :=
  {| files := Dir [("proj", Dir [("package.json", File sample_text);
                                 ("README.md", File "# Starter");
                                 ("public", Dir sample_public_shadowing);
                                 ("dist", sample_dist)])];
     console := [] |}.

(** The sample project with a directory named [README.md] at its root
    and an older copy of the README in the output directory. *)
Definition sample_readme_is_directory : world :=
  {| files := Dir [("proj", Dir [("README.md", Dir []);
                                 ("dist", Dir [("index.js", File "bundle");
                                               ("README.md", File "old")])])];
     console := [] |}.

(** A file that is there afterwards was there with these bytes, or is at
    the destination path of a source file that had these bytes. *)
Definition only_copies (src dest : path) (fs0 fs fs' : node) : Prop :=
  forall q data,
    lookup q fs' = Some (File data) ->
    lookup q fs = Some (File data) \/
    exists rel, q = dest ++ rel /\ lookup (src ++ rel) fs0 = Some (File data).


(** ** The loop of the copier, as the proofs go through it *)

(** The copy of a source that is a file: its bytes go to the destination,
    or an error leaves everything as it was. *)
Definition copy_plain (src dest : path) : St node unit :=
  update (fun fs => result_bind (read_at src fs) (fun data => write_at dest data fs)).

(** The body of the loop with that copy for [copyFile]. *)
Definition copy_entry_plain (recur : path -> path -> St node unit) (src dest : path)
  (entry : Dirent) : St node unit :=
  let srcPath := path_join src (name entry) in
  let destPath := path_join dest (name entry) in
  if isDirectory entry then recur srcPath destPath else copy_plain srcPath destPath.

(** An entry the loop can take: a directory, or a file that is still a
    file, or one whose destination has a directory in its place. *)
Definition ready (src dest : path) (fs : node) (e : Dirent) : Prop :=
  isDirectory e = true \/
  is_file (lookup (path_join src (name e)) fs) = true \/
  is_directory (lookup (path_join dest (name e)) fs) = true.

(** The entries yet to come: each is ready, or comes after a directory of
    the same name. *)
Definition awaited (src dest : path) (l : list Dirent) (fs : node) : Prop :=
  forall l1 e l2,
    l = l1 ++ e :: l2 ->
    ready src dest fs e \/
    exists e', In e' l1 /\ isDirectory e' = true /\ name e' = name e.

(* ===================================================================== *)
(** * Part II: properties                                                 *)
(* ===================================================================== *)

Local Open Scope list_scope.

(** ** Association lists *)

Section AssocFacts.
Context {V : Type}.
Implicit Types (l : list (string * V)) (k key : string) (v : V).

Lemma get_remove_same key l : Assoc.get key (Assoc.remove key l) = None.
Proof.
  induction l as [|[k v] l IH]; simpl; auto.
  destruct (String.eqb k key) eqn:E; simpl; auto.
  now rewrite E.
Qed.

Lemma get_remove_other key k l :
  k <> key -> Assoc.get k (Assoc.remove key l) = Assoc.get k l.
Proof.
  intros Hne. induction l as [|[k' v] l IH]; simpl; auto.
  destruct (String.eqb k' key) eqn:E; simpl.
  - apply String.eqb_eq in E. subst k'.
    destruct (String.eqb key k) eqn:E'; auto.
    apply String.eqb_eq in E'. congruence.
  - now rewrite IH.
Qed.

Lemma get_put_same key v l : Assoc.get key (Assoc.put key v l) = Some v.
Proof.
  induction l as [|[k w] l IH]; simpl.
  - now rewrite String.eqb_refl.
  - destruct (String.eqb k key) eqn:E; simpl; now rewrite E.
Qed.

Lemma get_put_other key k v l :
  k <> key -> Assoc.get k (Assoc.put key v l) = Assoc.get k l.
Proof.
  intros Hne. induction l as [|[k' w] l IH]; simpl.
  - destruct (String.eqb key k) eqn:E; auto.
    apply String.eqb_eq in E. congruence.
  - destruct (String.eqb k' key) eqn:E; simpl.
    + apply String.eqb_eq in E. subst k'.
      destruct (String.eqb key k) eqn:E'; auto.
      apply String.eqb_eq in E'. congruence.
    + now rewrite IH.
Qed.

Lemma put_put key v w l : Assoc.put key v (Assoc.put key w l) = Assoc.put key v l.
Proof.
  induction l as [|[k u] l IH]; simpl.
  - now rewrite String.eqb_refl.
  - destruct (String.eqb k key) eqn:E; simpl; rewrite E; auto.
    now rewrite IH.
Qed.

Lemma put_get_id key v l : Assoc.get key l = Some v -> Assoc.put key v l = l.
Proof.
  induction l as [|[k u] l IH]; simpl; try discriminate.
  destruct (String.eqb k key) eqn:E.
  - intros [= ->]. reflexivity.
  - intros Hg. now rewrite IH.
Qed.

Lemma get_In key v l : Assoc.get key l = Some v -> In (key, v) l.
Proof.
  induction l as [|[k u] l IH]; simpl; try discriminate.
  destruct (String.eqb k key) eqn:E.
  - apply String.eqb_eq in E. intros [= ->]. left. now subst.
  - auto.
Qed.

Lemma get_None_names key l : Assoc.get key l = None <-> ~ In key (map fst l).
Proof.
  induction l as [|[k u] l IH]; simpl.
  - tauto.
  - destruct (String.eqb k key) eqn:E.
    + apply String.eqb_eq in E. split; [discriminate | intros H; exfalso; auto].
    + apply String.eqb_neq in E. rewrite IH. tauto.
Qed.

Lemma remove_absent key l : Assoc.get key l = None -> Assoc.remove key l = l.
Proof.
  induction l as [|[k u] l IH]; simpl; auto.
  destruct (String.eqb k key); [discriminate|].
  intros H. now rewrite IH.
Qed.

Lemma remove_put_other key k v l :
  k <> key -> Assoc.remove k (Assoc.put key v l) = Assoc.put key v (Assoc.remove k l).
Proof.
  intros Hne. induction l as [|[k' w] l IH]; simpl.
  - destruct (String.eqb key k) eqn:E; auto.
    apply String.eqb_eq in E. congruence.
  - destruct (String.eqb k' key) eqn:E; simpl.
    + apply String.eqb_eq in E. subst k'.
      destruct (String.eqb key k) eqn:E'.
      * apply String.eqb_eq in E'. congruence.
      * simpl. now rewrite String.eqb_refl.
    + destruct (String.eqb k' k) eqn:E'; auto.
      simpl. now rewrite E, IH.
Qed.

End AssocFacts.

Lemma distinct_NoDup names : distinct names = true <-> NoDup names.
Proof.
  induction names as [|x rest IH]; simpl.
  - split; [constructor | reflexivity].
  - rewrite andb_true_iff, negb_true_iff, IH. split.
    + intros [Hx Hr]. constructor; auto.
      intros Hin. assert (existsb (String.eqb x) rest = true) as Habs.
      { apply existsb_exists. exists x. split; auto. apply String.eqb_refl. }
      congruence.
    + intros Hnd. inversion Hnd as [|? ? Hx Hr]; subst. split; auto.
      destruct (existsb (String.eqb x) rest) eqn:E; auto.
      apply existsb_exists in E. destruct E as [y [Hy Hxy]].
      apply String.eqb_eq in Hxy. subst y. contradiction.
Qed.

(** In a list of distinct names an entry is found under its name. *)
Lemma get_of_In {V : Type} (l : list (string * V)) key v :
  NoDup (map fst l) -> In (key, v) l -> Assoc.get key l = Some v.
Proof.
  induction l as [|[k u] l IH]; simpl; [tauto|].
  intros Hnd Hin. inversion Hnd as [|? ? Hk Hl]; subst.
  destruct Hin as [[= -> ->]|Hin].
  - now rewrite String.eqb_refl.
  - destruct (String.eqb k key) eqn:E.
    + apply String.eqb_eq in E. subst k. exfalso. apply Hk.
      now apply (in_map fst) in Hin.
    + auto.
Qed.

(** ** The manifest post-processor *)

Section ManifestFacts.
Context {host : Host}.

(** On an object the five statements go through and come to this. *)
Lemma modify_packageJson_object (M : list (string * value number)) :
  modify_packageJson (JObject M) =
  Ok (JObject (Assoc.put "browser" (JString "index.js")
                 (Assoc.remove "publishConfig"
                    (Assoc.remove "files"
                       (Assoc.remove "devDependencies"
                          (Assoc.remove "scripts" M)))))).
Proof. reflexivity. Qed.

(** C1.  For every manifest [M] that is an object (parsed JSON key-value
    data), the transformation of lines 37-41 yields an object [M'] that has
    none of the keys [scripts], [devDependencies], [files],
    [publishConfig], has [browser] mapped to the string [index.js], and
    maps every other key to what [M] maps it to (a key of neither is a key
    of the other). *)
Theorem manifest_transformation (M : list (string * value number)) :
  exists M',
    modify_packageJson (JObject M) = Ok (JObject M') /\
    Assoc.get "scripts" M' = None /\
    Assoc.get "devDependencies" M' = None /\
    Assoc.get "files" M' = None /\
    Assoc.get "publishConfig" M' = None /\
    Assoc.get "browser" M' = Some (JString "index.js") /\
    (forall key,
        key <> "scripts" -> key <> "devDependencies" -> key <> "files" ->
        key <> "publishConfig" -> key <> "browser" ->
        Assoc.get key M' = Assoc.get key M).
Proof.
  eexists. split; [apply modify_packageJson_object|].
  repeat split.
  - rewrite get_put_other by discriminate.
    rewrite !get_remove_other by discriminate. apply get_remove_same.
  - rewrite get_put_other by discriminate.
    rewrite !get_remove_other by discriminate. apply get_remove_same.
  - rewrite get_put_other by discriminate.
    rewrite get_remove_other by discriminate. apply get_remove_same.
  - rewrite get_put_other by discriminate. apply get_remove_same.
  - apply get_put_same.
  - intros key H1 H2 H3 H4 H5.
    rewrite get_put_other by assumption.
    now rewrite !get_remove_other by assumption.
Qed.

(** Trimming a trimmed list of properties changes nothing. *)
Lemma trim_again {V : Type} (v : V) (l : list (string * V)) :
  let trim l :=
    Assoc.put "browser" v
      (Assoc.remove "publishConfig"
         (Assoc.remove "files"
            (Assoc.remove "devDependencies"
               (Assoc.remove "scripts" l)))) in
  trim (trim l) = trim l.
Proof.
  cbv beta zeta.
  rewrite !(remove_put_other "browser") by discriminate.
  set (x := Assoc.remove "publishConfig"
              (Assoc.remove "files"
                 (Assoc.remove "devDependencies" (Assoc.remove "scripts" l)))).
  assert (Assoc.remove "scripts" x = x) as ->.
  { apply remove_absent. subst x.
    rewrite !get_remove_other by discriminate. apply get_remove_same. }
  assert (Assoc.remove "devDependencies" x = x) as ->.
  { apply remove_absent. subst x.
    rewrite !get_remove_other by discriminate. apply get_remove_same. }
  assert (Assoc.remove "files" x = x) as ->.
  { apply remove_absent. subst x.
    rewrite get_remove_other by discriminate. apply get_remove_same. }
  assert (Assoc.remove "publishConfig" x = x) as ->.
  { apply remove_absent. subst x. apply get_remove_same. }
  apply put_put.
Qed.

(** The transformation maps its own result to itself. *)
Lemma modify_packageJson_again (M M' : value number) :
  modify_packageJson M = Ok M' -> modify_packageJson M' = Ok M'.
Proof.
  destruct M as [ | b | n | s | items named | props ]; simpl; try discriminate.
  - intros [= <-]. unfold modify_packageJson. simpl. f_equal. f_equal.
    apply (trim_again (JString "index.js") named).
  - intros [= <-]. unfold modify_packageJson. simpl. f_equal. f_equal.
    apply (trim_again (JString "index.js") props).
Qed.

End ManifestFacts.

(** ** Paths *)

Lemma is_prefix_nil (p : path) : is_prefix [] p.
Proof. now exists p. Qed.

Lemma is_prefix_refl (p : path) : is_prefix p p.
Proof. exists []. now rewrite app_nil_r. Qed.

Lemma is_prefix_cons (a b : string) (q p : path) :
  is_prefix (a :: q) (b :: p) <-> a = b /\ is_prefix q p.
Proof.
  split.
  - intros [r Hr]. simpl in Hr. injection Hr as -> ->. split; auto. now exists r.
  - intros [-> [r ->]]. now exists r.
Qed.

Lemma is_prefix_app (p r : path) : is_prefix p (p ++ r).
Proof. now exists r. Qed.

Lemma is_prefix_trans (p q r : path) : is_prefix p q -> is_prefix q r -> is_prefix p r.
Proof. intros [a ->] [b ->]. exists (a ++ b). now rewrite app_assoc. Qed.

Lemma prefixb_spec (q p : path) : prefixb q p = true <-> is_prefix q p.
Proof.
  revert p. induction q as [|a q IH]; intros p; simpl.
  - split; auto using is_prefix_nil.
  - destruct p as [|b p].
    + split; [discriminate|]. intros [r Hr]. discriminate.
    + rewrite andb_true_iff, is_prefix_cons, IH, String.eqb_eq. tauto.
Qed.

Lemma apartb_spec (p q : path) : apartb p q = true <-> apart p q.
Proof.
  unfold apartb, apart. rewrite andb_true_iff, !negb_true_iff.
  rewrite <- !not_true_iff_false, !prefixb_spec. tauto.
Qed.

Lemma apart_sym (p q : path) : apart p q -> apart q p.
Proof. unfold apart. tauto. Qed.

Lemma apart_cons (a : string) (p q : path) : apart (a :: p) (a :: q) -> apart p q.
Proof. unfold apart. rewrite !is_prefix_cons. tauto. Qed.

(** Below a path that is apart from [q], everything is apart from [q]. *)
Lemma apart_below (p q r : path) : apart p q -> apart (p ++ r) q.
Proof.
  revert q. induction p as [|a p IH]; intros q [H1 H2].
  - exfalso. apply H1, is_prefix_nil.
  - destruct q as [|b q].
    + exfalso. apply H2, is_prefix_nil.
    + simpl. unfold apart. rewrite !is_prefix_cons.
      destruct (string_dec a b) as [->|Hne]; [|intuition congruence].
      assert (apart p q) as Hpq.
      { unfold apart. rewrite !is_prefix_cons in H1, H2. tauto. }
      destruct (IH q Hpq). tauto.
Qed.

Lemma apart_join (p q : path) (a b : string) :
  apart p q -> apart (path_join p a) (path_join q b).
Proof.
  intros H. unfold path_join.
  apply apart_below, apart_sym, apart_below, apart_sym, H.
Qed.

(** ** Reading the tree *)

Lemma lookup_app (p q : path) (n : node) :
  lookup (p ++ q) n =
  match lookup p n with
  | Some m => lookup q m
  | None => None
  end.
Proof.
  revert n. induction p as [|s p IH]; intros n; simpl; auto.
  destruct n as [|es]; auto.
  destruct (Assoc.get s es); auto.
Qed.

Lemma lookup_File_below (p : path) (data : string) :
  p <> [] -> lookup p (File data) = None.
Proof. destruct p; simpl; congruence. Qed.

Lemma lookup_empty_Dir (p : path) : p <> [] -> lookup p (Dir []) = None.
Proof. destruct p; simpl; congruence. Qed.

(** Where a path leads to a file, nothing lies below it and only
    directories lie above it. *)
Lemma lookup_file_prefix (q p : path) (n : node) (data : string) :
  lookup q n = Some (File data) -> is_prefix q p -> p = q \/ lookup p n = None.
Proof.
  intros Hq [r ->]. destruct r as [|a r].
  - left. now rewrite app_nil_r.
  - right. rewrite lookup_app, Hq. reflexivity.
Qed.

(** ** Grafting *)

Lemma lookup_graft_same (p : path) (new n : node) :
  creatable p n = true -> lookup p (graft p new n) = Some new.
Proof.
  revert n. induction p as [|s p IH]; intros n Hc; simpl; auto.
  destruct n as [|es]; simpl in Hc; [discriminate|].
  simpl. rewrite get_put_same.
  destruct (Assoc.get s es) as [c|]; apply IH; auto.
  destruct p; reflexivity.
Qed.

Lemma lookup_graft_apart (p q : path) (new n : node) :
  apart p q -> lookup q (graft p new n) = lookup q n.
Proof.
  revert q n. induction p as [|s p IH]; intros q n Hap.
  - exfalso. apply (proj1 Hap), is_prefix_nil.
  - destruct q as [|t q].
    + exfalso. apply (proj2 Hap), is_prefix_nil.
    + destruct n as [|es]; simpl; auto.
      destruct (string_dec t s) as [->|Hne].
      * rewrite get_put_same. apply apart_cons in Hap.
        rewrite IH by assumption.
        destruct (Assoc.get s es); auto.
        apply lookup_empty_Dir. intros ->. apply (proj2 Hap), is_prefix_nil.
      * now rewrite get_put_other.
Qed.

Lemma graft_graft (p : path) (a b n : node) : graft p a (graft p b n) = graft p a n.
Proof.
  revert n. induction p as [|s p IH]; intros n; simpl; auto.
  destruct n as [|es]; simpl; auto.
  rewrite get_put_same, IH, put_put. reflexivity.
Qed.

Lemma graft_app (p q : path) (new n sub : node) :
  lookup p n = Some sub -> graft (p ++ q) new n = graft p (graft q new sub) n.
Proof.
  revert n. induction p as [|s p IH]; intros n; simpl.
  - now intros [= ->].
  - destruct n as [|es]; [discriminate|].
    destruct (Assoc.get s es) as [c|]; [|discriminate].
    intros Hsub. now rewrite (IH c Hsub).
Qed.

Lemma graft_id (p : path) (n sub : node) : lookup p n = Some sub -> graft p sub n = n.
Proof.
  revert n. induction p as [|s p IH]; intros n; simpl.
  - now intros [= ->].
  - destruct n as [|es]; [discriminate|].
    destruct (Assoc.get s es) as [c|] eqn:E; [|discriminate].
    intros Hsub. rewrite (IH c Hsub). now rewrite put_get_id.
Qed.

Lemma creatable_lookup_Dir (p : path) (n : node) (es : list (string * node)) :
  lookup p n = Some (Dir es) -> creatable p n = true.
Proof.
  revert n. induction p as [|s p IH]; intros n; simpl.
  - now intros [= ->].
  - destruct n as [|des]; [discriminate|].
    simpl. destruct (Assoc.get s des) as [c|]; [|discriminate]. apply IH.
Qed.

(** Under an existing directory a child's path is creatable unless the
    child is a file. *)
Lemma creatable_child (p : path) (n : node) (des : list (string * node)) (a : string) :
  lookup p n = Some (Dir des) ->
  (forall data, Assoc.get a des <> Some (File data)) ->
  creatable (path_join p a) n = true.
Proof.
  unfold path_join. revert n. induction p as [|s p IH]; intros n; simpl.
  - intros [= ->] Hnf. simpl.
    destruct (Assoc.get a des) as [[data|ces]|]; auto.
    now destruct (Hnf data).
  - destruct n as [|es]; [discriminate|].
    simpl. destruct (Assoc.get s es) as [c|]; [|discriminate]. apply IH.
Qed.

(** ** [mkdir], [writeFile] and [copyFile] as grafts *)

Lemma mkdir_at_creatable (p : path) (n : node) :
  creatable p n = true ->
  mkdir_at p n = Ok (graft p (Dir (entries_of (lookup p n))) n).
Proof.
  revert n. induction p as [|s p IH]; intros n Hc.
  - destruct n; simpl in *; [discriminate|reflexivity].
  - destruct n as [|es]; simpl in *; [discriminate|].
    destruct (Assoc.get s es) as [c|] eqn:E.
    + now rewrite (IH c Hc).
    + rewrite IH by (destruct p; reflexivity).
      simpl. destruct p; reflexivity.
Qed.

Lemma mkdir_at_blocked (p : path) (n : node) :
  creatable p n = false -> exists e, mkdir_at p n = Threw e.
Proof.
  revert n. induction p as [|s p IH]; intros n Hc.
  - destruct n; simpl in *; [eauto|discriminate].
  - destruct n as [|es]; simpl in *; [eauto|].
    destruct (Assoc.get s es) as [c|] eqn:E; [|discriminate].
    destruct (IH c Hc) as [e ->]. simpl. eauto.
Qed.

Lemma mkdir_at_Ok (p : path) (n n' : node) :
  mkdir_at p n = Ok n' ->
  creatable p n = true /\ n' = graft p (Dir (entries_of (lookup p n))) n.
Proof.
  intros H. destruct (creatable p n) eqn:Hc.
  - rewrite (mkdir_at_creatable _ _ Hc) in H. now injection H as <-.
  - destruct (mkdir_at_blocked _ _ Hc) as [e He]. congruence.
Qed.

Lemma write_at_Ok (p : path) (data : string) (n n' : node) :
  write_at p data n = Ok n' -> n' = graft p (File data) n.
Proof.
  revert n n'. induction p as [|s p IH]; intros n n'.
  - destruct n; simpl; [|discriminate]. now intros [= <-].
  - destruct n as [|es]; simpl; [discriminate|].
    destruct (Assoc.get s es) as [c|] eqn:E.
    + destruct (write_at p data c) as [c'| |] eqn:W; simpl; try discriminate.
      intros [= <-]. now rewrite (IH _ _ W).
    + destruct p; [|discriminate]. now intros [= <-].
Qed.

(** A write in an existing directory succeeds unless a directory has the
    file's name. *)
Lemma write_at_child (p : path) (a data : string) (n : node) (des : list (string * node)) :
  lookup p n = Some (Dir des) ->
  (forall ces, Assoc.get a des <> Some (Dir ces)) ->
  write_at (path_join p a) data n =
  Ok (graft p (Dir (Assoc.put a (File data) des)) n).
Proof.
  unfold path_join. revert n. induction p as [|s p IH]; intros n; simpl.
  - intros [= ->] Hnd.
    destruct (Assoc.get a des) as [[old|ces]|] eqn:E; simpl; auto.
    now destruct (Hnd ces).
  - destruct n as [|es]; [discriminate|].
    destruct (Assoc.get s es) as [c|]; [|discriminate].
    intros Hl Hnd. now rewrite (IH c Hl Hnd).
Qed.

(** ** The recursive copy, when it completes *)

Lemma copyRecursive_S (fuel : nat) (src dest : path) :
  copyRecursive (S fuel) src dest =
  (entries <- readdir src ;;
   mkdir dest ;;;
   for_of entries (copy_entry (copyRecursive fuel) src dest))%js.
Proof. reflexivity. Qed.

Lemma overlay_Dir (es : list (string * node)) (d : option node) :
  overlay (Dir es) d = Dir (fold_left overlay_step es (entries_of d)).
Proof. reflexivity. Qed.

Lemma lookup_child (p : path) (a : string) (n : node) (des : list (string * node)) :
  lookup p n = Some (Dir des) -> lookup (path_join p a) n = Assoc.get a des.
Proof.
  intros H. unfold path_join. rewrite lookup_app, H. simpl.
  now destruct (Assoc.get a des).
Qed.

Lemma graft_child (p : path) (a : string) (new n : node) (des : list (string * node)) :
  lookup p n = Some (Dir des) ->
  graft (path_join p a) new n = graft p (Dir (Assoc.put a new des)) n.
Proof.
  intros H. unfold path_join. rewrite (graft_app _ _ _ _ _ H). reflexivity.
Qed.

Lemma compatible_File_slot (data : string) (d : option node) :
  compatible (File data) d = true -> forall ces, d <> Some (Dir ces).
Proof. destruct d as [[|]|]; simpl; congruence. Qed.

Lemma compatible_Dir_slot (es : list (string * node)) (d : option node) :
  compatible (Dir es) d = true -> forall data, d <> Some (File data).
Proof. destruct d as [[|]|]; simpl; congruence. Qed.

Section CopyLoop.
Variable fuel : nat.
Variables src dest : path.
Hypothesis Hapart : apart src dest.

(** What the recursive calls are known to do. *)
Hypothesis IHfuel : forall src' dest' fs es,
  lookup src' fs = Some (Dir es) ->
  unique_names (Dir es) = true ->
  apart src' dest' ->
  creatable dest' fs = true ->
  compatible (Dir es) (lookup dest' fs) = true ->
  depth (Dir es) <= fuel ->
  copyRecursive fuel src' dest' fs =
  (graft dest' (overlay (Dir es) (lookup dest' fs)) fs, Ok tt).

Lemma copy_entry_ok (fs : node) (des : list (string * node)) (e : string * node) :
  lookup dest fs = Some (Dir des) ->
  pending fuel src fs des e ->
  copy_entry (copyRecursive fuel) src dest (dirent_of e) fs =
  (graft dest (Dir (overlay_step des e)) fs, Ok tt).
Proof.
  intros Hdest (Hsrc & Huniq & Hdepth & Hcompat).
  destruct e as [a c]. simpl in *. unfold copy_entry, overlay_step. simpl.
  destruct c as [data|ces]; simpl.
  - unfold copyFile, copy_at. rewrite Hsrc. unfold update.
    rewrite (write_at_child _ _ _ _ _ Hdest (compatible_File_slot _ _ Hcompat)).
    reflexivity.
  - rewrite (IHfuel _ _ _ ces Hsrc Huniq (apart_join _ _ _ _ Hapart)).
    + rewrite (lookup_child _ _ _ _ Hdest), (graft_child _ _ _ _ _ Hdest).
      reflexivity.
    + apply (creatable_child _ _ _ _ Hdest), (compatible_Dir_slot _ _ Hcompat).
    + now rewrite (lookup_child _ _ _ _ Hdest).
    + assumption.
Qed.

Lemma copy_loop_ok (es : list (string * node)) :
  forall (fs : node) (des : list (string * node)),
    lookup dest fs = Some (Dir des) ->
    NoDup (map fst es) ->
    Forall (pending fuel src fs des) es ->
    for_of (map dirent_of es) (copy_entry (copyRecursive fuel) src dest) fs =
    (graft dest (Dir (fold_left overlay_step es des)) fs, Ok tt).
Proof.
  induction es as [|e rest IH]; intros fs des Hdest Hnd Hpend; simpl.
  - unfold ret. now rewrite (graft_id _ _ _ Hdest).
  - inversion Hnd as [|? ? Hfresh Hnd']; subst.
    inversion Hpend as [|? ? He Hrest]; subst.
    unfold bind at 1. rewrite (copy_entry_ok _ _ _ Hdest He).
    assert (creatable dest fs = true) as Hc by (eapply creatable_lookup_Dir; eauto).
    rewrite IH with (des := overlay_step des e).
    + now rewrite graft_graft.
    + now apply lookup_graft_same.
    + assumption.
    + rewrite Forall_forall in *. intros e' Hin.
      destruct (Hrest e' Hin) as (Hsrc & Huniq & Hdepth & Hcompat).
      repeat split; auto.
      * rewrite lookup_graft_apart; auto.
        apply apart_sym. unfold path_join. now apply apart_below.
      * unfold overlay_step. rewrite get_put_other; auto.
        intros Heq. apply Hfresh. rewrite <- Heq. now apply in_map.
Qed.

End CopyLoop.

Lemma list_max_In (l : list nat) (x : nat) : In x l -> x <= list_max l.
Proof.
  induction l as [|y l IH]; simpl; [tauto|].
  intros [->|Hin]; [lia|]. specialize (IH Hin). lia.
Qed.

(** The copy of a directory tree onto a place apart from it, with no file
    where a directory has to go and no directory where a file has to go:
    the call completes and the destination becomes the overlay. *)
Lemma copyRecursive_overlay (fuel : nat) :
  forall (src dest : path) (fs : node) (es : list (string * node)),
    lookup src fs = Some (Dir es) ->
    unique_names (Dir es) = true ->
    apart src dest ->
    creatable dest fs = true ->
    compatible (Dir es) (lookup dest fs) = true ->
    depth (Dir es) <= fuel ->
    copyRecursive fuel src dest fs =
    (graft dest (overlay (Dir es) (lookup dest fs)) fs, Ok tt).
Proof.
  induction fuel as [|fuel IH]; intros src dest fs es Hsrc Huniq Hap Hc Hcompat Hdepth.
  - simpl in Hdepth. lia.
  - rewrite copyRecursive_S. unfold bind at 1, readdir, query, readdir_at.
    rewrite Hsrc. unfold bind at 1, mkdir, update.
    rewrite (mkdir_at_creatable _ _ Hc).
    simpl in Huniq. apply andb_true_iff in Huniq. destruct Huniq as [Hnd Hsub].
    apply distinct_NoDup in Hnd. rewrite forallb_forall in Hsub.
    set (des := entries_of (lookup dest fs)).
    rewrite (copy_loop_ok fuel src dest Hap IH es _ des).
    + now rewrite graft_graft, overlay_Dir.
    + now apply lookup_graft_same.
    + assumption.
    + apply Forall_forall. intros e Hin. repeat split.
      * rewrite lookup_graft_apart by (apply apart_sym; unfold path_join; now apply apart_below).
        rewrite (lookup_child _ _ _ _ Hsrc). apply get_of_In; auto.
        now destruct e.
      * now apply Hsub.
      * simpl in Hdepth. apply le_S_n in Hdepth.
        etransitivity; [|exact Hdepth].
        apply list_max_In. now apply (in_map (fun e => depth (snd e))).
      * subst des. destruct (lookup dest fs) as [[data|des']|]; simpl in *.
        -- discriminate.
        -- rewrite forallb_forall in Hcompat. now apply Hcompat.
        -- now destruct (snd e).
Qed.

(** ** The overlay, path by path *)

(** Induction on trees: a property of every entry's node gives the
    property of the directory. *)
Lemma node_ind' (P : node -> Prop)
  (HFile : forall data, P (File data))
  (HDir : forall es, Forall (fun e => P (snd e)) es -> P (Dir es)) :
  forall n : node, P n.
Proof.
  fix IH 1. intros [data|es].
  - apply HFile.
  - apply HDir. induction es as [|e rest IHes]; constructor.
    + apply IH.
    + exact IHes.
Qed.

Lemma fold_overlay_other (es des : list (string * node)) (a : string) :
  ~ In a (map fst es) ->
  Assoc.get a (fold_left overlay_step es des) = Assoc.get a des.
Proof.
  revert des. induction es as [|e rest IH]; intros des Hnotin; simpl; auto.
  simpl in Hnotin. rewrite IH by tauto.
  unfold overlay_step. apply get_put_other. intuition congruence.
Qed.

Lemma fold_overlay_entry (es des : list (string * node)) (a : string) (c : node) :
  NoDup (map fst es) -> In (a, c) es ->
  Assoc.get a (fold_left overlay_step es des) = Some (overlay c (Assoc.get a des)).
Proof.
  revert des. induction es as [|e rest IH]; intros des Hnd Hin; simpl in *; [tauto|].
  inversion Hnd as [|? ? Hfresh Hnd']; subst.
  destruct Hin as [->|Hin].
  - simpl in Hfresh. rewrite fold_overlay_other by assumption.
    unfold overlay_step. simpl. apply get_put_same.
  - rewrite IH by assumption. f_equal. f_equal.
    unfold overlay_step. apply get_put_other.
    intros Heq. apply Hfresh. rewrite <- Heq. now apply (in_map fst) in Hin.
Qed.

(** The node the overlay has under a name: the overlay of the source
    entry of that name, or else what the destination had. *)
Lemma get_overlay (es : list (string * node)) (d : option node) (a : string) :
  NoDup (map fst es) ->
  Assoc.get a (entries_of (Some (overlay (Dir es) d))) =
  match Assoc.get a es with
  | Some c => Some (overlay c (Assoc.get a (entries_of d)))
  | None => Assoc.get a (entries_of d)
  end.
Proof.
  intros Hnd. rewrite overlay_Dir. simpl.
  destruct (Assoc.get a es) as [c|] eqn:E.
  - apply fold_overlay_entry; auto. now apply get_In.
  - apply fold_overlay_other. now apply get_None_names.
Qed.

Lemma lookup_cons_Dir (a : string) (r : path) (es : list (string * node)) :
  lookup (a :: r) (Dir es) =
  match Assoc.get a es with
  | Some c => lookup r c
  | None => None
  end.
Proof. reflexivity. Qed.

Lemma lookup_slot_cons (a : string) (r : path) (d : option node) :
  match d with Some dn => lookup (a :: r) dn | None => None end =
  match Assoc.get a (entries_of d) with Some dn => lookup r dn | None => None end.
Proof. destruct d as [[data|des]|]; reflexivity. Qed.

(** Every file of the source is a file of the overlay, with its bytes. *)
Lemma overlay_has_source_files (s : node) :
  forall (d : option node) (rel : path) (data : string),
    unique_names s = true ->
    lookup rel s = Some (File data) ->
    lookup rel (overlay s d) = Some (File data).
Proof.
  induction s as [data0|es IH] using node_ind'; intros d rel data Huniq Hrel.
  - destruct rel; simpl in *; [assumption|discriminate].
  - destruct rel as [|a rel]; [discriminate|].
    simpl in Huniq. apply andb_true_iff in Huniq. destruct Huniq as [Hnd Hsub].
    apply distinct_NoDup in Hnd. rewrite forallb_forall in Hsub.
    rewrite lookup_cons_Dir in Hrel.
    destruct (Assoc.get a es) as [c|] eqn:E; [|discriminate].
    pose proof (get_overlay es d a Hnd) as Hget. rewrite E in Hget.
    rewrite overlay_Dir in *. simpl in Hget. rewrite lookup_cons_Dir, Hget.
    apply get_In in E. rewrite Forall_forall in IH.
    apply (IH (a, c) E); [apply (Hsub (a, c) E) | assumption].
Qed.

(** Every directory of the source is a directory of the overlay. *)
Lemma overlay_has_source_dirs (s : node) :
  forall (d : option node) (rel : path) (ces : list (string * node)),
    unique_names s = true ->
    lookup rel s = Some (Dir ces) ->
    exists des, lookup rel (overlay s d) = Some (Dir des).
Proof.
  induction s as [data0|es IH] using node_ind'; intros d rel ces Huniq Hrel.
  - destruct rel; simpl in *; discriminate.
  - destruct rel as [|a rel]; [rewrite overlay_Dir; simpl; eauto|].
    simpl in Huniq. apply andb_true_iff in Huniq. destruct Huniq as [Hnd Hsub].
    apply distinct_NoDup in Hnd. rewrite forallb_forall in Hsub.
    rewrite lookup_cons_Dir in Hrel.
    destruct (Assoc.get a es) as [c|] eqn:E; [|discriminate].
    pose proof (get_overlay es d a Hnd) as Hget. rewrite E in Hget.
    rewrite overlay_Dir in *. simpl in Hget. rewrite lookup_cons_Dir, Hget.
    apply get_In in E. rewrite Forall_forall in IH.
    apply (IH (a, c) E) with (ces := ces); [apply (Hsub (a, c) E) | assumption].
Qed.

(** Every file of the overlay is a file of the source, or a file the
    destination already had. *)
Lemma overlay_files_origin (s : node) :
  forall (d : option node) (rel : path) (data : string),
    unique_names s = true ->
    lookup rel (overlay s d) = Some (File data) ->
    lookup rel s = Some (File data) \/
    match d with Some dn => lookup rel dn | None => None end = Some (File data).
Proof.
  induction s as [data0|es IH] using node_ind'; intros d rel data Huniq Hrel.
  - destruct rel; simpl in *; [now left|discriminate].
  - destruct rel as [|a rel]; [rewrite overlay_Dir in Hrel; discriminate|].
    simpl in Huniq. apply andb_true_iff in Huniq. destruct Huniq as [Hnd Hsub].
    apply distinct_NoDup in Hnd. rewrite forallb_forall in Hsub.
    pose proof (get_overlay es d a Hnd) as Hget.
    rewrite overlay_Dir in *. simpl in Hget.
    rewrite lookup_cons_Dir, Hget in Hrel. rewrite lookup_cons_Dir, lookup_slot_cons.
    destruct (Assoc.get a es) as [c|] eqn:E.
    + apply get_In in E. rewrite Forall_forall in IH.
      destruct (IH (a, c) E (Assoc.get a (entries_of d)) rel data (Hsub (a, c) E) Hrel)
        as [Hs|Hd]; [now left | right].
      now destruct (Assoc.get a (entries_of d)).
    + now right.
Qed.

(** A file of the destination stays as it is unless the source has a
    file at the same relative path. *)
Lemma overlay_keeps_other_files (s : node) :
  forall (dn : node) (rel : path) (data : string),
    unique_names s = true ->
    compatible s (Some dn) = true ->
    lookup rel dn = Some (File data) ->
    (forall data', lookup rel s <> Some (File data')) ->
    lookup rel (overlay s (Some dn)) = Some (File data).
Proof.
  induction s as [data0|es IH] using node_ind'; intros dn rel data Huniq Hcompat Hrel Hnot.
  - destruct dn as [old|des]; simpl in Hcompat; [|discriminate].
    destruct rel; simpl in *; [|discriminate]. now destruct (Hnot data0).
  - destruct dn as [old|des]; simpl in Hcompat; [discriminate|].
    destruct rel as [|a rel]; [discriminate|].
    simpl in Huniq. apply andb_true_iff in Huniq. destruct Huniq as [Hnd Hsub].
    apply distinct_NoDup in Hnd. rewrite forallb_forall in Hsub, Hcompat.
    pose proof (get_overlay es (Some (Dir des)) a Hnd) as Hget.
    rewrite overlay_Dir in *. cbn [entries_of] in *. rewrite lookup_cons_Dir, Hget.
    rewrite lookup_cons_Dir in Hrel.
    destruct (Assoc.get a des) as [dc|] eqn:Ed; [|discriminate].
    destruct (Assoc.get a es) as [c|] eqn:E; [|assumption].
    apply get_In in E. rewrite Forall_forall in IH.
    apply (IH (a, c) E); [apply (Hsub (a, c) E) | | assumption |].
    + specialize (Hcompat (a, c) E). simpl in Hcompat. now rewrite Ed in Hcompat.
    + intros data' Hs. apply (Hnot data'). rewrite lookup_cons_Dir.
      apply (get_of_In _ _ _ Hnd) in E. now rewrite E.
Qed.

(** ** What a copy leaves alone, however it ends *)

Lemma mkdir_at_keeps_files (p : path) :
  forall (n n' : node) (q : path) (data : string),
    mkdir_at p n = Ok n' ->
    lookup q n = Some (File data) ->
    lookup q n' = Some (File data).
Proof.
  induction p as [|s p IH]; intros n n' q data Hmk Hq.
  - destruct n; simpl in Hmk; [discriminate|]. now injection Hmk as <-.
  - destruct n as [|es]; simpl in Hmk; [discriminate|].
    destruct (mkdir_at p _) as [c'| |] eqn:Hc in Hmk; simpl in Hmk; try discriminate.
    injection Hmk as <-.
    destruct q as [|t q]; [discriminate|].
    rewrite lookup_cons_Dir in *.
    destruct (string_dec t s) as [->|Hne].
    + rewrite get_put_same.
      destruct (Assoc.get s es) as [c|]; [|discriminate].
      now apply (IH c).
    + now rewrite get_put_other.
Qed.

Lemma write_at_keeps_files (p : path) :
  forall (n n' : node) (q : path) (new data : string),
    write_at p new n = Ok n' ->
    lookup q n = Some (File data) ->
    q <> p ->
    lookup q n' = Some (File data).
Proof.
  induction p as [|s p IH]; intros n n' q new data Hw Hq Hne.
  - destruct n; simpl in Hw; [|discriminate].
    destruct q; [congruence|discriminate].
  - destruct n as [|es]; simpl in Hw; [discriminate|].
    destruct q as [|t q]; [discriminate|].
    rewrite lookup_cons_Dir in Hq.
    destruct (string_dec t s) as [->|Hts].
    + destruct (Assoc.get s es) as [c|] eqn:E; [|discriminate].
      destruct (write_at p new c) as [c'| |] eqn:Hc; simpl in Hw; try discriminate.
      injection Hw as <-. rewrite lookup_cons_Dir, get_put_same.
      apply (IH c c' q new data); auto. congruence.
    + destruct (Assoc.get s es) as [c|] eqn:E.
      * destruct (write_at p new c) as [c'| |] eqn:Hc; simpl in Hw; try discriminate.
        injection Hw as <-. now rewrite lookup_cons_Dir, get_put_other.
      * destruct p; [|discriminate]. injection Hw as <-.
        now rewrite lookup_cons_Dir, get_put_other.
Qed.

(** Taking a file away shows at its own path only. *)
Lemma unlink_at_glance (p : path) :
  forall (n : node) (q : path),
    q <> p -> glance (lookup q (unlink_at p n)) = glance (lookup q n).
Proof.
  induction p as [|s p IH]; intros n q Hne; [reflexivity|].
  destruct n as [data|es]; [reflexivity|]. simpl.
  destruct (Assoc.get s es) as [c|] eqn:E; [|reflexivity].
  destruct p as [|u p].
  - destruct c as [data|ces]; [|reflexivity].
    destruct q as [|t q]; [reflexivity|].
    rewrite !lookup_cons_Dir.
    destruct (string_dec t s) as [->|Hts].
    + rewrite get_remove_same, E. destruct q; [congruence|reflexivity].
    + now rewrite get_remove_other.
  - destruct q as [|t q]; [reflexivity|].
    rewrite !lookup_cons_Dir.
    destruct (string_dec t s) as [->|Hts].
    + rewrite get_put_same, E. apply IH. congruence.
    + now rewrite get_put_other.
Qed.

Lemma unlink_at_apart (p : path) :
  forall (n : node) (q : path), apart p q -> lookup q (unlink_at p n) = lookup q n.
Proof.
  induction p as [|s p IH]; intros n q Hap; [reflexivity|].
  destruct n as [data|es]; [reflexivity|]. simpl.
  destruct (Assoc.get s es) as [c|] eqn:E; [|reflexivity].
  destruct q as [|t q]; [exfalso; apply (proj2 Hap), is_prefix_nil|].
  destruct p as [|u p].
  - destruct c as [data|ces]; [|reflexivity].
    rewrite !lookup_cons_Dir.
    destruct (string_dec t s) as [->|Hts].
    + exfalso. apply (proj1 Hap). apply is_prefix_cons. split; auto. apply is_prefix_nil.
    + now rewrite get_remove_other.
  - rewrite !lookup_cons_Dir.
    destruct (string_dec t s) as [->|Hts].
    + rewrite get_put_same, E. apply IH. now apply apart_cons in Hap.
    + now rewrite get_put_other.
Qed.

(** A file that is taken away is gone. *)
Lemma unlink_at_gone (p : path) :
  forall (n : node) (data : string),
    p <> [] -> lookup p n = Some (File data) -> lookup p (unlink_at p n) = None.
Proof.
  induction p as [|s p IH]; intros n data Hne Hp; [congruence|].
  destruct n as [old|es]; [discriminate|].
  rewrite lookup_cons_Dir in Hp. simpl.
  destruct (Assoc.get s es) as [c|] eqn:E; [|discriminate].
  destruct p as [|u p].
  - simpl in Hp. injection Hp as ->.
    cbn [lookup]. now rewrite get_remove_same.
  - cbn [lookup]. rewrite get_put_same. change (lookup (u :: p) (unlink_at (u :: p) c) = None). apply (IH c data); [discriminate | assumption].
Qed.

Lemma copyFile_same_apart (src dest : path) (fs fs' : node) (out : result unit) :
  copyFile src dest fs = (fs', out) -> same_apart dest fs fs'.
Proof.
  unfold copyFile, copy_at, update. intros H q Hap.
  destruct (lookup src fs) as [[data|es]|]; try (injection H as <- _; reflexivity).
  - destruct (write_at dest data fs) as [n'| |] eqn:W; injection H as <- _; auto.
    rewrite (write_at_Ok _ _ _ _ W). now apply lookup_graft_apart.
  - destruct (write_at dest EmptyString fs) as [n'| |] eqn:W; injection H as <- _; auto.
    rewrite (unlink_at_apart _ _ _ Hap), (write_at_Ok _ _ _ _ W).
    now apply lookup_graft_apart.
Qed.

Lemma mkdir_same_apart (dest : path) (fs fs' : node) (out : result unit) :
  mkdir dest fs = (fs', out) -> same_apart dest fs fs'.
Proof.
  unfold mkdir, update. intros H q Hap.
  destruct (mkdir_at dest fs) as [n'| |] eqn:M; injection H as <- _; auto.
  apply mkdir_at_Ok in M. destruct M as [_ ->]. now apply lookup_graft_apart.
Qed.

Lemma same_apart_child (dest : path) (a : string) (fs fs' : node) :
  same_apart (path_join dest a) fs fs' -> same_apart dest fs fs'.
Proof.
  intros H q Hap. apply H. unfold path_join. now apply apart_below.
Qed.

Lemma same_apart_trans (dest : path) (fs1 fs2 fs3 : node) :
  same_apart dest fs1 fs2 -> same_apart dest fs2 fs3 -> same_apart dest fs1 fs3.
Proof. intros H12 H23 q Hap. rewrite H23, H12; auto. Qed.

(** Whatever the outcome of a copy, nothing apart from its destination
    has changed. *)
Lemma copyRecursive_same_apart (fuel : nat) :
  forall (src dest : path) (fs fs' : node) (out : result unit),
    copyRecursive fuel src dest fs = (fs', out) -> same_apart dest fs fs'.
Proof.
  induction fuel as [|fuel IH]; intros src dest fs fs' out H.
  - injection H as <- _. intros q _. reflexivity.
  - rewrite copyRecursive_S in H. unfold bind at 1, readdir, query in H.
    destruct (readdir_at src fs) as [entries| |];
      try (injection H as <- _; intros q _; reflexivity).
    unfold bind at 1 in H.
    destruct (mkdir dest fs) as [fs1 [[]| |]] eqn:M;
      try (injection H as <- _; eapply mkdir_same_apart; eauto).
    apply mkdir_same_apart in M.
    apply (same_apart_trans _ _ _ _ M). clear M.
    revert fs1 H. induction entries as [|entry rest IHl]; intros fs1 H.
    + injection H as <- _. intros q _. reflexivity.
    + simpl in H. unfold bind at 1 in H.
      destruct (copy_entry (copyRecursive fuel) src dest entry fs1) as [fs2 out2] eqn:Hstep.
      assert (same_apart dest fs1 fs2) as Hs.
      { unfold copy_entry in Hstep. destruct (isDirectory entry).
        - apply IH in Hstep. eapply same_apart_child; eauto.
        - apply copyFile_same_apart in Hstep. eapply same_apart_child; eauto. }
      destruct out2 as [[]| |]; try (injection H as <- _; assumption).
      apply (same_apart_trans _ _ _ _ Hs). now apply IHl.
Qed.

(** ** The copies inside the loop

    A file the loop copies is still a file when its turn comes, and a
    name listed twice has a directory at the destination by then: the
    copy inside the loop never opens a destination that it then has to
    remove.  So the loop is the loop with the plain copy. *)

(** A write shows at its own path only. *)
Lemma write_at_glance (p : path) :
  forall (n n' : node) (q : path) (data : string),
    write_at p data n = Ok n' ->
    q <> p ->
    glance (lookup q n') = glance (lookup q n).
Proof.
  induction p as [|s p IH]; intros n n' q data Hw Hne.
  - destruct n; simpl in Hw; [|discriminate]. injection Hw as <-.
    destruct q; [congruence | reflexivity].
  - destruct n as [|es]; simpl in Hw; [discriminate|].
    destruct q as [|t q]; [destruct (Assoc.get s es) as [c|];
                           [destruct (write_at p data c); simpl in Hw; try discriminate
                           | destruct p; try discriminate];
                           injection Hw as <-; reflexivity|].
    destruct (string_dec t s) as [->|Hts].
    + destruct (Assoc.get s es) as [c|] eqn:E.
      * destruct (write_at p data c) as [c'| |] eqn:Hc; simpl in Hw; try discriminate.
        injection Hw as <-. rewrite !lookup_cons_Dir, get_put_same, E.
        apply (IH c c' q data Hc). congruence.
      * destruct p; [|discriminate]. injection Hw as <-.
        rewrite !lookup_cons_Dir, get_put_same, E.
        destruct q; [congruence | reflexivity].
    + assert (forall c', lookup (t :: q) (Dir (Assoc.put s c' es)) = lookup (t :: q) (Dir es))
        as Hother by (intros c'; now rewrite !lookup_cons_Dir, get_put_other).
      destruct (Assoc.get s es) as [c|] eqn:E.
      * destruct (write_at p data c) as [c'| |]; simpl in Hw; try discriminate.
        injection Hw as <-. now rewrite Hother.
      * destruct p; [|discriminate]. injection Hw as <-. now rewrite Hother.
Qed.

(** What was written is what is read. *)
Lemma write_at_read (p : path) :
  forall (n n' : node) (data : string),
    write_at p data n = Ok n' -> read_at p n' = Ok data.
Proof.
  unfold read_at. induction p as [|s p IH]; intros n n' data Hw.
  - destruct n; simpl in Hw; [|discriminate]. now injection Hw as <-.
  - destruct n as [|es]; simpl in Hw; [discriminate|].
    destruct (Assoc.get s es) as [c|] eqn:E.
    + destruct (write_at p data c) as [c'| |] eqn:Hc; simpl in Hw; try discriminate.
      injection Hw as <-. rewrite lookup_cons_Dir, get_put_same. now apply (IH c).
    + destruct p; [|discriminate]. injection Hw as <-.
      now rewrite lookup_cons_Dir, get_put_same.
Qed.

Lemma write_at_directory (p : path) (data : string) :
  forall (n : node) (es : list (string * node)),
    lookup p n = Some (Dir es) -> write_at p data n = Threw EISDIR.
Proof.
  induction p as [|s p IH]; intros n es Hp; simpl in *.
  - now injection Hp as ->.
  - destruct n as [|es']; [discriminate|].
    destruct (Assoc.get s es') as [c|]; [|discriminate].
    now rewrite (IH c es Hp).
Qed.

Lemma mkdir_at_keeps_dirs (p : path) :
  forall (n n' : node) (q : path),
    mkdir_at p n = Ok n' ->
    is_directory (lookup q n) = true ->
    is_directory (lookup q n') = true.
Proof.
  induction p as [|s p IH]; intros n n' q Hmk Hq.
  - destruct n; simpl in Hmk; [discriminate|]. now injection Hmk as <-.
  - destruct n as [|es]; simpl in Hmk; [discriminate|].
    destruct (mkdir_at p _) as [c'| |] eqn:Hc in Hmk; simpl in Hmk; try discriminate.
    injection Hmk as <-.
    destruct q as [|t q]; [reflexivity|].
    rewrite lookup_cons_Dir in *.
    destruct (string_dec t s) as [->|Hne].
    + rewrite get_put_same.
      destruct (Assoc.get s es) as [c|]; [|discriminate].
      now apply (IH c).
    + now rewrite get_put_other.
Qed.

Lemma keeps_kinds_refl (fs : node) : keeps_kinds fs fs.
Proof. intros q. tauto. Qed.

Lemma keeps_kinds_trans (fs1 fs2 fs3 : node) :
  keeps_kinds fs1 fs2 -> keeps_kinds fs2 fs3 -> keeps_kinds fs1 fs3.
Proof. intros H12 H23 q. destruct (H12 q), (H23 q). tauto. Qed.

Lemma is_file_glance (o : option node) :
  is_file o = match glance o with Some (Some _) => true | _ => false end.
Proof. now destruct o as [[|]|]. Qed.

Lemma is_directory_glance (o : option node) :
  is_directory o = match glance o with Some None => true | _ => false end.
Proof. now destruct o as [[|]|]. Qed.

Lemma mkdir_keeps_kinds (dest : path) (fs fs' : node) (out : result unit) :
  mkdir dest fs = (fs', out) -> keeps_kinds fs fs'.
Proof.
  unfold mkdir, update. intros H.
  destruct (mkdir_at dest fs) as [n'| |] eqn:M; injection H as <- _;
    try apply keeps_kinds_refl.
  intros q. split.
  - unfold is_file. destruct (lookup q fs) as [[data|]|] eqn:E; try discriminate.
    intros _. now rewrite (mkdir_at_keeps_files _ _ _ _ _ M E).
  - now apply (mkdir_at_keeps_dirs dest fs n' q M).
Qed.

Lemma copy_plain_keeps_kinds (src dest : path) (fs fs' : node) (out : result unit) :
  copy_plain src dest fs = (fs', out) -> keeps_kinds fs fs'.
Proof.
  unfold copy_plain, update. intros H.
  destruct (read_at src fs) as [data| |]; simpl in H;
    try (injection H as <- _; apply keeps_kinds_refl).
  destruct (write_at dest data fs) as [n'| |] eqn:W; injection H as <- _;
    try apply keeps_kinds_refl.
  intros q. destruct (list_eq_dec string_dec q dest) as [->|Hne].
  - split.
    + intros _. pose proof (write_at_read _ _ _ _ W) as R. unfold read_at in R.
      now destruct (lookup dest n') as [[|]|].
    + intros Hd. destruct (lookup dest fs) as [[|es]|] eqn:E; try discriminate.
      rewrite (write_at_directory _ data _ _ E) in W. discriminate.
  - rewrite !is_file_glance, !is_directory_glance.
    rewrite (write_at_glance _ _ _ _ _ W Hne). tauto.
Qed.

Lemma copy_plain_same_apart (src dest : path) (fs fs' : node) (out : result unit) :
  copy_plain src dest fs = (fs', out) -> same_apart dest fs fs'.
Proof.
  unfold copy_plain, update. intros H q Hap.
  destruct (read_at src fs) as [data| |]; simpl in H; try (injection H as <- _; reflexivity).
  destruct (write_at dest data fs) as [n'| |] eqn:W; injection H as <- _; auto.
  rewrite (write_at_Ok _ _ _ _ W). now apply lookup_graft_apart.
Qed.

(** With a file for a source, or a directory in the destination's place,
    [copyFile] is the plain copy. *)
Lemma copyFile_plain (src dest : path) (fs : node) :
  is_file (lookup src fs) = true \/ is_directory (lookup dest fs) = true ->
  copyFile src dest fs = copy_plain src dest fs.
Proof.
  unfold copyFile, copy_at, copy_plain, update, read_at.
  destruct (lookup src fs) as [[data|es]|]; simpl; auto.
  intros [H|H]; [discriminate|].
  destruct (lookup dest fs) as [[|des]|] eqn:E; try discriminate.
  now rewrite (write_at_directory _ _ _ _ E).
Qed.

Lemma ready_keeps (src dest : path) (fs fs' : node) (e : Dirent) :
  keeps_kinds fs fs' -> ready src dest fs e -> ready src dest fs' e.
Proof.
  intros Hk [H|[H|H]].
  - now left.
  - right. left. now apply (proj1 (Hk _)).
  - right. right. now apply (proj2 (Hk _)).
Qed.

Lemma awaited_keeps (src dest : path) (l : list Dirent) (fs fs' : node) :
  keeps_kinds fs fs' -> awaited src dest l fs -> awaited src dest l fs'.
Proof.
  intros Hk Ha l1 e l2 Heq.
  destruct (Ha l1 e l2 Heq) as [H|H]; [left; eapply ready_keeps; eauto | now right].
Qed.

Lemma awaited_head (src dest : path) (e : Dirent) (l : list Dirent) (fs : node) :
  awaited src dest (e :: l) fs -> ready src dest fs e.
Proof.
  intros Ha. destruct (Ha [] e l eq_refl) as [H|[e' [[] _]]]. assumption.
Qed.

Lemma awaited_tail (src dest : path) (e : Dirent) (l : list Dirent) (fs fs' : node) :
  awaited src dest (e :: l) fs ->
  keeps_kinds fs fs' ->
  (isDirectory e = true -> is_directory (lookup (path_join dest (name e)) fs') = true) ->
  awaited src dest l fs'.
Proof.
  intros Ha Hk Hdir l1 x l2 Heq.
  destruct (Ha (e :: l1) x l2) as [H|[e' [[<-|Hin] [He' Hname]]]].
  - now rewrite Heq.
  - left. eapply ready_keeps; eauto.
  - left. right. right. rewrite <- Hname. now apply Hdir.
  - right. exists e'. auto.
Qed.

Lemma get_app {V : Type} (key : string) (l1 l2 : list (string * V)) :
  Assoc.get key (l1 ++ l2) =
  match Assoc.get key l1 with
  | Some v => Some v
  | None => Assoc.get key l2
  end.
Proof.
  induction l1 as [|[k v] l1 IH]; simpl; auto.
  destruct (String.eqb k key); auto.
Qed.

(** What [readdir] lists is awaited: a file listed under a name is what
    the name leads to, unless a directory of that name is listed before
    it. *)
Lemma readdir_awaited (src dest : path) (fs : node) (entries : list Dirent) :
  readdir_at src fs = Ok entries -> awaited src dest entries fs.
Proof.
  unfold readdir_at. destruct (lookup src fs) as [[data|es]|] eqn:Hsrc; try discriminate.
  intros [= <-] l1 e l2 Heq.
  apply map_eq_app in Heq. destruct Heq as (es1 & rest & -> & <- & Hrest).
  apply map_eq_cons in Hrest. destruct Hrest as (x & es2 & -> & <- & _).
  destruct x as [a [data|ces]]; [|left; now left].
  unfold ready. cbn [dirent_of name fst snd].
  rewrite (lookup_child _ a _ _ Hsrc), get_app.
  destruct (Assoc.get a es1) as [[d|ces]|] eqn:E1.
  - left. right. now left.
  - right. exists (dirent_of (a, Dir ces)).
    split; [apply in_map; eapply get_In; eauto | split; reflexivity].
  - left. right. left. simpl. now rewrite String.eqb_refl.
Qed.

Section PlainLoop.
Variable fuel : nat.
Variables src dest : path.

(** What the recursive calls are known to do. *)
Hypothesis IHkinds : forall s d fs, keeps_kinds fs (fst (copyRecursive fuel s d fs)).
Hypothesis IHdir : forall s d fs,
  snd (copyRecursive fuel s d fs) = Ok tt ->
  is_directory (lookup d (fst (copyRecursive fuel s d fs))) = true.

Lemma copy_entry_plain_kinds (e : Dirent) (fs : node) :
  keeps_kinds fs (fst (copy_entry_plain (copyRecursive fuel) src dest e fs)).
Proof.
  unfold copy_entry_plain. destruct (isDirectory e); [apply IHkinds|].
  destruct (copy_plain _ _ fs) as [fs' out] eqn:H.
  eapply copy_plain_keeps_kinds; eauto.
Qed.

Lemma copy_entry_plain_eq (e : Dirent) (fs : node) :
  ready src dest fs e ->
  copy_entry (copyRecursive fuel) src dest e fs =
  copy_entry_plain (copyRecursive fuel) src dest e fs.
Proof.
  unfold copy_entry, copy_entry_plain. intros [H|H]; [now rewrite H|].
  destruct (isDirectory e); [reflexivity|]. now apply copyFile_plain.
Qed.

Lemma for_of_plain (l : list Dirent) :
  forall fs,
    awaited src dest l fs ->
    for_of l (copy_entry (copyRecursive fuel) src dest) fs =
    for_of l (copy_entry_plain (copyRecursive fuel) src dest) fs.
Proof.
  induction l as [|e l IH]; intros fs Ha; [reflexivity|].
  cbn [for_of]. unfold bind.
  rewrite (copy_entry_plain_eq e fs (awaited_head _ _ _ _ _ Ha)).
  pose proof (copy_entry_plain_kinds e fs) as Hk.
  assert (isDirectory e = true ->
          snd (copy_entry_plain (copyRecursive fuel) src dest e fs) = Ok tt ->
          is_directory (lookup (path_join dest (name e))
                          (fst (copy_entry_plain (copyRecursive fuel) src dest e fs))) = true)
    as Hd.
  { unfold copy_entry_plain. intros ->. apply IHdir. }
  destruct (copy_entry_plain (copyRecursive fuel) src dest e fs) as [fs' [[]| |]]; auto.
  cbn [fst snd] in *. apply IH. eapply awaited_tail; eauto.
Qed.

Lemma for_of_plain_kinds (l : list Dirent) :
  forall fs,
    keeps_kinds fs (fst (for_of l (copy_entry_plain (copyRecursive fuel) src dest) fs)).
Proof.
  induction l as [|e l IH]; intros fs; [apply keeps_kinds_refl|].
  cbn [for_of]. unfold bind. pose proof (copy_entry_plain_kinds e fs) as Hk.
  destruct (copy_entry_plain (copyRecursive fuel) src dest e fs) as [fs' [[]| |]];
    cbn [fst] in *; auto.
  eapply keeps_kinds_trans; eauto.
Qed.

End PlainLoop.

Lemma mkdir_makes_directory (dest : path) (fs fs' : node) :
  mkdir dest fs = (fs', Ok tt) -> is_directory (lookup dest fs') = true.
Proof.
  unfold mkdir, update. intros H.
  destruct (mkdir_at dest fs) as [n'| |] eqn:M; try discriminate.
  injection H as <-. apply mkdir_at_Ok in M. destruct M as [Hc ->].
  now rewrite lookup_graft_same.
Qed.

(** Whatever the outcome of a copy, nothing was removed and nothing
    changed its kind; and after a copy that completed, the destination is
    a directory. *)
Lemma copyRecursive_kinds (fuel : nat) :
  forall (src dest : path) (fs : node),
    keeps_kinds fs (fst (copyRecursive fuel src dest fs)) /\
    (snd (copyRecursive fuel src dest fs) = Ok tt ->
     is_directory (lookup dest (fst (copyRecursive fuel src dest fs))) = true).
Proof.
  induction fuel as [|fuel IH]; intros src dest fs.
  - split; [apply keeps_kinds_refl | discriminate].
  - destruct (copyRecursive (S fuel) src dest fs) as [fs' out] eqn:Hrun. cbn [fst snd].
    rewrite copyRecursive_S in Hrun. unfold bind at 1, readdir, query in Hrun.
    destruct (readdir_at src fs) as [entries| |] eqn:R;
      try (injection Hrun as <- <-; split; [apply keeps_kinds_refl | discriminate]).
    unfold bind at 1 in Hrun.
    destruct (mkdir dest fs) as [fs1 out1] eqn:M.
    pose proof (mkdir_keeps_kinds _ _ _ _ M) as Hk.
    destruct out1 as [[]| |];
      try (injection Hrun as <- <-; split; [exact Hk | discriminate]).
    rewrite (for_of_plain fuel src dest
               (fun s d f => proj1 (IH s d f)) (fun s d f => proj2 (IH s d f)))
      in Hrun
      by (apply (awaited_keeps _ _ _ fs); [exact Hk | now apply readdir_awaited]).
    pose proof (for_of_plain_kinds fuel src dest
                  (fun s d f => proj1 (IH s d f)) entries fs1) as Hl.
    rewrite Hrun in Hl. cbn [fst] in Hl.
    split.
    + eapply keeps_kinds_trans; eauto.
    + intros _. apply (proj2 (Hl dest)). eapply mkdir_makes_directory; eauto.
Qed.

(** The copier, with the plain copy in its loop. *)
Lemma copyRecursive_S_plain (fuel : nat) (src dest : path) (fs : node) :
  copyRecursive (S fuel) src dest fs =
  (entries <- readdir src ;;
   mkdir dest ;;;
   for_of entries (copy_entry_plain (copyRecursive fuel) src dest))%js fs.
Proof.
  rewrite copyRecursive_S. unfold bind, readdir, query.
  destruct (readdir_at src fs) as [entries| |] eqn:R; auto.
  destruct (mkdir dest fs) as [fs1 [[]| |]] eqn:M; auto.
  apply for_of_plain.
  - intros s d f. apply copyRecursive_kinds.
  - intros s d f. apply copyRecursive_kinds.
  - apply (awaited_keeps _ _ _ fs); [eapply mkdir_keeps_kinds; eauto | now apply readdir_awaited].
Qed.

Lemma keeps_files_trans (src dest : path) (fs0 fs1 fs2 fs3 : node) :
  keeps_files src dest fs0 fs1 fs2 ->
  keeps_files src dest fs0 fs2 fs3 ->
  keeps_files src dest fs0 fs1 fs3.
Proof.
  intros H12 H23 q data Hq.
  destruct (H12 q data Hq) as [H2|Hw]; [|now right].
  now apply H23.
Qed.

Lemma keeps_files_refl (src dest : path) (fs0 fs : node) : keeps_files src dest fs0 fs fs.
Proof. intros q data Hq. now left. Qed.

(** Whatever the outcome of a copy to a place apart from the source, the
    files it has touched are at destination paths of source files. *)
Lemma copyRecursive_keeps_files (fuel : nat) :
  forall (src dest : path) (fs fs' : node) (out : result unit),
    apart src dest ->
    copyRecursive fuel src dest fs = (fs', out) ->
    keeps_files src dest fs fs fs'.
Proof.
  induction fuel as [|fuel IH]; intros src dest fs fs' out Hap H.
  - injection H as <- _. apply keeps_files_refl.
  - rewrite copyRecursive_S_plain in H. unfold bind at 1, readdir, query in H.
    destruct (readdir_at src fs) as [entries| |];
      try (injection H as <- _; apply keeps_files_refl).
    unfold bind at 1 in H.
    destruct (mkdir dest fs) as [fs1 out1] eqn:M.
    assert (same_apart dest fs fs1) as Hsame by (eapply mkdir_same_apart; eauto).
    assert (keeps_files src dest fs fs fs1) as Hkeep.
    { unfold mkdir, update in M.
      destruct (mkdir_at dest fs) as [n'| |] eqn:Mk; injection M as <- _;
        try apply keeps_files_refl.
      intros q data Hq. left. eapply mkdir_at_keeps_files; eauto. }
    destruct out1 as [[]| |]; try (injection H as <- _; assumption).
    apply (keeps_files_trans _ _ _ _ _ _ Hkeep). clear Hkeep M.
    revert fs1 Hsame H. induction entries as [|entry rest IHl]; intros fs1 Hsame H.
    + injection H as <- _. apply keeps_files_refl.
    + simpl in H. unfold bind at 1 in H.
      destruct (copy_entry_plain (copyRecursive fuel) src dest entry fs1) as [fs2 out2] eqn:Hstep.
      assert (same_apart dest fs1 fs2 /\ keeps_files src dest fs fs1 fs2) as [Hs Hk].
      { unfold copy_entry_plain in Hstep. destruct (isDirectory entry).
        - split.
          + apply copyRecursive_same_apart in Hstep. eapply same_apart_child; eauto.
          + apply IH in Hstep; [|now apply apart_join].
            intros q data Hq. destruct (Hstep q data Hq) as [Hq'|[rel [-> Hrel]]]; [now left|].
            right. exists (name entry :: rel). unfold path_join in *.
            rewrite <- !app_assoc in *. simpl in *. split; auto.
            rewrite <- Hrel. f_equal. symmetry. apply Hsame.
            apply apart_sym. now apply apart_below.
        - split.
          + apply copy_plain_same_apart in Hstep. eapply same_apart_child; eauto.
          + unfold copy_plain, update, read_at in Hstep.
            destruct (lookup (path_join src (name entry)) fs1) as [[data0|?]|] eqn:Hsrc;
              simpl in Hstep; try (injection Hstep as <- _; apply keeps_files_refl).
            destruct (write_at _ data0 fs1) as [n'| |] eqn:W; injection Hstep as <- _;
              try apply keeps_files_refl.
            intros q data Hq.
            destruct (list_eq_dec string_dec q (path_join dest (name entry))) as [->|Hne].
            * right. exists [name entry]. split; auto.
              unfold path_join in Hsrc. rewrite <- Hsame, Hsrc; auto.
              apply apart_sym. now apply apart_below.
            * left. eapply write_at_keeps_files; eauto. }
      destruct out2 as [[]| |]; try (injection H as <- _; assumption).
      apply (keeps_files_trans _ _ _ _ _ _ Hk). apply IHl; auto.
      eapply same_apart_trans; eauto.
Qed.

(** ** The copy ends *)

Lemma mkdir_at_ends (p : path) (n : node) : mkdir_at p n <> OutOfFuel.
Proof.
  revert n. induction p as [|s p IH]; intros n; destruct n as [data|es]; simpl;
    try discriminate.
  destruct (Assoc.get s es) as [c|].
  - specialize (IH c). now destruct (mkdir_at p c).
  - specialize (IH (Dir [])). now destruct (mkdir_at p (Dir [])).
Qed.

Lemma write_at_ends (p : path) (data : string) (n : node) : write_at p data n <> OutOfFuel.
Proof.
  revert n. induction p as [|s p IH]; intros n; destruct n as [old|es]; simpl;
    try discriminate.
  destruct (Assoc.get s es) as [c|].
  - specialize (IH c). now destruct (write_at p data c).
  - destruct p; discriminate.
Qed.

Lemma copyFile_ends (src dest : path) (fs : node) : snd (copyFile src dest fs) <> OutOfFuel.
Proof.
  unfold copyFile, copy_at, update.
  destruct (lookup src fs) as [[data|es]|]; simpl; try discriminate.
  - pose proof (write_at_ends dest data fs) as H.
    now destruct (write_at dest data fs).
  - pose proof (write_at_ends dest EmptyString fs) as H.
    now destruct (write_at dest EmptyString fs).
Qed.

(** With a budget above the depth of the tree at the source, a copy to a
    place apart from the source completes or throws: the budget is not
    what ends it. *)
Lemma copyRecursive_ends (fuel : nat) :
  forall (src dest : path) (fs : node),
    apart src dest ->
    depth_at src fs < fuel ->
    snd (copyRecursive fuel src dest fs) <> OutOfFuel.
Proof.
  induction fuel as [|fuel IH]; intros src dest fs Hap Hdepth; [lia|].
  rewrite copyRecursive_S. unfold bind at 1, readdir, query, readdir_at.
  unfold depth_at in Hdepth.
  destruct (lookup src fs) as [[data|es]|] eqn:Hsrc; simpl; try discriminate.
  unfold bind at 1.
  destruct (mkdir dest fs) as [fs1 out1] eqn:M.
  assert (same_apart dest fs fs1) as Hsame by (eapply mkdir_same_apart; eauto).
  unfold mkdir, update in M. pose proof (mkdir_at_ends dest fs) as Hmk.
  destruct (mkdir_at dest fs) as [n'| |]; injection M as <- <-;
    simpl; try discriminate; try congruence.
  clear Hmk. simpl in Hdepth. apply PeanoNat.lt_S_n in Hdepth.
  assert (forall l fs1,
             incl l es -> same_apart dest fs fs1 ->
             snd (for_of (map dirent_of l) (copy_entry (copyRecursive fuel) src dest) fs1)
             <> OutOfFuel) as Hloop.
  { induction l as [|[a c] l IHl]; intros fs2 Hincl Hs; simpl; [discriminate|].
    unfold bind at 1.
    destruct (copy_entry (copyRecursive fuel) src dest (dirent_of (a, c)) fs2)
      as [fs3 out3] eqn:Hstep.
    assert (In (a, c) es) as Hin by (apply Hincl; now left).
    assert (out3 <> OutOfFuel /\ same_apart dest fs2 fs3) as [Hout Hs3].
    { unfold copy_entry, dirent_of in Hstep. cbn [name isDirectory fst snd] in Hstep.
      destruct (is_dir c) eqn:Hc.
      - split.
        + replace out3 with (snd (copyRecursive fuel (path_join src a) (path_join dest a) fs2))
            by now rewrite Hstep.
          apply IH; [now apply apart_join|].
          unfold depth_at.
          rewrite Hs by (apply apart_sym; unfold path_join; now apply apart_below).
          rewrite (lookup_child _ _ _ _ Hsrc).
          destruct (Assoc.get a es) as [c'|] eqn:E; [|lia].
          apply get_In in E.
          apply Nat.le_lt_trans with (m := list_max (map (fun e => depth (snd e)) es)); auto.
          apply list_max_In. now apply (in_map (fun e => depth (snd e)) _ (a, c')).
        + apply copyRecursive_same_apart in Hstep. eapply same_apart_child; eauto.
      - split.
        + replace out3 with (snd (copyFile (path_join src a) (path_join dest a) fs2))
            by now rewrite Hstep.
          apply copyFile_ends.
        + apply copyFile_same_apart in Hstep. eapply same_apart_child; eauto. }
    destruct out3 as [[]| |]; simpl; try discriminate; try congruence.
    apply IHl; [intros x Hx; apply Hincl; now right|].
    eapply same_apart_trans; eauto. }
  apply Hloop; [apply incl_refl | assumption].
Qed.

(** ** The recursive directory copier: main results *)

(** C2, as amended.  For a source directory tree [T] that exists (each of
    its directories naming its entries once) and a destination apart from
    it, with no file where the copy needs a directory and no directory
    where it needs a file, the copier completes within a budget of the
    depth of [T]; afterwards every relative file path of [T] is a file
    under the destination with the source file's bytes, every directory of
    [T] is a directory under the destination, and the files under the
    destination are exactly those of [T], with the bytes of [T], together
    with those the destination had before at paths where [T] has no file,
    with the bytes they had: the two sets of relative file paths are equal
    when the destination had no files. *)
Theorem copyRecursive_copies_tree (fuel : nat) (src dest : path) (fs : node)
  (es : list (string * node)) :
  lookup src fs = Some (Dir es) ->
  unique_names (Dir es) = true ->
  apartb src dest = true ->
  creatable dest fs = true ->
  compatible (Dir es) (lookup dest fs) = true ->
  depth (Dir es) <= fuel ->
  exists fs',
    copyRecursive fuel src dest fs = (fs', Ok tt) /\
    (forall rel data,
        lookup rel (Dir es) = Some (File data) ->
        lookup (dest ++ rel) fs' = Some (File data)) /\
    (forall rel ces,
        lookup rel (Dir es) = Some (Dir ces) ->
        exists des, lookup (dest ++ rel) fs' = Some (Dir des)) /\
    (forall rel data,
        lookup (dest ++ rel) fs' = Some (File data) <->
        lookup rel (Dir es) = Some (File data) \/
        (is_file (lookup rel (Dir es)) = false /\
         lookup (dest ++ rel) fs = Some (File data))) /\
    ((forall rel, is_file (lookup (dest ++ rel) fs) = false) ->
     forall rel,
       is_file (lookup (dest ++ rel) fs') = is_file (lookup rel (Dir es))).
Proof.
  intros Hsrc Huniq Hap Hc Hcompat Hdepth. apply apartb_spec in Hap.
  exists (graft dest (overlay (Dir es) (lookup dest fs)) fs).
  split; [apply copyRecursive_overlay; assumption|].
  assert (forall rel,
             lookup (dest ++ rel) (graft dest (overlay (Dir es) (lookup dest fs)) fs) =
             lookup rel (overlay (Dir es) (lookup dest fs))) as Hnew.
  { intros rel. now rewrite lookup_app, lookup_graft_same. }
  assert (forall rel data,
             lookup (dest ++ rel) (graft dest (overlay (Dir es) (lookup dest fs)) fs)
             = Some (File data) ->
             lookup rel (Dir es) = Some (File data) \/
             lookup (dest ++ rel) fs = Some (File data)) as Horigin.
  { intros rel data. rewrite Hnew. intros H.
    apply overlay_files_origin in H; auto. now rewrite lookup_app. }
  assert (forall rel data,
             lookup rel (Dir es) = Some (File data) ->
             lookup (dest ++ rel) (graft dest (overlay (Dir es) (lookup dest fs)) fs)
             = Some (File data)) as Hcopied.
  { intros rel data H. rewrite Hnew. now apply overlay_has_source_files. }
  split; [exact Hcopied|].
  split; [intros rel ces H; rewrite Hnew; eapply overlay_has_source_dirs; eauto|].
  split; [|].
  - intros rel data. split.
    + intros H. destruct (lookup rel (Dir es)) as [[d|ces]|] eqn:E.
      * left. rewrite (Hcopied _ _ E) in H. congruence.
      * right. split; [reflexivity|].
        destruct (Horigin _ _ H) as [H'|H']; [congruence | exact H'].
      * right. split; [reflexivity|].
        destruct (Horigin _ _ H) as [H'|H']; [congruence | exact H'].
    + intros [H|[Hnot Hold]]; [now apply Hcopied|].
      destruct (copyRecursive_keeps_files fuel src dest fs _ _ Hap
                  (copyRecursive_overlay fuel _ _ _ es Hsrc Huniq Hap Hc Hcompat Hdepth)
                  _ _ Hold) as [Hkept|[rel' [Heq Hfile]]]; [exact Hkept|].
      apply app_inv_head in Heq. subst rel'.
      rewrite lookup_app, Hsrc in Hfile. congruence.
  - intros Hempty rel.
    destruct (lookup rel (Dir es)) as [[data|ces]|] eqn:E; simpl.
    + rewrite Hnew. now rewrite (overlay_has_source_files _ _ _ _ Huniq E).
    + rewrite Hnew. destruct (overlay_has_source_dirs _ (lookup dest fs) _ _ Huniq E) as [des ->].
      reflexivity.
    + destruct (lookup (dest ++ rel) (graft dest _ fs)) as [[data|ces]|] eqn:E'; auto.
      destruct (Horigin _ _ E') as [H|H]; [congruence|].
      specialize (Hempty rel). now rewrite H in Hempty.
Qed.

(** The statement above holds of the sample project. *)
Lemma copyRecursive_copies_tree_sample :
  exists fs',
    copyRecursive 2 ["proj"; "public"] ["proj"; "dist"] sample_fs = (fs', Ok tt) /\
    (forall rel data,
        lookup rel sample_public = Some (File data) ->
        lookup (["proj"; "dist"] ++ rel) fs' = Some (File data)) /\
    (forall rel ces,
        lookup rel sample_public = Some (Dir ces) ->
        exists des, lookup (["proj"; "dist"] ++ rel) fs' = Some (Dir des)) /\
    (forall rel data,
        lookup (["proj"; "dist"] ++ rel) fs' = Some (File data) <->
        lookup rel sample_public = Some (File data) \/
        (is_file (lookup rel sample_public) = false /\
         lookup (["proj"; "dist"] ++ rel) sample_fs = Some (File data))) /\
    ((forall rel, is_file (lookup (["proj"; "dist"] ++ rel) sample_fs) = false) ->
     forall rel,
       is_file (lookup (["proj"; "dist"] ++ rel) fs') = is_file (lookup rel sample_public)).
Proof.
  apply (copyRecursive_copies_tree 2 ["proj"; "public"] ["proj"; "dist"] sample_fs
           sample_public_entries);
    [reflexivity | reflexivity | reflexivity | reflexivity | reflexivity | simpl; lia].
Defined.

(** C2, as stated, fails in two ways.  The copy of the sample [public/]
    completes, and the output directory still has [index.js], a relative
    file path that the source tree does not have: the two sets of
    relative file paths differ.  And where the output directory has a
    directory [a] in the place of the source file [a], the copy stops with
    [EISDIR] at that entry: the source file [a] is no file under the
    destination, and [z.txt], which comes after it, still has its old
    bytes, not those of the source. *)
Lemma copyRecursive_not_a_mirror :
  let src := ["proj"; "public"] in
  let dest := ["proj"; "dist"] in
  (let fs' := fst (copyRecursive 2 src dest sample_fs) in
   snd (copyRecursive 2 src dest sample_fs) = Ok tt /\
   ~ (forall rel,
         is_file (lookup (dest ++ rel) fs') = is_file (lookup (src ++ rel) sample_fs)))
  /\
  (let fs' := fst (copyRecursive 2 src dest sample_clash) in
   snd (copyRecursive 2 src dest sample_clash) = Threw EISDIR /\
   ~ (forall rel,
         is_file (lookup (dest ++ rel) fs') = is_file (lookup (src ++ rel) sample_clash)) /\
   lookup (src ++ ["z.txt"]) sample_clash = Some (File "new") /\
   lookup (dest ++ ["z.txt"]) fs' = Some (File "old")).
Proof.
  split.
  - split; [reflexivity|].
    intros H. specialize (H ["index.js"]). discriminate H.
  - split; [reflexivity|]. split; [|split; reflexivity].
    intros H. specialize (H ["a"]). discriminate H.
Qed.

(** C10, as amended.  For a copy that can go through (as in C2: no file
    where the copy needs a directory and no directory where it needs a
    file), a relative file path that is a file in the source tree and
    already a file under the destination holds the source file's bytes
    afterwards: the file is overwritten, and the copy completes without an
    error. *)
Theorem copyRecursive_overwrites (fuel : nat) (src dest : path) (fs : node)
  (es : list (string * node)) (rel : path) (data old : string) :
  lookup src fs = Some (Dir es) ->
  unique_names (Dir es) = true ->
  apartb src dest = true ->
  compatible (Dir es) (lookup dest fs) = true ->
  depth (Dir es) <= fuel ->
  lookup rel (Dir es) = Some (File data) ->
  lookup (dest ++ rel) fs = Some (File old) ->
  exists fs',
    copyRecursive fuel src dest fs = (fs', Ok tt) /\
    lookup (dest ++ rel) fs' = Some (File data).
Proof.
  intros Hsrc Huniq Hap Hcompat Hdepth Hrel Hold. apply apartb_spec in Hap.
  assert (creatable dest fs = true) as Hc.
  { rewrite lookup_app in Hold.
    destruct (lookup dest fs) as [[d|des]|] eqn:E; try discriminate.
    eapply creatable_lookup_Dir; eauto. }
  exists (graft dest (overlay (Dir es) (lookup dest fs)) fs).
  split; [apply copyRecursive_overlay; assumption|].
  rewrite lookup_app, lookup_graft_same by assumption.
  now apply overlay_has_source_files.
Qed.

(** In the sample project the new icon replaces the old one. *)
Lemma copyRecursive_overwrites_sample :
  exists fs',
    copyRecursive 2 ["proj"; "public"] ["proj"; "dist"] sample_fs = (fs', Ok tt) /\
    lookup (["proj"; "dist"] ++ ["favicon.ico"]) fs' = Some (File "ICO-v2").
Proof.
  apply (copyRecursive_overwrites 2 ["proj"; "public"] ["proj"; "dist"] sample_fs
           sample_public_entries ["favicon.ico"] "ICO-v2" "ICO-v1");
    [reflexivity | reflexivity | reflexivity | reflexivity | simpl; lia
    | reflexivity | reflexivity].
Defined.

(** C10, as stated, fails: [z.txt] is a file in the source tree and
    already a file in the output directory, but the output directory has a
    directory [a] where the source has a file [a]; the copy throws
    [EISDIR] at [a], an entry before [z.txt], and [z.txt] keeps its old
    bytes. *)
Lemma copyRecursive_overwrite_blocked :
  let src := ["proj"; "public"] in
  let dest := ["proj"; "dist"] in
  apartb src dest = true /\
  lookup (src ++ ["z.txt"]) sample_clash = Some (File "new") /\
  lookup (dest ++ ["z.txt"]) sample_clash = Some (File "old") /\
  copyRecursive 2 src dest sample_clash = (sample_clash, Threw EISDIR) /\
  (forall fuel,
      lookup (dest ++ ["z.txt"]) (fst (copyRecursive fuel src dest sample_clash))
      = Some (File "old")).
Proof.
  repeat split.
  intros [|[|fuel]]; reflexivity.
Qed.

(** C8.  The copy is additive.  Whatever its outcome (completed, failed
    midway, or out of budget), a file that was under the destination at a
    relative path at which the source tree has no file is still there with
    its bytes. *)
Theorem copyRecursive_additive (fuel : nat) (src dest : path) (fs : node)
  (rel : path) (data : string) :
  apartb src dest = true ->
  lookup (dest ++ rel) fs = Some (File data) ->
  is_file (lookup (src ++ rel) fs) = false ->
  lookup (dest ++ rel) (fst (copyRecursive fuel src dest fs)) = Some (File data).
Proof.
  intros Hap Hold Hnot. apply apartb_spec in Hap.
  destruct (copyRecursive fuel src dest fs) as [fs' out] eqn:Hrun. simpl.
  destruct (copyRecursive_keeps_files fuel _ _ _ _ _ Hap Hrun _ _ Hold)
    as [H|[rel' [Heq Hfile]]]; auto.
  apply app_inv_head in Heq. subst rel'. congruence.
Qed.

(** In the sample project the bundle survives the copy. *)
Lemma copyRecursive_additive_sample :
  lookup (["proj"; "dist"] ++ ["index.js"])
    (fst (copyRecursive 2 ["proj"; "public"] ["proj"; "dist"] sample_fs))
  = Some (File "bundle").
Proof.
  apply (copyRecursive_additive 2 ["proj"; "public"] ["proj"; "dist"] sample_fs
           ["index.js"] "bundle");
    reflexivity.
Defined.

(** ** The hooks *)

Lemma apart_siblings (p : path) (a b : string) :
  a <> b -> apart (path_join p a) (path_join p b).
Proof.
  intros Hne. unfold path_join. induction p as [|s p IH]; simpl.
  - unfold apart. rewrite !is_prefix_cons. intuition congruence.
  - unfold apart in *. rewrite !is_prefix_cons. tauto.
Qed.

Lemma write_at_again (p : path) (data : string) :
  forall n n' : node, write_at p data n = Ok n' -> write_at p data n' = Ok n'.
Proof.
  induction p as [|s p IH]; intros n n' H.
  - destruct n; simpl in H; [|discriminate]. now injection H as <-.
  - destruct n as [|es]; simpl in H; [discriminate|].
    destruct (Assoc.get s es) as [c|] eqn:E.
    + destruct (write_at p data c) as [c'| |] eqn:W; simpl in H; try discriminate.
      injection H as <-. simpl. rewrite get_put_same, (IH _ _ W). simpl.
      now rewrite put_put.
    + destruct p; [|discriminate]. injection H as <-. simpl.
      rewrite get_put_same. simpl. now rewrite put_put.
Qed.

Section HookFacts.
Context {host : Host}.

Lemma publicDir_apart_distDir : apart publicDir distDir.
Proof. apply apart_siblings. discriminate. Qed.

Lemma distDir_apart_manifest : apart distDir (path_join rootDir "package.json").
Proof. apply apart_siblings. discriminate. Qed.

Lemma output_manifest_apart_manifest :
  apart (path_join distDir "package.json") (path_join rootDir "package.json").
Proof. unfold path_join at 1. apply apart_below, distDir_apart_manifest. Qed.

(** The manifest hook when the manifest cannot be read or parsed. *)
Lemma generatePackageJson_onEnd_unreadable (w : world) (e : error) :
  result_bind (read_at (path_join rootDir "package.json") (files w)) parse = Threw e ->
  generatePackageJson_onEnd w =
  ({| files := files w;
      console := console w ++ [LogError "Error generating package.json:" e] |}, Ok tt).
Proof.
  intros H. unfold generatePackageJson_onEnd, try_catch, bind, fs_call, readFile, query.
  destruct (read_at _ (files w)) as [content| |]; simpl in *; try discriminate.
  - unfold lift_result. rewrite H. reflexivity.
  - now injection H as <-.
Qed.

(** The public-directory hook when the copy goes through. *)
Lemma copyPublic_onEnd_copies (fuel : nat) (w : world) (es : list (string * node)) :
  lookup publicDir (files w) = Some (Dir es) ->
  unique_names (Dir es) = true ->
  creatable distDir (files w) = true ->
  compatible (Dir es) (lookup distDir (files w)) = true ->
  depth (Dir es) <= fuel ->
  copyPublic_onEnd fuel w =
  ({| files := graft distDir (overlay (Dir es) (lookup distDir (files w))) (files w);
      console := console w ++ [Log "Public directory contents copied to dist directory"] |},
   Ok tt).
Proof.
  intros Hsrc Huniq Hc Hcompat Hdepth.
  unfold copyPublic_onEnd, try_catch, bind, fs_call, access, query, exists_at.
  rewrite Hsrc. simpl.
  rewrite (copyRecursive_overlay fuel _ _ _ es Hsrc Huniq publicDir_apart_distDir Hc Hcompat Hdepth).
  reflexivity.
Qed.

(** The public-directory hook changes nothing apart from the output
    directory, and hands no error on. *)
Lemma copyPublic_onEnd_contained (fuel : nat) (w : world) :
  same_apart distDir (files w) (files (fst (copyPublic_onEnd fuel w))) /\
  (forall e, snd (copyPublic_onEnd fuel w) <> Threw e).
Proof.
  unfold copyPublic_onEnd, try_catch, bind, fs_call, access, query.
  destruct (exists_at publicDir (files w)); simpl.
  - destruct (copyRecursive fuel publicDir distDir (files w)) as [fs' out] eqn:Hrun.
    apply copyRecursive_same_apart in Hrun.
    destruct out as [[]| |]; simpl; split; auto; discriminate.
  - split; [intros q _; reflexivity | discriminate].
Qed.

(** What the README hook does to the files, and how it ends, depends on
    the files only. *)
Lemma copyReadme_onEnd_files (w w' : world) :
  files w = files w' ->
  files (fst (copyReadme_onEnd w)) = files (fst (copyReadme_onEnd w')) /\
  snd (copyReadme_onEnd w) = snd (copyReadme_onEnd w').
Proof.
  intros Heq. unfold copyReadme_onEnd, try_catch, bind, fs_call. rewrite Heq.
  destruct (copyFile _ _ (files w')) as [fs' [[]| |]]; simpl; auto.
Qed.

(** No hook hands an error on, and with a budget above the depth of
    [public/] each of them returns. *)
Lemma copyReadme_onEnd_returns (w : world) : snd (copyReadme_onEnd w) = Ok tt.
Proof.
  unfold copyReadme_onEnd, try_catch, bind, fs_call.
  pose proof (copyFile_ends (path_join rootDir "README.md")
                (path_join distDir "README.md") (files w)) as H.
  destruct (copyFile _ _ (files w)) as [fs' [[]| |]]; simpl in *; congruence.
Qed.

Lemma generatePackageJson_onEnd_returns (w : world) :
  snd (generatePackageJson_onEnd w) = Ok tt.
Proof.
  unfold generatePackageJson_onEnd, try_catch, bind, fs_call, readFile, writeFile,
    query, update, lift_result, read_at, parse, modify_packageJson.
  destruct (lookup _ (files w)) as [[content|es]|]; simpl; auto.
  destruct (JSON_parse content) as [M|]; simpl; auto.
  pose proof (fun data => write_at_ends (path_join distDir "package.json") data (files w))
    as Hw.
  destruct M; simpl; auto;
    match goal with
    | |- context [write_at ?p ?d ?fs] =>
        specialize (Hw d); destruct (write_at p d fs); simpl; congruence
    end.
Qed.

Lemma copyPublic_onEnd_returns (fuel : nat) (w : world) :
  depth_at publicDir (files w) < fuel ->
  snd (copyPublic_onEnd fuel w) = Ok tt.
Proof.
  intros Hfuel.
  pose proof (copyRecursive_ends fuel _ _ (files w) publicDir_apart_distDir Hfuel) as H.
  unfold copyPublic_onEnd, try_catch, bind, fs_call, access, query.
  destruct (exists_at publicDir (files w)); simpl; auto.
  destruct (copyRecursive fuel publicDir distDir (files w)) as [fs' [[]| |]];
    simpl in *; congruence.
Qed.

End HookFacts.

(** ** The hooks: main results *)

Section HookClaims.
Context {host : Host}.

(** C4.  When [public/] does not exist, the hook of the static-asset
    copier completes normally, leaves the file system as it was (so it
    creates no output directory), and writes nothing to the error stream:
    all it does is log that the copy is skipped. *)
Theorem copyPublic_onEnd_absent (fuel : nat) (w : world) :
  lookup publicDir (files w) = None ->
  copyPublic_onEnd fuel w =
  ({| files := files w;
      console :=
        console w ++ [Log "Public directory does not exist. Skipping copy operation."] |},
   Ok tt).
Proof.
  intros H. unfold copyPublic_onEnd, try_catch, bind, fs_call, access, query, exists_at.
  rewrite H. reflexivity.
Qed.

(** C5.  If the manifest cannot be read or is no JSON document, the hook
    of the manifest post-processor catches the error itself: it logs it to
    the error stream, changes no file and completes normally.  In a
    production build, where the hook runs between the public-directory
    hook and the README hook, the build then ends with no error in its
    result, as a build without the plugin does, and the files the two
    other hooks leave are the same as without the plugin. *)
Theorem manifest_failure_is_contained (fuel : nat) (w : world) (e : error) :
  result_bind (read_at (path_join rootDir "package.json") (files w)) parse = Threw e ->
  generatePackageJson_onEnd w =
  ({| files := files w;
      console := console w ++ [LogError "Error generating package.json:" e] |}, Ok tt)
  /\
  (PRODUCTION = true ->
   depth_at publicDir (files w) < fuel ->
   let others := runOnEndCallbacks [copyPublic_onEnd fuel; copyReadme_onEnd] w in
   snd (build_end fuel w) = Ok [] /\
   snd others = Ok [] /\
   files (fst (build_end fuel w)) = files (fst others)).
Proof.
  intros Hfail. split; [now apply generatePackageJson_onEnd_unreadable|].
  intros Hprod Hfuel. unfold build_end, plugins. rewrite Hprod. simpl registered.
  pose proof (copyPublic_onEnd_returns fuel w Hfuel) as Hret.
  destruct (copyPublic_onEnd_contained fuel w) as [Hsame _].
  cbn [runOnEndCallbacks]. unfold bind, try_catch, ret.
  destruct (copyPublic_onEnd fuel w) as [w1 out1]. cbn [fst snd] in *. subst out1.
  assert (result_bind (read_at (path_join rootDir "package.json") (files w1)) parse = Threw e)
    as Hfail1.
  { unfold read_at in *. now rewrite (Hsame _ distDir_apart_manifest). }
  rewrite (generatePackageJson_onEnd_unreadable _ _ Hfail1).
  set (w1' := {| files := files w1; console := _ |}).
  destruct (copyReadme_onEnd_files w1' w1 eq_refl) as [Hfiles _].
  pose proof (copyReadme_onEnd_returns w1') as Ha.
  pose proof (copyReadme_onEnd_returns w1) as Hb.
  destruct (copyReadme_onEnd w1') as [wa outa], (copyReadme_onEnd w1) as [wb outb].
  cbn [fst snd] in *. subst outa outb. cbn. auto.
Qed.

End HookClaims.

(** C4 on the sample project without [public/]. *)
Lemma copyPublic_onEnd_absent_sample :
  @copyPublic_onEnd posix_production 2 sample_bare =
  ({| files := files sample_bare;
      console := [Log "Public directory does not exist. Skipping copy operation."] |},
   Ok tt).
Proof.
  apply (@copyPublic_onEnd_absent posix_production 2 sample_bare). reflexivity.
Defined.

(** C5 on the sample project with a manifest that does not parse. *)
Lemma manifest_failure_is_contained_sample :
  @generatePackageJson_onEnd posix_production sample_bare =
  ({| files := files sample_bare;
      console := [LogError "Error generating package.json:" SyntaxError] |}, Ok tt)
  /\
  (@PRODUCTION posix_production = true ->
   @depth_at (@publicDir posix_production) (files sample_bare) < 2 ->
   let others :=
     runOnEndCallbacks
       [@copyPublic_onEnd posix_production 2; @copyReadme_onEnd posix_production]
       sample_bare in
   snd (@build_end posix_production 2 sample_bare) = Ok [] /\
   snd others = Ok [] /\
   files (fst (@build_end posix_production 2 sample_bare)) = files (fst others)).
Proof.
  apply (@manifest_failure_is_contained posix_production 2 sample_bare SyntaxError).
  reflexivity.
Defined.

Section ManifestHook.
Context {host : Host}.

(** The hook, outcome by outcome. *)
Lemma generatePackageJson_onEnd_run (w : world) :
  generatePackageJson_onEnd w =
  match trimmed_manifest (files w) with
  | Ok packageJson =>
      match write_at (path_join distDir "package.json")
                     (JSON_stringify packageJson 2) (files w) with
      | Ok fs' =>
          ({| files := fs';
              console := console w ++ [Log "package.json generated in dist directory"] |},
           Ok tt)
      | Threw e =>
          ({| files := files w;
              console := console w ++ [LogError "Error generating package.json:" e] |},
           Ok tt)
      | OutOfFuel => ({| files := files w; console := console w |}, OutOfFuel)
      end
  | Threw e =>
      ({| files := files w;
          console := console w ++ [LogError "Error generating package.json:" e] |},
       Ok tt)
  | OutOfFuel => ({| files := files w; console := console w |}, OutOfFuel)
  end.
Proof.
  unfold generatePackageJson_onEnd, trimmed_manifest, try_catch, bind, fs_call,
    readFile, writeFile, query, update, lift_result, console_log, console_error, print.
  destruct (read_at _ (files w)) as [content| |]; simpl; auto.
  destruct (parse content) as [M| |]; simpl; auto.
  destruct (modify_packageJson M) as [M'| |]; simpl; auto.
  destruct (write_at _ _ (files w)) as [fs'| |]; simpl; auto.
Qed.

Lemma trimmed_manifest_after_write (fs fs' : node) (data : string) :
  write_at (path_join distDir "package.json") data fs = Ok fs' ->
  trimmed_manifest fs' = trimmed_manifest fs.
Proof.
  intros W. unfold trimmed_manifest, read_at.
  rewrite (write_at_Ok _ _ _ _ W).
  now rewrite (lookup_graft_apart _ _ _ _ output_manifest_apart_manifest).
Qed.

(** C7.  Running the manifest post-processor a second time on the same
    source manifest leaves every file as the first run left it; and when
    the manifest reads, parses and trims to [M'] and the output directory
    can take the file, [dist/package.json] holds after the first run and
    after the second run alike exactly [JSON.stringify(M', null, 2)], the
    2-space-indented serialisation of the transformed manifest.  The
    transformation itself is idempotent too: it maps a transformed
    manifest to itself. *)
Theorem manifest_postprocessor_idempotent (w : world) :
  let once := fst (generatePackageJson_onEnd w) in
  let twice := fst (generatePackageJson_onEnd once) in
  files twice = files once /\
  (forall (M' : value number) (des : list (string * node)),
      trimmed_manifest (files w) = Ok M' ->
      lookup distDir (files w) = Some (Dir des) ->
      (forall ces, Assoc.get "package.json" des <> Some (Dir ces)) ->
      read_at (path_join distDir "package.json") (files once) = Ok (JSON_stringify M' 2) /\
      read_at (path_join distDir "package.json") (files twice) = Ok (JSON_stringify M' 2)) /\
  (forall M M' : value number,
      modify_packageJson M = Ok M' -> modify_packageJson M' = Ok M').
Proof.
  cbv zeta.
  assert (files (fst (generatePackageJson_onEnd (fst (generatePackageJson_onEnd w)))) =
          files (fst (generatePackageJson_onEnd w))) as Hidem.
  { rewrite (generatePackageJson_onEnd_run w).
    destruct (trimmed_manifest (files w)) as [M'| e |] eqn:HM.
    - destruct (write_at _ _ (files w)) as [fs'| e |] eqn:W; cbn [fst].
      + rewrite generatePackageJson_onEnd_run. cbn [files].
        rewrite (trimmed_manifest_after_write _ _ _ W), HM.
        now rewrite (write_at_again _ _ _ _ W).
      + rewrite generatePackageJson_onEnd_run. cbn [files]. now rewrite HM, W.
      + rewrite generatePackageJson_onEnd_run. cbn [files]. now rewrite HM, W.
    - cbn [fst]. rewrite generatePackageJson_onEnd_run. cbn [files]. now rewrite HM.
    - cbn [fst]. rewrite generatePackageJson_onEnd_run. cbn [files]. now rewrite HM. }
  split; [exact Hidem|]. split; [|exact modify_packageJson_again].
  intros M' des HM Hdist Hfree.
  rewrite Hidem. cut (read_at (path_join distDir "package.json")
                        (files (fst (generatePackageJson_onEnd w)))
                      = Ok (JSON_stringify M' 2)); [tauto|].
  rewrite (generatePackageJson_onEnd_run w), HM.
  rewrite (write_at_child _ _ _ _ _ Hdist Hfree). cbn [fst files].
  unfold read_at, path_join at 1.
  assert (creatable distDir (files w) = true) as Hc by (eapply creatable_lookup_Dir; eauto).
  rewrite lookup_app, lookup_graft_same by assumption.
  simpl. now rewrite get_put_same.
Qed.

End ManifestHook.

(** On the sample project both runs write the trimmed manifest. *)
Example manifest_written_twice_sample :
  let once := fst (@generatePackageJson_onEnd posix_production sample_world) in
  let twice := fst (@generatePackageJson_onEnd posix_production once) in
  @trimmed_manifest posix_production (files sample_world) =
    Ok (JObject [("name", JString "fs-developer-starter");
                 ("version", JString "1.0.0");
                 ("retries", JNumber 3);
                 ("browser", JString "index.js")]) /\
  lookup ["proj"; "dist"; "package.json"] (files once) = Some (File sample_trimmed_text) /\
  lookup ["proj"; "dist"; "package.json"] (files twice) = Some (File sample_trimmed_text) /\
  console twice = [Log "package.json generated in dist directory";
                   Log "package.json generated in dist directory"].
Proof. repeat split. Qed.

(** A production build of the sample project whose manifest does not
    parse and which has neither [public/] nor a README: each hook reports
    its own trouble and the build result has no error. *)
Example production_build_with_bad_manifest :
  snd (@build_end posix_production 2 sample_bare) = Ok [] /\
  files (fst (@build_end posix_production 2 sample_bare)) = files sample_bare /\
  console (fst (@build_end posix_production 2 sample_bare)) =
    [Log "Public directory does not exist. Skipping copy operation.";
     LogError "Error generating package.json:" SyntaxError;
     LogError "Error copying README.md:" ENOENT].
Proof. repeat split. Qed.

(** ** The plugin list: main result *)

Section PluginClaims.
Context {host : Host}.

(** C9.  Whatever the mode, the static-asset copier is among the
    plugins, while the manifest post-processor and the README copier are
    among them in production mode only.  So in development mode the one
    callback that runs at the end of a build is the public-directory hook,
    and a build whose copy can go through ends with every file of
    [public/] under the output directory, with its bytes and with no
    error in the build result. *)
Theorem copyPublicPlugin_in_both_modes :
  In copyPublicPlugin plugins /\
  (In generatePackageJsonPlugin plugins <-> PRODUCTION = true) /\
  (In copyReadmePlugin plugins <-> PRODUCTION = true) /\
  (PRODUCTION = false -> forall fuel, registered fuel plugins = [copyPublic_onEnd fuel]) /\
  (PRODUCTION = false ->
   forall fuel w es,
     lookup publicDir (files w) = Some (Dir es) ->
     unique_names (Dir es) = true ->
     creatable distDir (files w) = true ->
     compatible (Dir es) (lookup distDir (files w)) = true ->
     depth (Dir es) <= fuel ->
     exists w',
       build_end fuel w = (w', Ok []) /\
       forall rel data,
         lookup rel (Dir es) = Some (File data) ->
         lookup (distDir ++ rel) (files w') = Some (File data)).
Proof.
  unfold build_end, plugins. destruct PRODUCTION; simpl.
  - repeat split; auto; try discriminate.
  - repeat split; try discriminate; auto.
    + intros [H|[H|[]]]; discriminate.
    + intros [H|[H|[]]]; discriminate.
    + intros _ fuel w es Hsrc Huniq Hc Hcompat Hdepth.
      unfold bind, try_catch, ret.
      rewrite (copyPublic_onEnd_copies fuel w es Hsrc Huniq Hc Hcompat Hdepth).
      eexists. split; [reflexivity|].
      intros rel data Hrel. cbn [files].
      rewrite lookup_app, lookup_graft_same by assumption.
      now apply overlay_has_source_files.
Qed.

End PluginClaims.

(** In development mode, a build of the sample project puts the new icon
    and the logo under [dist/]. *)
Example development_build_copies_public :
  exists w',
    @build_end posix_development 2 sample_world = (w', Ok []) /\
    lookup ["proj"; "dist"; "favicon.ico"] (files w') = Some (File "ICO-v2") /\
    lookup ["proj"; "dist"; "img"; "logo.png"] (files w') = Some (File "PNG") /\
    lookup ["proj"; "dist"; "package.json"] (files w') = None.
Proof. eexists. repeat split. Qed.

(** ** Path strings *)

Local Open Scope string_scope.

Lemma append_assoc (a b c : string) : (a ++ b) ++ c = a ++ (b ++ c).
Proof. induction a as [|x a IH]; simpl; [reflexivity | now rewrite IH]. Qed.

Lemma split_nonempty (c : ascii) (s : string) : Str.split c s <> [].
Proof.
  induction s as [|x s IH]; simpl; [discriminate|].
  destruct (Ascii.eqb x c); [discriminate|].
  destruct (Str.split c s); [contradiction | discriminate].
Qed.

(** A string without the separator is one segment. *)
Lemma split_one (c : ascii) (s : string) :
  Str.contains c s = false -> Str.split c s = [s].
Proof.
  induction s as [|x s IH]; simpl; auto.
  intros H. apply orb_false_iff in H. destruct H as [Hx Hs].
  rewrite Hx, (IH Hs). reflexivity.
Qed.

(** A segment appended after a separator is one more segment. *)
Lemma split_snoc (c : ascii) (d a : string) :
  Str.contains c a = false ->
  Str.split c (d ++ String c a) = (Str.split c d ++ [a])%list.
Proof.
  intros Ha. induction d as [|x d IH]; simpl.
  - rewrite Ascii.eqb_refl, (split_one _ _ Ha). reflexivity.
  - destruct (Ascii.eqb x c); rewrite IH; auto.
    destruct (Str.split c d) eqn:E; [now destruct (split_nonempty c d) | reflexivity].
Qed.

(** A first segment without the separator stays one segment. *)
Lemma split_cons (c : ascii) (d rest : string) :
  Str.contains c d = false ->
  Str.split c (d ++ String c rest) = d :: Str.split c rest.
Proof.
  induction d as [|x d IH]; simpl; intros H.
  - now rewrite Ascii.eqb_refl.
  - apply orb_false_iff in H. destruct H as [Hx Hd].
    now rewrite Hx, (IH Hd).
Qed.

(** Splitting undoes joining, for segments without the separator. *)
Lemma split_join (c : ascii) (segs : list string) :
  segs <> [] ->
  Forall (fun s => Str.contains c s = false) segs ->
  Str.split c (Str.join (String c EmptyString) segs) = segs.
Proof.
  induction segs as [|x rest IH]; [congruence|].
  intros _ Hall. inversion Hall as [|? ? Hx Hrest]; subst.
  destruct rest as [|y rest].
  - simpl. now apply split_one.
  - unfold Str.join in *. cbn [String.concat]. simpl append.
    rewrite split_cons by assumption. f_equal. apply IH; [discriminate | assumption].
Qed.

Lemma contains_after (c : ascii) (a b : string) :
  Str.contains c (a ++ String c b) = true.
Proof.
  induction a as [|x a IH]; simpl.
  - now rewrite Ascii.eqb_refl.
  - rewrite IH. apply orb_true_r.
Qed.

(** A suffix without the character [c] is a suffix of what follows the
    last [c]. *)
Lemma endsWith_after (c : ascii) (a b suffix : string) :
  Str.contains c suffix = false ->
  Str.endsWith (a ++ String c b) suffix = Str.endsWith b suffix.
Proof.
  intros Hs.
  assert (forall a', String.eqb (a' ++ String c b) suffix = false) as Hne.
  { intros a'. apply String.eqb_neq. intros Heq.
    pose proof (contains_after c a' b) as H. rewrite Heq in H. congruence. }
  induction a as [|x a IH].
  - pose proof (Hne EmptyString) as H0.
    change (String.eqb (String c b) suffix = false) in H0.
    change (EmptyString ++ String c b) with (String c b).
    cbn [Str.endsWith]. now rewrite H0.
  - pose proof (Hne (String x a)) as H0.
    change (String.eqb (String x (a ++ String c b)) suffix = false) in H0.
    change (String x a ++ String c b) with (String x (a ++ String c b)).
    cbn [Str.endsWith]. now rewrite H0.
Qed.

(** The joined string ends with its last segment, after a glue
    character. *)
Lemma join_last (c : ascii) (d : string) (rel : list string) :
  rel <> [] ->
  exists pre,
    Str.join (String c EmptyString) (d :: rel) = pre ++ String c (last rel EmptyString).
Proof.
  revert d. induction rel as [|x rest IH]; [congruence|]. intros d _.
  destruct rest as [|y rest].
  - exists d. reflexivity.
  - destruct (IH x) as [pre Hpre]; [discriminate|].
    exists (d ++ String c pre).
    unfold Str.join in *. cbn [String.concat] in *. simpl append in *.
    change (last (x :: y :: rest) EmptyString) with (last (y :: rest) EmptyString).
    rewrite Hpre, append_assoc. reflexivity.
Qed.

Section ReporterFacts.
Context {host : Host}.

(** The path string [getFiles] builds for the file at the relative path
    [rel] under [dirPath]. *)
Lemma fold_join (rel : list string) (dirPath : string) :
  fold_left join rel dirPath = Str.join sep_string (dirPath :: rel).
Proof.
  revert dirPath. induction rel as [|a rel IH]; intros dirPath; [reflexivity|].
  simpl fold_left. rewrite IH. unfold Str.join, join, sep_string.
  destruct rel; cbn [String.concat]; simpl append; [reflexivity|].
  rewrite append_assoc. reflexivity.
Qed.

Lemma readdirSync_join (fs : node) (dirPath : string) (a : string) :
  Str.contains sep a = false ->
  readdirSync fs (join dirPath a) =
  readdir_at (path_join (cwd ++ Str.split sep dirPath)%list a) fs.
Proof.
  intros Ha. unfold readdirSync, join, path_join. simpl append.
  now rewrite split_snoc, app_assoc.
Qed.

Lemma flat_listed (dirPath : string) (es : list (string * node)) :
  flat (map (listed dirPath) es) =
  map (fun rel => Path (fold_left join rel dirPath)) (leaf_files (Dir es)).
Proof.
  induction es as [|[a c] es IH]; [reflexivity|].
  unfold flat in *. cbn [map flat_map leaf_files] in *. rewrite map_app, IH. f_equal.
  unfold listed. cbn [fst snd]. destruct c as [data|ces].
  - reflexivity.
  - now rewrite map_map.
Qed.

(** With a budget of the depth of the tree, [getFiles] returns the files
    of the tree as path strings, in the order of [leaf_files]. *)
Lemma getFiles_leaf_files (fuel : nat) :
  forall (fs : node) (dirPath : string) (es : list (string * node)),
    lookup (cwd ++ Str.split sep dirPath)%list fs = Some (Dir es) ->
    unique_names (Dir es) = true ->
    names_without sep (Dir es) = true ->
    depth (Dir es) <= fuel ->
    getFiles fuel fs dirPath =
    Ok (map (fun rel => Path (fold_left join rel dirPath)) (leaf_files (Dir es))).
Proof.
  induction fuel as [|fuel IH]; intros fs dirPath es Hdir Huniq Hnames Hdepth.
  - simpl in Hdepth. lia.
  - cbn [getFiles]. unfold readdirSync at 1, readdir_at. rewrite Hdir. cbn [result_bind].
    simpl in Huniq. apply andb_true_iff in Huniq. destruct Huniq as [Hnd Hsub].
    apply distinct_NoDup in Hnd. rewrite forallb_forall in Hsub.
    simpl in Hnames. rewrite forallb_forall in Hnames.
    simpl in Hdepth. apply le_S_n in Hdepth.
    match goal with
    | |- result_bind (map_result ?f _) _ = _ =>
        assert (forall l, incl l es ->
                  map_result f (map dirent_of l) = Ok (map (listed dirPath) l)) as Hmap
    end.
    { induction l as [|[a c] l IHl]; intros Hincl; [reflexivity|].
      assert (In (a, c) es) as Hin by (apply Hincl; now left).
      specialize (Hnames _ Hin). cbn [fst snd] in Hnames.
      apply andb_true_iff in Hnames. destruct Hnames as [Ha Hc].
      apply negb_true_iff in Ha.
      cbn [map map_result]. rewrite IHl by (intros x Hx; apply Hincl; now right).
      unfold dirent_of at 1, listed at 2. cbn [name isDirectory fst snd is_dir].
      destruct c as [data|ces]; cbn [is_dir]; [reflexivity|].
      rewrite (IH fs (join dirPath a) ces); [reflexivity| | | |].
      - unfold join. simpl append. rewrite split_snoc by assumption.
        rewrite app_assoc. change (lookup (path_join (cwd ++ Str.split sep dirPath)%list a) fs
                                   = Some (Dir ces)).
        rewrite (lookup_child _ _ _ _ Hdir). now apply get_of_In.
      - now apply (Hsub (a, Dir ces)).
      - assumption.
      - etransitivity; [|exact Hdepth].
        apply (list_max_In _ (depth (Dir ces))).
        now apply (in_map (fun e => depth (snd e)) _ (a, Dir ces)). }
    rewrite (Hmap es (incl_refl es)). cbn [result_bind].
    now rewrite flat_listed.
Qed.

End ReporterFacts.

(** ** The reporter: main results *)

Local Open Scope list_scope.

(** The listed relative paths are the paths of the files of the tree. *)
Lemma leaf_files_spec (n : node) :
  forall rel : path,
    unique_names n = true ->
    (In rel (leaf_files n) <-> is_file (lookup rel n) = true).
Proof.
  induction n as [data|es IH] using node_ind'; intros rel Huniq.
  - destruct rel as [|a rel]; simpl; split; auto; try discriminate.
    intros [H|[]]. discriminate.
  - simpl in Huniq. apply andb_true_iff in Huniq. destruct Huniq as [Hnd Hsub].
    apply distinct_NoDup in Hnd. rewrite forallb_forall in Hsub.
    rewrite Forall_forall in IH.
    cbn [leaf_files]. rewrite in_flat_map. split.
    + intros [[a c] [Hin Hrel]]. cbn [fst snd] in Hrel.
      apply in_map_iff in Hrel. destruct Hrel as [rel' [<- Hrel']].
      rewrite lookup_cons_Dir, (get_of_In _ _ _ Hnd Hin).
      apply (IH (a, c) Hin); [apply (Hsub (a, c) Hin) | assumption].
    + destruct rel as [|a rel]; [discriminate|].
      rewrite lookup_cons_Dir.
      destruct (Assoc.get a es) as [c|] eqn:E; [|discriminate].
      apply get_In in E. intros Hfile. exists (a, c). split; auto.
      cbn [fst snd]. apply in_map.
      apply (IH (a, c) E); [apply (Hsub (a, c) E) | assumption].
Qed.

(** No segment of a listed path has a character that no name has. *)
Lemma leaf_files_names (c : ascii) (n : node) :
  forall rel : path,
    names_without c n = true ->
    In rel (leaf_files n) ->
    Forall (fun s => Str.contains c s = false) rel.
Proof.
  induction n as [data|es IH] using node_ind'; intros rel Hnames Hin.
  - destruct Hin as [<-|[]]. constructor.
  - simpl in Hnames. rewrite forallb_forall in Hnames. rewrite Forall_forall in IH.
    cbn [leaf_files] in Hin. apply in_flat_map in Hin.
    destruct Hin as [[a n'] [Hin Hrel]]. cbn [fst snd] in Hrel.
    apply in_map_iff in Hrel. destruct Hrel as [rel' [<- Hrel']].
    specialize (Hnames _ Hin). cbn [fst snd] in Hnames.
    apply andb_true_iff in Hnames. destruct Hnames as [Ha Hn'].
    apply negb_true_iff in Ha. constructor; auto.
    now apply (IH (a, n') Hin).
Qed.

Section ReporterClaims.
Context {host : Host}.

(** The served location of the file at [rel] under a one-segment
    directory: the origin and the segments of [rel], joined by
    slashes. *)
Lemma location_of_join (d : string) (rel : list string) :
  Str.contains sep d = false ->
  Forall (fun s => Str.contains sep s = false) rel ->
  location_of (Str.join sep_string (d :: rel)) = Str.join "/" (SERVE_ORIGIN :: rel).
Proof.
  intros Hd Hrel. unfold location_of, sep_string.
  rewrite split_join; [reflexivity | discriminate | now constructor].
Qed.

(** C6.  For every output directory tree (its names unique in each
    directory and free of the separator, whatever the separator is),
    [getFiles], given a budget of the depth of the tree, returns a flat
    sequence of path strings, one for each relative path of [leaf_files],
    in that order: each directory's entries in enumeration order, the
    files of a directory in the place of the directory and so before its
    later siblings.  These relative paths are exactly the paths of the
    files of the tree, so no directory is listed.  And the location made
    of a listed path is the origin followed by the segments of the
    relative path, joined by slashes. *)
Theorem getFiles_lists_leaf_files (fuel : nat) (fs : node) (es : list (string * node)) :
  Str.contains sep BUILD_DIRECTORY = false ->
  lookup (cwd ++ [BUILD_DIRECTORY]) fs = Some (Dir es) ->
  unique_names (Dir es) = true ->
  names_without sep (Dir es) = true ->
  depth (Dir es) <= fuel ->
  getFiles fuel fs BUILD_DIRECTORY =
    Ok (map (fun rel => Path (Str.join sep_string (BUILD_DIRECTORY :: rel)))
            (leaf_files (Dir es))) /\
  (forall name c rest,
      leaf_files (Dir ((name, c) :: rest)) =
      map (cons name) (leaf_files c) ++ leaf_files (Dir rest)) /\
  (forall rel, In rel (leaf_files (Dir es)) <-> is_file (lookup rel (Dir es)) = true) /\
  (forall rel,
      In rel (leaf_files (Dir es)) ->
      location_of (Str.join sep_string (BUILD_DIRECTORY :: rel)) =
      Str.join "/" (SERVE_ORIGIN :: rel)).
Proof.
  intros Hsep Hdir Huniq Hnames Hdepth. repeat split.
  - rewrite (getFiles_leaf_files fuel fs BUILD_DIRECTORY es); auto.
    + f_equal. apply map_ext. intros rel. now rewrite fold_join.
    + now rewrite (split_one _ _ Hsep).
  - now apply leaf_files_spec.
  - now apply leaf_files_spec.
  - intros rel Hin. apply location_of_join; auto.
    eapply leaf_files_names; eauto.
Qed.

(** The row of a file under the output directory: none for a name ending
    in [.map], else the location with a stylesheet link for a name ending
    in [.css] and a deferred script tag for any other name. *)
Lemma file_info_by_suffix (d : string) (rel : list string) :
  sep = "/"%char \/ sep = "\"%char ->
  rel <> [] ->
  Str.contains sep d = false ->
  Forall (fun s => Str.contains sep s = false) rel ->
  file_info (Path (Str.join sep_string (d :: rel))) =
  Ok (if Str.endsWith (last rel EmptyString) ".map" then None
      else
        let location := Str.join "/" (SERVE_ORIGIN :: rel) in
        Some {| File_Location := location;
                Import_Suggestion :=
                  if Str.endsWith (last rel EmptyString) ".css"
                  then link_tag location
                  else script_tag location |}).
Proof.
  intros Hsep Hne Hd Hrel. unfold file_info.
  rewrite (location_of_join _ _ Hd Hrel).
  destruct (join_last sep d rel Hne) as [pre Hpre].
  destruct (join_last "/"%char SERVE_ORIGIN rel Hne) as [pre' Hpre'].
  unfold sep_string. rewrite Hpre.
  change (Str.join "/" (SERVE_ORIGIN :: rel))
    with (Str.join (String "/"%char EmptyString) (SERVE_ORIGIN :: rel)).
  rewrite Hpre'.
  rewrite !endsWith_after.
  - now destruct (Str.endsWith (last rel EmptyString) ".map").
  - reflexivity.
  - destruct Hsep as [-> | ->]; reflexivity.
Qed.

(** C3.  With [app.js], [app.js.map] and [styles.css] in the output
    directory, the reporter prints a table of exactly two rows:
    [http://localhost:3000/app.js] with a deferred script tag and
    [http://localhost:3000/styles.css] with a stylesheet link, both
    written out here, and no row for [app.js.map].  In general a file
    under the output directory gets no row when its name ends in [.map],
    a stylesheet link when it ends in [.css], and a deferred script tag
    otherwise. *)
Theorem logServedFiles_example (fuel : nat) (w : world) (a b c : string) :
  sep = "/"%char \/ sep = "\"%char ->
  lookup (cwd ++ [BUILD_DIRECTORY]) (files w) =
    Some (Dir [("app.js", File a); ("app.js.map", File b); ("styles.css", File c)]) ->
  logServedFiles (S fuel) w =
    ({| files := files w;
        console :=
          console w ++
          [Table [{| File_Location := "http://localhost:3000/app.js";
                     Import_Suggestion :=
                       ("<script defer src="
                          ++ String "034" "http://localhost:3000/app.js"
                          ++ String "034" "></script>")%string |};
                  {| File_Location := "http://localhost:3000/styles.css";
                     Import_Suggestion :=
                       ("<link href="
                          ++ String "034" "http://localhost:3000/styles.css"
                          ++ String "034" " rel=" ++ String "034" "stylesheet"
                          ++ String "034" " type=" ++ String "034" "text/css"
                          ++ String "034" "/>")%string |}]] |},
     Ok tt)
  /\
  (forall (d : string) (rel : list string),
      rel <> [] ->
      Str.contains sep d = false ->
      Forall (fun s => Str.contains sep s = false) rel ->
      file_info (Path (Str.join sep_string (d :: rel))) =
      Ok (if Str.endsWith (last rel EmptyString) ".map" then None
          else
            let location := Str.join "/" (SERVE_ORIGIN :: rel) in
            Some {| File_Location := location;
                    Import_Suggestion :=
                      if Str.endsWith (last rel EmptyString) ".css"
                      then stylesheet_link location
                      else deferred_script location |})).
Proof.
  intros Hsep Hdir.
  split; [|intros d rel Hrel Hd Hnames;
           rewrite (file_info_by_suffix d rel Hsep Hrel Hd Hnames);
           reflexivity].
  assert (Str.contains sep BUILD_DIRECTORY = false) as Hd
      by (destruct Hsep as [-> | ->]; reflexivity).
  unfold logServedFiles, bind.
  rewrite (getFiles_leaf_files (S fuel) (files w) BUILD_DIRECTORY
             [("app.js", File a); ("app.js.map", File b); ("styles.css", File c)]).
  - cbn [leaf_files flat_map map app fst snd fold_left].
    unfold lift_result, filesInfo. cbn [map_result].
    change (join BUILD_DIRECTORY "app.js")
      with (Str.join sep_string [BUILD_DIRECTORY; "app.js"]).
    change (join BUILD_DIRECTORY "app.js.map")
      with (Str.join sep_string [BUILD_DIRECTORY; "app.js.map"]).
    change (join BUILD_DIRECTORY "styles.css")
      with (Str.join sep_string [BUILD_DIRECTORY; "styles.css"]).
    assert (forall name,
               Str.contains sep name = false ->
               file_info (Path (Str.join sep_string [BUILD_DIRECTORY; name])) =
               Ok (if Str.endsWith name ".map" then None
                   else
                     let location := Str.join "/" [SERVE_ORIGIN; name] in
                     Some {| File_Location := location;
                             Import_Suggestion :=
                               if Str.endsWith name ".css"
                               then link_tag location
                               else script_tag location |})) as Hrow.
    { intros name Hname.
      apply (file_info_by_suffix BUILD_DIRECTORY [name] Hsep); auto; discriminate. }
    rewrite !Hrow by (destruct Hsep as [-> | ->]; reflexivity).
    reflexivity.
  - rewrite (split_one _ _ Hd). exact Hdir.
  - reflexivity.
  - destruct Hsep as [-> | ->]; reflexivity.
  - simpl. lia.
Qed.

End ReporterClaims.

(** C3 on the POSIX host. *)
Lemma logServedFiles_example_posix :
  @logServedFiles posix_development 1 sample_served =
    ({| files := files sample_served;
        console :=
          [Table [{| File_Location := "http://localhost:3000/app.js";
                     Import_Suggestion :=
                       ("<script defer src="
                          ++ String "034" "http://localhost:3000/app.js"
                          ++ String "034" "></script>")%string |};
                  {| File_Location := "http://localhost:3000/styles.css";
                     Import_Suggestion :=
                       ("<link href="
                          ++ String "034" "http://localhost:3000/styles.css"
                          ++ String "034" " rel=" ++ String "034" "stylesheet"
                          ++ String "034" " type=" ++ String "034" "text/css"
                          ++ String "034" "/>")%string |}]] |},
     Ok tt)
  /\
  (forall (d : string) (rel : list string),
      rel <> [] ->
      Str.contains "/" d = false ->
      Forall (fun s => Str.contains "/" s = false) rel ->
      @file_info posix_development (Path (Str.join "/" (d :: rel))) =
      Ok (if Str.endsWith (last rel EmptyString) ".map" then None
          else
            let location := Str.join "/" ("http://localhost:3000"%string :: rel) in
            Some {| File_Location := location;
                    Import_Suggestion :=
                      if Str.endsWith (last rel EmptyString) ".css"
                      then stylesheet_link location
                      else deferred_script location |})).
Proof.
  apply (@logServedFiles_example posix_development 0 sample_served "js" "map" "css");
    [left; reflexivity | reflexivity].
Defined.

(** C6 on the POSIX host and the nested output directory. *)
Lemma getFiles_lists_leaf_files_posix :
  @getFiles posix_development 3 sample_output "dist" =
    Ok [Path "dist/app.js"; Path "dist/assets/fonts/a.woff";
        Path "dist/assets/logo.png"; Path "dist/styles.css"] /\
  (forall name c rest,
      leaf_files (Dir ((name, c) :: rest)) =
      map (cons name) (leaf_files c) ++ leaf_files (Dir rest)) /\
  (forall rel,
      In rel (leaf_files (Dir sample_output_entries)) <->
      is_file (lookup rel (Dir sample_output_entries)) = true) /\
  (forall rel,
      In rel (leaf_files (Dir sample_output_entries)) ->
      @location_of posix_development (Str.join "/" ("dist"%string :: rel)) =
      Str.join "/" ("http://localhost:3000"%string :: rel)).
Proof.
  apply (@getFiles_lists_leaf_files posix_development 3 sample_output sample_output_entries);
    [reflexivity | reflexivity | reflexivity | reflexivity | simpl; lia].
Defined.

(** On the Windows host the listed paths have backslashes and the
    locations have slashes. *)
Example logServedFiles_win32 :
  @getFiles win32_development 3 (files sample_output_win32) "dist" =
    Ok (map (fun rel => Path (Str.join "\" ("dist"%string :: rel)))
            [["app.js"]; ["assets"; "fonts"; "a.woff"]; ["assets"; "logo.png"];
             ["styles.css"]]) /\
  snd (@logServedFiles win32_development 3 sample_output_win32) = Ok tt /\
  map (fun l => match l with
                | Table rows => map File_Location rows
                | _ => []
                end)
      (console (fst (@logServedFiles win32_development 3 sample_output_win32))) =
    [["http://localhost:3000/app.js"%string;
      "http://localhost:3000/assets/fonts/a.woff"%string;
      "http://localhost:3000/assets/logo.png"%string;
      "http://localhost:3000/styles.css"%string]].
Proof. repeat split. Qed.

(* ===================================================================== *)
(** * Part III: further properties                                        *)
(* ===================================================================== *)

Local Open Scope list_scope.

(** ** The manifest post-processor *)

Lemma keys_remove {V : Type} (key : string) (l : list (string * V)) :
  map fst (Assoc.remove key l) = filter (fun k => negb (String.eqb k key)) (map fst l).
Proof.
  induction l as [|[k v] l IH]; simpl; auto.
  destruct (String.eqb k key); simpl; now rewrite IH.
Qed.

Lemma keys_put {V : Type} (key : string) (v : V) (l : list (string * V)) :
  map fst (Assoc.put key v l) =
  if existsb (String.eqb key) (map fst l) then map fst l else map fst l ++ [key].
Proof.
  induction l as [|[k w] l IH]; simpl; auto.
  rewrite (String.eqb_sym key k).
  destruct (String.eqb k key) eqn:E; simpl; auto.
  rewrite IH. now destruct (existsb (String.eqb key) (map fst l)).
Qed.

Lemma filter_filter {A : Type} (f g : A -> bool) (l : list A) :
  filter f (filter g l) = filter (fun x => g x && f x) l.
Proof.
  induction l as [|x l IH]; simpl; auto.
  destruct (g x); simpl; [destruct (f x); now rewrite IH | assumption].
Qed.

(** A write below a directory that is not there fails, with [ENOENT]. *)
Lemma write_at_missing_dir (p : path) (a b : string) (r : path) (data : string) :
  forall (n : node) (es : list (string * node)),
    lookup p n = Some (Dir es) ->
    Assoc.get a es = None ->
    write_at (p ++ a :: b :: r) data n = Threw ENOENT.
Proof.
  induction p as [|s p IH]; intros n es Hp Ha; simpl in *.
  - injection Hp as ->. now rewrite Ha.
  - destruct n as [|es']; [discriminate|].
    destruct (Assoc.get s es') as [c|]; [|discriminate].
    now rewrite (IH c es Hp Ha).
Qed.

Section ManifestMore.
Context {host : Host}.

(** X1.  The trimmed manifest keeps the order of the keys: its keys are
    those of the manifest without the four build-only ones, in the order
    the manifest has them, with [browser] where it was or else last. *)
Theorem modify_packageJson_keeps_key_order (M : list (string * value number)) :
  exists M',
    modify_packageJson (JObject M) = Ok (JObject M') /\
    map fst M' = trimmed_keys (map fst M).
Proof.
  eexists. split; [apply modify_packageJson_object|].
  rewrite keys_put, !keys_remove, !filter_filter. unfold trimmed_keys.
  match goal with
  | |- context [filter ?f (map fst M)] =>
      rewrite (filter_ext f (fun k => negb (build_only k)))
  end; [reflexivity|].
  intros k. unfold build_only.
  destruct (String.eqb k "scripts"), (String.eqb k "devDependencies"),
    (String.eqb k "files"), (String.eqb k "publishConfig"); reflexivity.
Qed.

(** X2.  A manifest that is valid JSON but neither an object nor an
    array ([null], a number, a string, a boolean) makes the hook fail with
    a [TypeError] of its own, which it logs; nothing is written. *)
Theorem manifest_without_properties_is_rejected (w : world) (content : string)
  (M : value number) :
  read_at (path_join rootDir "package.json") (files w) = Ok content ->
  parse content = Ok M ->
  takes_properties M = false ->
  generatePackageJson_onEnd w =
  ({| files := files w;
      console := console w ++ [LogError "Error generating package.json:" TypeError] |},
   Ok tt).
Proof.
  intros Hread Hparse Hprim.
  rewrite generatePackageJson_onEnd_run. unfold trimmed_manifest.
  rewrite Hread. simpl. rewrite Hparse. simpl.
  destruct M; try discriminate; reflexivity.
Qed.

Lemma no_directory_slot (name : string) (des : list (string * node)) :
  is_directory (Assoc.get name des) = false ->
  forall ces, Assoc.get name des <> Some (Dir ces).
Proof. intros H ces Heq. rewrite Heq in H. discriminate. Qed.

(** X3.  A manifest that is an array goes through the hook, but the
    [browser] entry it is given is a named property of the array, which
    [JSON.stringify] leaves out: [dist/package.json] gets the text of the
    array as it was parsed, with no [browser] in it. *)
Theorem array_manifest_written_unchanged (w : world) (content : string)
  (items : list (value number)) (named : list (string * value number))
  (des : list (string * node)) :
  read_at (path_join rootDir "package.json") (files w) = Ok content ->
  parse content = Ok (JArray items named) ->
  lookup distDir (files w) = Some (Dir des) ->
  is_directory (Assoc.get "package.json" des) = false ->
  snd (generatePackageJson_onEnd w) = Ok tt /\
  read_at (path_join distDir "package.json") (files (fst (generatePackageJson_onEnd w)))
  = Ok (JSON_stringify (JArray items named) 2).
Proof.
  intros Hread Hparse Hdist Hfree.
  rewrite generatePackageJson_onEnd_run. unfold trimmed_manifest.
  rewrite Hread. simpl. rewrite Hparse. simpl.
  destruct (write_at (path_join distDir "package.json")
              (JSON_stringify (JArray items
                 (Assoc.put "browser" (JString "index.js")
                    (Assoc.remove "publishConfig"
                       (Assoc.remove "files"
                          (Assoc.remove "devDependencies"
                             (Assoc.remove "scripts" named)))))) 2)
              (files w)) as [fs'| |] eqn:W.
  - split; [reflexivity|]. cbn [fst files]. apply (write_at_read _ _ _ _ W).
  - rewrite (write_at_child _ _ _ _ _ Hdist (no_directory_slot _ _ Hfree)) in W.
    discriminate.
  - rewrite (write_at_child _ _ _ _ _ Hdist (no_directory_slot _ _ Hfree)) in W.
    discriminate.
Qed.

(** X4.  The manifest hook shows at one path only: whatever it does, a
    look at any path other than [dist/package.json] finds what was there
    before, every file with its bytes and every directory, and nothing
    new. *)
Theorem generatePackageJson_onEnd_writes_one_file (w : world) (q : path) :
  q <> path_join distDir "package.json" ->
  glance (lookup q (files (fst (generatePackageJson_onEnd w)))) =
  glance (lookup q (files w)).
Proof.
  intros Hne. rewrite generatePackageJson_onEnd_run.
  destruct (trimmed_manifest (files w)) as [M'| |]; cbn [fst files]; auto.
  destruct (write_at _ _ (files w)) as [fs'| |] eqn:W; cbn [fst files]; auto.
  eapply write_at_glance; eauto.
Qed.

(** X5.  The manifest hook does not make the output directory: when
    the manifest is fine and [dist/] does not exist, the write fails with
    [ENOENT], the hook logs it, and the file system stays as it was. *)
Theorem generatePackageJson_onEnd_needs_dist (w : world) (M' : value number) :
  trimmed_manifest (files w) = Ok M' ->
  lookup distDir (files w) = None ->
  generatePackageJson_onEnd w =
  ({| files := files w;
      console := console w ++ [LogError "Error generating package.json:" ENOENT] |},
   Ok tt).
Proof.
  intros HM Hdist. rewrite generatePackageJson_onEnd_run, HM.
  assert (exists es, lookup rootDir (files w) = Some (Dir es)) as [es Hroot].
  { unfold trimmed_manifest, read_at, path_join in HM. rewrite lookup_app in HM.
    destruct (lookup rootDir (files w)) as [[data|es]|]; simpl in HM; try discriminate.
    eauto. }
  assert (Assoc.get BUILD_DIRECTORY es = None) as Hget.
  { unfold distDir in Hdist. now rewrite (lookup_child _ _ _ _ Hroot) in Hdist. }
  unfold path_join, distDir, path_join. rewrite <- app_assoc. simpl app.
  now rewrite (write_at_missing_dir _ _ _ _ _ _ _ Hroot Hget).
Qed.

End ManifestMore.

(** X2 on the sample project with [null] for a manifest. *)
Lemma manifest_without_properties_is_rejected_sample :
  @generatePackageJson_onEnd posix_production sample_null_manifest =
  ({| files := files sample_null_manifest;
      console := [LogError "Error generating package.json:" TypeError] |},
   Ok tt).
Proof.
  apply (@manifest_without_properties_is_rejected posix_production
           sample_null_manifest "null" JNull);
    reflexivity.
Defined.

(** X3 on the sample project with an array for a manifest. *)
Lemma array_manifest_written_unchanged_sample :
  snd (@generatePackageJson_onEnd posix_array sample_array_manifest) = Ok tt /\
  read_at ["proj"; "dist"; "package.json"]
    (files (fst (@generatePackageJson_onEnd posix_array sample_array_manifest)))
  = Ok (@JSON_stringify posix_array (JArray [JNumber 1; JNumber 2] []) 2).
Proof.
  apply (@array_manifest_written_unchanged posix_array sample_array_manifest "[1, 2]"
           [JNumber 1; JNumber 2] []
           [("index.js", File "bundle"); ("favicon.ico", File "ICO-v1")]);
    reflexivity.
Defined.

(** X4 on the sample project: the source manifest is as it was. *)
Lemma generatePackageJson_onEnd_writes_one_file_sample :
  glance (lookup ["proj"; "package.json"]
            (files (fst (@generatePackageJson_onEnd posix_production sample_world)))) =
  glance (lookup ["proj"; "package.json"] (files sample_world)).
Proof.
  apply (@generatePackageJson_onEnd_writes_one_file posix_production sample_world
           ["proj"; "package.json"]).
  discriminate.
Defined.

(** X5 on the sample project before its first build. *)
Lemma generatePackageJson_onEnd_needs_dist_sample :
  @generatePackageJson_onEnd posix_production sample_unbuilt =
  ({| files := files sample_unbuilt;
      console := [LogError "Error generating package.json:" ENOENT] |},
   Ok tt).
Proof.
  apply (@generatePackageJson_onEnd_needs_dist posix_production sample_unbuilt
           (JObject [("name", JString "fs-developer-starter");
                     ("version", JString "1.0.0");
                     ("retries", JNumber 3);
                     ("browser", JString "index.js")]));
    reflexivity.
Defined.

(** ** The README hook *)

Lemma read_at_glance (p : path) (fs : node) (data : string) :
  read_at p fs = Ok data <-> glance (lookup p fs) = Some (Some data).
Proof.
  unfold read_at. destruct (lookup p fs) as [[d|es]|]; simpl; split; congruence.
Qed.

Section ReadmeMore.
Context {host : Host}.

Lemma readme_paths_differ :
  path_join rootDir "README.md" <> path_join distDir "README.md".
Proof.
  unfold distDir, path_join. rewrite <- app_assoc. intros H.
  apply app_inv_head in H. discriminate.
Qed.

(** A write opens its file where the directory is there and no directory
    has the file's name. *)
Lemma write_at_no_directory (p : path) (a data : string) :
  forall n : node,
    is_directory (lookup p n) = false ->
    exists e, write_at (path_join p a) data n = Threw e.
Proof.
  unfold path_join. induction p as [|s p IH]; intros n H.
  - destruct n as [old|es]; [|discriminate]. simpl. eauto.
  - destruct n as [old|es]; [simpl; eauto|].
    rewrite lookup_cons_Dir in H. simpl.
    destruct (Assoc.get s es) as [c|].
    + destruct (IH c H) as [e ->]. simpl. eauto.
    + destruct p; simpl; eauto.
Qed.

Lemma write_at_opens (p : path) (a data : string) (n : node) :
  match write_at (path_join p a) data n with
  | Ok _ =>
      is_directory (lookup p n) && negb (is_directory (lookup (path_join p a) n)) = true
  | _ =>
      is_directory (lookup p n) && negb (is_directory (lookup (path_join p a) n)) = false
  end.
Proof.
  destruct (lookup p n) as [[old|des]|] eqn:Hp.
  - destruct (write_at_no_directory p a data n) as [e ->]; [now rewrite Hp | reflexivity].
  - rewrite (lookup_child _ a _ _ Hp).
    destruct (Assoc.get a des) as [[old|ces]|] eqn:Ha.
    + rewrite (write_at_child _ a data _ _ Hp) by (rewrite Ha; discriminate). reflexivity.
    + rewrite (write_at_directory (path_join p a) data n ces)
        by now rewrite (lookup_child _ a _ _ Hp).
      reflexivity.
    + rewrite (write_at_child _ a data _ _ Hp) by (rewrite Ha; discriminate). reflexivity.
  - destruct (write_at_no_directory p a data n) as [e ->]; [now rewrite Hp | reflexivity].
Qed.

(** The README hook, outcome by outcome. *)
Lemma copyReadme_onEnd_run (w : world) :
  copyReadme_onEnd w =
  match copy_at (path_join rootDir "README.md") (path_join distDir "README.md") (files w) with
  | (fs', Ok _) =>
      ({| files := fs';
          console := console w ++ [Log "README.md copied to dist directory"] |}, Ok tt)
  | (fs', Threw e) =>
      ({| files := fs';
          console := console w ++ [LogError "Error copying README.md:" e] |}, Ok tt)
  | (fs', OutOfFuel) => ({| files := fs'; console := console w |}, OutOfFuel)
  end.
Proof.
  unfold copyReadme_onEnd, try_catch, bind, fs_call, copyFile.
  destruct (copy_at _ _ (files w)) as [fs' [[]| |]]; reflexivity.
Qed.

(** X6.  With a README at the project root and an output directory that
    has no directory of that name, the copy the README hook starts leaves
    in [dist/README.md] the bytes of the README, leaves the README itself
    as it was, and logs its success. *)
Theorem copyReadme_onEnd_copies (w : world) (data : string)
  (des : list (string * node)) :
  read_at (path_join rootDir "README.md") (files w) = Ok data ->
  lookup distDir (files w) = Some (Dir des) ->
  is_directory (Assoc.get "README.md" des) = false ->
  exists w',
    copyReadme_onEnd w = (w', Ok tt) /\
    read_at (path_join distDir "README.md") (files w') = Ok data /\
    read_at (path_join rootDir "README.md") (files w') = Ok data /\
    console w' = console w ++ [Log "README.md copied to dist directory"].
Proof.
  intros Hread Hdist Hfree. rewrite copyReadme_onEnd_run. unfold copy_at.
  pose proof Hread as Hsrc. unfold read_at in Hsrc.
  destruct (lookup (path_join rootDir "README.md") (files w)) as [[d|]|];
    try discriminate.
  injection Hsrc as ->. unfold update.
  pose proof (write_at_child _ "README.md" data _ _ Hdist (no_directory_slot _ _ Hfree)) as W.
  rewrite W. eexists. split; [reflexivity|]. cbn [files console].
  repeat split.
  - apply (write_at_read _ _ _ _ W).
  - apply read_at_glance. rewrite (write_at_glance _ _ _ _ _ W readme_paths_differ).
    now apply read_at_glance.
Qed.

(** The ways the README hook ends, and what it leaves alone. *)
Lemma copyReadme_onEnd_cases (w : world) :
  let source := path_join rootDir "README.md" in
  let target := path_join distDir "README.md" in
  let w' := fst (copyReadme_onEnd w) in
  snd (copyReadme_onEnd w) = Ok tt /\
  ((exists e,
       console w' = console w ++ [LogError "Error copying README.md:" e] /\
       if is_directory (lookup source (files w))
          && is_directory (lookup distDir (files w))
          && negb (is_directory (lookup target (files w)))
       then e = EISDIR /\ lookup target (files w') = None
       else files w' = files w) \/
   (exists data,
       read_at source (files w) = Ok data /\
       read_at target (files w') = Ok data /\
       console w' = console w ++ [Log "README.md copied to dist directory"])) /\
  (forall q,
      q <> target ->
      glance (lookup q (files w')) = glance (lookup q (files w))).
Proof.
  cbv zeta. split; [apply copyReadme_onEnd_returns|].
  rewrite copyReadme_onEnd_run. unfold copy_at.
  destruct (lookup (path_join rootDir "README.md") (files w)) as [[data|es]|] eqn:Hsrc.
  - unfold update.
    destruct (write_at (path_join distDir "README.md") data (files w)) as [fs'| e |] eqn:W;
      cbn [fst files console].
    + split.
      * right. exists data. repeat split; auto.
        -- unfold read_at. now rewrite Hsrc.
        -- apply (write_at_read _ _ _ _ W).
      * intros q Hq. eapply write_at_glance; eauto.
    + split; [left; exists e; split; reflexivity | reflexivity].
    + now destruct (write_at_ends _ _ _ W).
  - pose proof (write_at_opens distDir "README.md" EmptyString (files w)) as Hopen.
    destruct (write_at (path_join distDir "README.md") EmptyString (files w))
      as [opened| e |] eqn:W; cbn [fst files console].
    + split.
      * left. exists EISDIR. split; [reflexivity|].
        cbn [is_directory andb]. rewrite Hopen. split; [reflexivity|].
        apply (unlink_at_gone _ _ EmptyString).
        -- unfold path_join. destruct distDir; discriminate.
        -- pose proof (write_at_read _ _ _ _ W) as R. unfold read_at in R.
           destruct (lookup (path_join distDir "README.md") opened) as [[d|]|];
             try discriminate.
           now injection R as ->.
      * intros q Hq. rewrite (unlink_at_glance _ _ _ Hq). eapply write_at_glance; eauto.
    + split; [|reflexivity]. left. exists e. split; [reflexivity|].
      cbn [is_directory andb]. now rewrite Hopen.
    + now destruct (write_at_ends _ _ _ W).
  - cbn [fst files console].
    split; [left; exists ENOENT; split; reflexivity | reflexivity].
Qed.

(** X7.  The README hook never hands an error on and shows at one path
    only.  Either the copy goes through and the hook logs its success, or
    it fails and the hook logs the error.  A copy that fails leaves the
    file system as it was, but for one case: with a directory named
    [README.md] at the project root and an output directory in which the
    destination can be opened, the copy fails with [EISDIR] after the
    destination was opened, and [dist/README.md] is gone afterwards.  In
    every case a look at any path other than [dist/README.md] finds what
    was there before. *)
Theorem copyReadme_onEnd_contained (w : world) :
  let source := path_join rootDir "README.md" in
  let target := path_join distDir "README.md" in
  let w' := fst (copyReadme_onEnd w) in
  snd (copyReadme_onEnd w) = Ok tt /\
  ((exists e,
       console w' = console w ++ [LogError "Error copying README.md:" e] /\
       if is_directory (lookup source (files w))
          && is_directory (lookup distDir (files w))
          && negb (is_directory (lookup target (files w)))
       then e = EISDIR /\ lookup target (files w') = None
       else files w' = files w) \/
   (exists data,
       read_at source (files w) = Ok data /\
       read_at target (files w') = Ok data /\
       console w' = console w ++ [Log "README.md copied to dist directory"])) /\
  (forall q,
      q <> target ->
      glance (lookup q (files w')) = glance (lookup q (files w))).
Proof. exact (copyReadme_onEnd_cases w). Qed.

End ReadmeMore.

(** The one case on a sample: with a directory named [README.md] at the
    root, the older copy in the output directory is gone after the hook,
    and the bundle beside it is as it was. *)
Example copyReadme_onEnd_removes_stale_copy :
  let w' := fst (@copyReadme_onEnd posix_production sample_readme_is_directory) in
  lookup ["proj"; "dist"; "README.md"] (files sample_readme_is_directory)
  = Some (File "old") /\
  lookup ["proj"; "dist"; "README.md"] (files w') = None /\
  lookup ["proj"; "dist"; "index.js"] (files w') = Some (File "bundle") /\
  console w' = [LogError "Error copying README.md:" EISDIR].
Proof. repeat split. Qed.

(** X6 on the sample project. *)
Lemma copyReadme_onEnd_copies_sample :
  exists w',
    @copyReadme_onEnd posix_production sample_complete = (w', Ok tt) /\
    read_at ["proj"; "dist"; "README.md"] (files w') = Ok "# Starter"%string /\
    read_at ["proj"; "README.md"] (files w') = Ok "# Starter"%string /\
    console w' = [Log "README.md copied to dist directory"].
Proof.
  apply (@copyReadme_onEnd_copies posix_production sample_complete "# Starter"
           [("index.js", File "bundle"); ("favicon.ico", File "ICO-v1")]);
    reflexivity.
Defined.

(** ** The end of a build *)

Section BuildEndMore.
Context {host : Host}.

Lemma runOnEndCallbacks_returning (callbacks : list (St world unit)) :
  Forall (fun callback => forall w, snd (callback w) = Ok tt) callbacks ->
  forall w, snd (runOnEndCallbacks callbacks w) = Ok [].
Proof.
  induction 1 as [|callback rest Hcb _ IH]; intros w; [reflexivity|].
  cbn [runOnEndCallbacks]. unfold bind, try_catch, ret.
  specialize (Hcb w). destruct (callback w) as [w1 out1]. cbn [snd] in Hcb. subst out1.
  specialize (IH w1). destruct (runOnEndCallbacks rest w1) as [w2 out2].
  cbn [snd] in IH. subst out2. reflexivity.
Qed.

(** X8.  No hook lets an error escape: in either mode, with a budget
    above the depth of [public/], the callbacks run at the end of a build
    all return and add no error to the build result, whatever the state
    of the file system. *)
Theorem build_end_reports_no_error (fuel : nat) (w : world) :
  depth_at publicDir (files w) < fuel ->
  snd (build_end fuel w) = Ok [].
Proof.
  intros Hfuel. unfold build_end, plugins.
  pose proof (copyPublic_onEnd_returns fuel w Hfuel) as Hpub.
  assert (forall rest,
             Forall (fun callback : St world unit => forall w, snd (callback w) = Ok tt) rest ->
             snd (runOnEndCallbacks (copyPublic_onEnd fuel :: rest) w) = Ok []) as Hrun.
  { intros rest Hrest. cbn [runOnEndCallbacks]. unfold bind, try_catch, ret.
    destruct (copyPublic_onEnd fuel w) as [w1 out1]. cbn [snd] in Hpub. subst out1.
    pose proof (runOnEndCallbacks_returning rest Hrest w1) as H.
    destruct (runOnEndCallbacks rest w1) as [w2 out2]. cbn [snd] in H. subst out2.
    reflexivity. }
  destruct PRODUCTION; simpl registered; apply Hrun.
  - repeat constructor.
    + apply generatePackageJson_onEnd_returns.
    + apply copyReadme_onEnd_returns.
  - constructor.
Qed.

End BuildEndMore.

(** X8 on the sample project. *)
Lemma build_end_reports_no_error_sample :
  snd (@build_end posix_production 3 sample_complete) = Ok [].
Proof.
  apply (@build_end_reports_no_error posix_production 3 sample_complete).
  unfold depth_at. simpl. lia.
Defined.

(** ** The recursive directory copier *)

(** X9.  The copy takes nothing away.  However it ends, and wherever
    source and destination lie, every path that led to a file still leads
    to a file and every path that led to a directory still leads to a
    directory: nothing is removed and nothing changes its kind. *)
Theorem copyRecursive_keeps_kinds (fuel : nat) (src dest : path) (fs : node) :
  keeps_kinds fs (fst (copyRecursive fuel src dest fs)).
Proof.
  revert src dest fs. induction fuel as [|fuel IH]; intros src dest fs.
  - apply keeps_kinds_refl.
  - rewrite copyRecursive_S_plain. unfold bind at 1, readdir, query.
    destruct (readdir_at src fs) as [entries| |]; try apply keeps_kinds_refl.
    unfold bind at 1.
    destruct (mkdir dest fs) as [fs1 out1] eqn:M.
    apply mkdir_keeps_kinds in M.
    destruct out1 as [[]| |]; try exact M.
    apply (keeps_kinds_trans _ _ _ M). clear M fs.
    revert fs1. induction entries as [|entry rest IHl]; intros fs1.
    + apply keeps_kinds_refl.
    + simpl. unfold bind at 1.
      destruct (copy_entry_plain (copyRecursive fuel) src dest entry fs1) as [fs2 out2] eqn:Hstep.
      assert (keeps_kinds fs1 fs2) as Hk.
      { unfold copy_entry_plain in Hstep. destruct (isDirectory entry).
        - specialize (IH (path_join src (name entry)) (path_join dest (name entry)) fs1).
          now rewrite Hstep in IH.
        - eapply copy_plain_keeps_kinds; eauto. }
      destruct out2 as [[]| |]; try exact Hk.
      apply (keeps_kinds_trans _ _ _ Hk). apply IHl.
Qed.

(** X10.  The copy leaves its source alone.  However it ends, a copy to
    a destination apart from the source finds the source tree afterwards
    exactly as it was. *)
Theorem copyRecursive_source_unchanged (fuel : nat) (src dest : path) (fs : node)
  (rel : path) :
  apartb src dest = true ->
  lookup (src ++ rel) (fst (copyRecursive fuel src dest fs)) = lookup (src ++ rel) fs.
Proof.
  intros Hap. apply apartb_spec in Hap.
  destruct (copyRecursive fuel src dest fs) as [fs' out] eqn:Hrun.
  apply copyRecursive_same_apart in Hrun. cbn [fst].
  apply Hrun. apply apart_sym. now apply apart_below.
Qed.

(** X10 on the sample project. *)
Lemma copyRecursive_source_unchanged_sample :
  lookup (["proj"; "public"] ++ ["img"; "logo.png"])
    (fst (copyRecursive 2 ["proj"; "public"] ["proj"; "dist"] sample_fs))
  = lookup (["proj"; "public"] ++ ["img"; "logo.png"]) sample_fs.
Proof.
  apply (copyRecursive_source_unchanged 2 ["proj"; "public"] ["proj"; "dist"] sample_fs
           ["img"; "logo.png"]).
  reflexivity.
Defined.

(** *** The overlay keeps trees well formed *)

Lemma put_NoDup {V : Type} (key : string) (v : V) (l : list (string * V)) :
  NoDup (map fst l) -> NoDup (map fst (Assoc.put key v l)).
Proof.
  intros Hnd. rewrite keys_put.
  destruct (existsb (String.eqb key) (map fst l)) eqn:E; auto.
  apply NoDup_app; [assumption | repeat constructor; auto |].
  intros x Hx [Heq|[]]. subst x.
  assert (existsb (String.eqb key) (map fst l) = true) as Habs.
  { apply existsb_exists. exists key. split; auto. apply String.eqb_refl. }
  congruence.
Qed.

Lemma fold_overlay_NoDup (es des : list (string * node)) :
  NoDup (map fst des) -> NoDup (map fst (fold_left overlay_step es des)).
Proof.
  revert des. induction es as [|e rest IH]; intros des Hnd; simpl; auto.
  apply IH. unfold overlay_step. now apply put_NoDup.
Qed.

(** What holds of every overlaid source entry and of every entry the
    destination had holds of every entry of the overlay. *)
Lemma overlay_entries_all (P : string -> node -> Prop) (es des : list (string * node)) :
  NoDup (map fst es) ->
  NoDup (map fst des) ->
  (forall a c, In (a, c) es -> P a (overlay c (Assoc.get a des))) ->
  (forall a n, In (a, n) des -> P a n) ->
  forall a n, In (a, n) (fold_left overlay_step es des) -> P a n.
Proof.
  intros Hes Hdes Hsrc Hold a n Hin.
  apply get_of_In in Hin; [|now apply fold_overlay_NoDup].
  pose proof (get_overlay es (Some (Dir des)) a Hes) as Hget.
  rewrite overlay_Dir in Hget. cbn [entries_of] in Hget. rewrite Hin in Hget.
  destruct (Assoc.get a es) as [c|] eqn:E.
  - injection Hget as ->. apply Hsrc. now apply get_In.
  - apply Hold. apply get_In. congruence.
Qed.

Lemma unique_names_entries (es : list (string * node)) :
  unique_names (Dir es) = true <->
  NoDup (map fst es) /\ forall a n, In (a, n) es -> unique_names n = true.
Proof.
  simpl. rewrite andb_true_iff, distinct_NoDup, forallb_forall. split.
  - intros [Hnd Hall]. split; auto. intros a n Hin. apply (Hall (a, n) Hin).
  - intros [Hnd Hall]. split; auto. intros [a n] Hin. apply (Hall a n Hin).
Qed.

Lemma names_without_entries (c : ascii) (es : list (string * node)) :
  names_without c (Dir es) = true <->
  forall a n, In (a, n) es -> Str.contains c a = false /\ names_without c n = true.
Proof.
  simpl. rewrite forallb_forall. split.
  - intros Hall a n Hin. specialize (Hall (a, n) Hin). cbn [fst snd] in Hall.
    apply andb_true_iff in Hall. now rewrite negb_true_iff in Hall.
  - intros Hall [a n] Hin. destruct (Hall a n Hin) as [Ha Hn]. cbn [fst snd].
    now rewrite Ha, Hn.
Qed.

Lemma entries_of_slot (P : node -> bool) (d : option node) (a : string) (n : node)
  (HP : forall es, P (Dir es) = true -> forall a n, In (a, n) es -> P n = true) :
  if_there P d = true -> In (a, n) (entries_of d) -> P n = true.
Proof.
  destruct d as [[data|des]|]; simpl; try tauto.
  intros H Hin. eapply HP; eauto.
Qed.

Lemma unique_names_slot (d : option node) :
  if_there unique_names d = true -> NoDup (map fst (entries_of d)).
Proof.
  destruct d as [[data|des]|]; simpl; try (intros; constructor).
  intros H. apply andb_true_iff in H. now apply distinct_NoDup.
Qed.

(** The overlay of trees that name their entries once names its entries
    once. *)
Lemma overlay_unique_names (s : node) :
  forall d : option node,
    unique_names s = true ->
    if_there unique_names d = true ->
    unique_names (overlay s d) = true.
Proof.
  induction s as [data|es IH] using node_ind'; intros d Hs Hd; [reflexivity|].
  rewrite overlay_Dir. apply unique_names_entries.
  apply unique_names_entries in Hs. destruct Hs as [Hnd Hsub].
  pose proof (unique_names_slot d Hd) as Hdes.
  split; [now apply fold_overlay_NoDup|].
  rewrite Forall_forall in IH.
  apply (overlay_entries_all (fun _ n => unique_names n = true)); auto.
  - intros a c Hin. apply (IH (a, c) Hin); [now apply (Hsub a c)|].
    destruct (Assoc.get a (entries_of d)) as [dn|] eqn:E; [|reflexivity].
    apply get_In in E. simpl.
    apply (entries_of_slot unique_names d a dn); auto.
    intros es' H a' n' Hin'. apply unique_names_entries in H. now apply (proj2 H a' n').
  - intros a n Hin. apply (entries_of_slot unique_names d a n); auto.
    intros es' H a' n' Hin'. apply unique_names_entries in H. now apply (proj2 H a' n').
Qed.

(** The overlay of trees whose names lack a character has names that lack
    it. *)
Lemma overlay_names_without (c : ascii) (s : node) :
  forall d : option node,
    unique_names s = true ->
    if_there unique_names d = true ->
    names_without c s = true ->
    if_there (names_without c) d = true ->
    names_without c (overlay s d) = true.
Proof.
  induction s as [data|es IH] using node_ind'; intros d Hs Hd Hns Hnd; [reflexivity|].
  rewrite overlay_Dir. apply names_without_entries.
  apply unique_names_entries in Hs. destruct Hs as [Hnodup Hsub].
  pose proof (unique_names_slot d Hd) as Hdes.
  rewrite Forall_forall in IH.
  assert (forall a n, In (a, n) (entries_of d) ->
                      unique_names n = true /\ Str.contains c a = false /\
                      names_without c n = true) as Hold.
  { intros a n Hin. destruct d as [[data|des]|]; simpl in Hin; try tauto.
    simpl in Hd, Hnd. apply unique_names_entries in Hd.
    split; [now apply (proj2 Hd a n)|].
    now apply (proj1 (names_without_entries c des) Hnd a n). }
  apply (overlay_entries_all
           (fun a n => Str.contains c a = false /\ names_without c n = true)); auto.
  - intros a n Hin.
    destruct (proj1 (names_without_entries c es) Hns a n Hin) as [Ha Hn].
    split; auto.
    apply (IH (a, n) Hin); auto; [now apply (Hsub a n)| |].
    + destruct (Assoc.get a (entries_of d)) as [dn|] eqn:E; [|reflexivity].
      apply get_In in E. simpl. now destruct (Hold a dn E).
    + destruct (Assoc.get a (entries_of d)) as [dn|] eqn:E; [|reflexivity].
      apply get_In in E. simpl. now destruct (Hold a dn E) as (_ & _ & H).
  - intros a n Hin. now destruct (Hold a n Hin) as (_ & Ha & Hn).
Qed.

Lemma list_max_bound (l : list nat) (b : nat) :
  (forall x, In x l -> x <= b) -> list_max l <= b.
Proof.
  induction l as [|y l IH]; simpl; intros H; [lia|].
  assert (y <= b) by (apply H; now left).
  assert (list_max l <= b) by (apply IH; intros x Hx; apply H; now right).
  lia.
Qed.

(** The overlay is no deeper than the deeper of the two trees. *)
Lemma overlay_depth (s : node) :
  forall (d : option node) (b : nat),
    unique_names s = true ->
    if_there unique_names d = true ->
    depth s <= b ->
    if_there (fun dn => Nat.leb (depth dn) b) d = true ->
    depth (overlay s d) <= b.
Proof.
  induction s as [data|es IH] using node_ind'; intros d b Hs Hd Hsb Hdb; [simpl; lia|].
  rewrite overlay_Dir.
  apply unique_names_entries in Hs. destruct Hs as [Hnodup Hsub].
  pose proof (unique_names_slot d Hd) as Hdes.
  rewrite Forall_forall in IH.
  destruct b as [|b]; [simpl in Hsb; lia|].
  simpl in Hsb. apply le_S_n in Hsb.
  assert (forall a n, In (a, n) (entries_of d) ->
                      unique_names n = true /\ depth n <= b) as Hold.
  { intros a n Hin. destruct d as [[data|des]|]; simpl in Hin; try tauto.
    simpl in Hd, Hdb. apply unique_names_entries in Hd.
    split; [now apply (proj2 Hd a n)|].
    destruct (list_max (map (fun e => depth (snd e)) des)) eqn:E in Hdb.
    - assert (depth n <= list_max (map (fun e => depth (snd e)) des)) as H
          by (apply list_max_In; now apply (in_map (fun e => depth (snd e)) _ (a, n))).
      lia.
    - apply Nat.leb_le in Hdb.
      assert (depth n <= list_max (map (fun e => depth (snd e)) des)) as H
          by (apply list_max_In; now apply (in_map (fun e => depth (snd e)) _ (a, n))).
      lia. }
  cbn [depth]. apply le_n_S. apply list_max_bound.
  intros x Hx. apply in_map_iff in Hx. destruct Hx as [[a n] [<- Hin]]. cbn [snd].
  revert a n Hin.
  apply (overlay_entries_all (fun _ n => depth n <= b)); auto.
  - intros a c Hin. apply (IH (a, c) Hin); auto.
    + now apply (Hsub a c).
    + destruct (Assoc.get a (entries_of d)) as [dn|] eqn:E; [|reflexivity].
      apply get_In in E. simpl. now destruct (Hold a dn E).
    + etransitivity; [|exact Hsb].
      apply list_max_In. now apply (in_map (fun e => depth (snd e)) _ (a, c)).
    + destruct (Assoc.get a (entries_of d)) as [dn|] eqn:E; [|reflexivity].
      apply get_In in E. simpl. apply Nat.leb_le. now destruct (Hold a dn E).
  - intros a n Hin. now destruct (Hold a n Hin).
Qed.

(** *** Copying twice *)

Lemma overlay_again (s : node) :
  forall d : option node,
    unique_names s = true ->
    overlay s (Some (overlay s d)) = overlay s d.
Proof.
  induction s as [data|es IH] using node_ind'; intros d Hs; [reflexivity|].
  apply unique_names_entries in Hs. destruct Hs as [Hnd Hsub].
  rewrite Forall_forall in IH.
  rewrite (overlay_Dir es (Some _)), (overlay_Dir es d). cbn [entries_of]. f_equal.
  set (L := fold_left overlay_step es (entries_of d)).
  assert (forall l, incl l es -> fold_left overlay_step l L = L) as Hfix.
  { induction l as [|[a c] l IHl]; intros Hincl; [reflexivity|].
    assert (In (a, c) es) as Hin by (apply Hincl; now left).
    cbn [fold_left]. unfold overlay_step at 2. cbn [fst snd].
    assert (Assoc.get a L = Some (overlay c (Assoc.get a (entries_of d)))) as Hget
        by (unfold L; now apply fold_overlay_entry).
    rewrite Hget, (IH (a, c) Hin) by now apply (Hsub a c).
    cbn [snd]. rewrite (put_get_id _ _ _ Hget).
    apply IHl. intros x Hx. apply Hincl. now right. }
  apply Hfix, incl_refl.
Qed.

Lemma compatible_overlay (s : node) :
  forall d : option node,
    unique_names s = true ->
    compatible s (Some (overlay s d)) = true.
Proof.
  induction s as [data|es IH] using node_ind'; intros d Hs; [reflexivity|].
  apply unique_names_entries in Hs. destruct Hs as [Hnd Hsub].
  rewrite Forall_forall in IH. rewrite overlay_Dir. cbn [compatible].
  apply forallb_forall. intros [a c] Hin. cbn [fst snd].
  rewrite (fold_overlay_entry es _ a c Hnd Hin).
  apply (IH (a, c) Hin). now apply (Hsub a c).
Qed.

(** X11.  Copying twice is copying once: after a copy that went
    through, the same copy goes through again and changes nothing. *)
Theorem copyRecursive_twice (fuel : nat) (src dest : path) (fs : node)
  (es : list (string * node)) :
  lookup src fs = Some (Dir es) ->
  unique_names (Dir es) = true ->
  apartb src dest = true ->
  creatable dest fs = true ->
  compatible (Dir es) (lookup dest fs) = true ->
  depth (Dir es) <= fuel ->
  let fs' := fst (copyRecursive fuel src dest fs) in
  snd (copyRecursive fuel src dest fs) = Ok tt /\
  copyRecursive fuel src dest fs' = (fs', Ok tt).
Proof.
  intros Hsrc Huniq Hap Hc Hcompat Hdepth. cbv zeta. apply apartb_spec in Hap.
  rewrite (copyRecursive_overlay fuel _ _ _ es Hsrc Huniq Hap Hc Hcompat Hdepth).
  cbn [fst snd]. split; [reflexivity|].
  set (O := overlay (Dir es) (lookup dest fs)).
  assert (lookup dest (graft dest O fs) = Some O) as Hdest by now apply lookup_graft_same.
  rewrite (copyRecursive_overlay fuel src dest (graft dest O fs) es); auto.
  - rewrite Hdest. unfold O at 1. rewrite overlay_again by assumption.
    now rewrite graft_graft.
  - rewrite lookup_graft_apart; auto. now apply apart_sym.
  - unfold O in Hdest. rewrite overlay_Dir in Hdest. eapply creatable_lookup_Dir; eauto.
  - rewrite Hdest. now apply compatible_overlay.
Qed.

(** X11 on the sample project. *)
Lemma copyRecursive_twice_sample :
  let fs' := fst (copyRecursive 2 ["proj"; "public"] ["proj"; "dist"] sample_fs) in
  snd (copyRecursive 2 ["proj"; "public"] ["proj"; "dist"] sample_fs) = Ok tt /\
  copyRecursive 2 ["proj"; "public"] ["proj"; "dist"] fs' = (fs', Ok tt).
Proof.
  apply (copyRecursive_twice 2 ["proj"; "public"] ["proj"; "dist"] sample_fs
           sample_public_entries);
    [reflexivity | reflexivity | reflexivity | reflexivity | reflexivity | simpl; lia].
Defined.

(** ** The public-directory hook *)

Section PublicMore.
Context {host : Host}.

(** X12.  When [public] is there but the copy cannot start, because
    [public] is a file or because a file stands where the output directory
    should be, the hook logs the error of the first failing call and
    leaves the file system as it was. *)
Theorem copyPublic_onEnd_blocked (fuel : nat) (w : world) :
  exists_at publicDir (files w) = true ->
  is_file (lookup publicDir (files w)) || negb (creatable distDir (files w)) = true ->
  exists e,
    copyPublic_onEnd (S fuel) w =
    ({| files := files w;
        console := console w ++ [LogError "Error in copyPublicPlugin:" e] |}, Ok tt).
Proof.
  intros Hex Hblock.
  assert (exists e,
             copyRecursive (S fuel) publicDir distDir (files w) = (files w, Threw e))
    as [e Hrun].
  { rewrite copyRecursive_S. unfold bind at 1, readdir, query, readdir_at.
    unfold exists_at in Hex.
    destruct (lookup publicDir (files w)) as [[data|es]|]; try discriminate.
    - eexists. reflexivity.
    - simpl in Hblock. apply negb_true_iff in Hblock.
      destruct (mkdir_at_blocked _ _ Hblock) as [e He].
      exists e. unfold bind at 1, mkdir, update. now rewrite He. }
  exists e. unfold copyPublic_onEnd, try_catch, bind, fs_call, access, query.
  rewrite Hex. cbn [files console]. rewrite Hrun. reflexivity.
Qed.

End PublicMore.

(** X12 on the sample project with a file named [dist]. *)
Lemma copyPublic_onEnd_blocked_sample :
  exists e,
    @copyPublic_onEnd posix_production 3 sample_dist_is_file =
    ({| files := files sample_dist_is_file;
        console := [LogError "Error in copyPublicPlugin:" e] |}, Ok tt).
Proof.
  apply (@copyPublic_onEnd_blocked posix_production 2 sample_dist_is_file); reflexivity.
Defined.

(** ** The reporter *)

Lemma leaf_files_below (es : list (string * node)) (rel : path) :
  In rel (leaf_files (Dir es)) -> rel <> [].
Proof.
  cbn [leaf_files]. rewrite in_flat_map. intros [e [_ Hin]].
  apply in_map_iff in Hin. destruct Hin as [r [<- _]]. discriminate.
Qed.

Lemma map_result_map {A B C : Type} (f : B -> result C) (g : A -> B) (h : A -> C)
  (l : list A) :
  (forall x, In x l -> f (g x) = Ok (h x)) ->
  map_result f (map g l) = Ok (map h l).
Proof.
  induction l as [|x l IH]; intros H; [reflexivity|].
  cbn [map map_result]. rewrite (H x) by now left.
  cbn [result_bind]. rewrite IH by (intros y Hy; apply H; now right).
  reflexivity.
Qed.

Lemma string_app_inv_head (a x y : string) :
  (a ++ x)%string = (a ++ y)%string -> x = y.
Proof. induction a as [|c a IH]; simpl; [auto|]. intros [= H]. auto. Qed.

(** Joining segments that have no glue character in them loses
    nothing. *)
Lemma join_injective (c : ascii) (origin : string) (rel1 rel2 : list string) :
  rel1 <> [] -> rel2 <> [] ->
  Forall (fun s => Str.contains c s = false) rel1 ->
  Forall (fun s => Str.contains c s = false) rel2 ->
  Str.join (String c EmptyString) (origin :: rel1) =
  Str.join (String c EmptyString) (origin :: rel2) ->
  rel1 = rel2.
Proof.
  intros H1 H2 F1 F2 Heq.
  destruct rel1 as [|x1 r1]; [congruence|]. destruct rel2 as [|x2 r2]; [congruence|].
  unfold Str.join in Heq. cbn [String.concat] in Heq.
  apply string_app_inv_head in Heq. apply string_app_inv_head in Heq.
  change (String.concat (String c EmptyString) (x1 :: r1) =
          String.concat (String c EmptyString) (x2 :: r2)) in Heq.
  pose proof (split_join c (x1 :: r1) H1 F1) as E1.
  pose proof (split_join c (x2 :: r2) H2 F2) as E2.
  unfold Str.join in E1, E2. congruence.
Qed.

Section ReporterMore.
Context {host : Host}.

(** The table of the reporter, row by row. *)
Lemma logServedFiles_rows (fuel : nat) (w : world) (es : list (string * node)) :
  sep = "/"%char \/ sep = "\"%char ->
  lookup (cwd ++ [BUILD_DIRECTORY]) (files w) = Some (Dir es) ->
  unique_names (Dir es) = true ->
  names_without sep (Dir es) = true ->
  depth (Dir es) <= fuel ->
  logServedFiles fuel w =
  ({| files := files w;
      console :=
        console w ++ [Table (filter_Boolean (map row_of (leaf_files (Dir es))))] |},
   Ok tt).
Proof.
  intros Hsep Hdir Huniq Hnames Hdepth.
  assert (Str.contains sep BUILD_DIRECTORY = false) as Hd
      by (destruct Hsep as [-> | ->]; reflexivity).
  unfold logServedFiles, bind.
  rewrite (getFiles_leaf_files fuel (files w) BUILD_DIRECTORY es); auto;
    [|now rewrite (split_one _ _ Hd)].
  unfold lift_result, filesInfo.
  rewrite (map_result_map file_info
             (fun rel => Path (fold_left join rel BUILD_DIRECTORY)) row_of);
    [reflexivity|].
  intros rel Hin. rewrite fold_join.
  apply (file_info_by_suffix BUILD_DIRECTORY rel Hsep); auto.
  - eapply leaf_files_below; eauto.
  - eapply leaf_files_names; eauto.
Qed.

(** X13.  What the reporter prints.  For an output directory tree with
    names unique in each directory and free of the separator, the reporter
    prints one table and returns; the table has, in the order of the
    listing, one row for each file whose name does not end in [.map],
    with the location made of the origin and the file's relative path. *)
Theorem logServedFiles_table (fuel : nat) (w : world) (es : list (string * node)) :
  sep = "/"%char \/ sep = "\"%char ->
  lookup (cwd ++ [BUILD_DIRECTORY]) (files w) = Some (Dir es) ->
  unique_names (Dir es) = true ->
  names_without sep (Dir es) = true ->
  depth (Dir es) <= fuel ->
  logServedFiles fuel w =
  ({| files := files w;
      console :=
        console w ++ [Table (filter_Boolean (map row_of (leaf_files (Dir es))))] |},
   Ok tt).
Proof. exact (logServedFiles_rows fuel w es). Qed.

(** X14.  The reporter does not catch anything: when the directory it
    is to list is missing it throws [ENOENT], when a file has its name it
    throws [ENOTDIR], and in both cases it prints nothing. *)
Theorem logServedFiles_without_output (fuel : nat) (w : world) :
  is_directory (lookup served_directory (files w)) = false ->
  logServedFiles (S fuel) w =
  (w, Threw (if is_file (lookup served_directory (files w)) then ENOTDIR else ENOENT)).
Proof.
  intros H. unfold logServedFiles, bind. cbn [getFiles].
  unfold readdirSync, readdir_at.
  change (cwd ++ Str.split sep BUILD_DIRECTORY) with served_directory.
  destruct (lookup served_directory (files w)) as [[data|es]|]; try discriminate;
    reflexivity.
Qed.

(** X15.  Different files get different locations: for names free of
    the separator and of the slash, two different files of the output
    directory are never served under the same URL. *)
Theorem locations_are_distinct (es : list (string * node)) (rel1 rel2 : path) :
  Str.contains sep BUILD_DIRECTORY = false ->
  names_without sep (Dir es) = true ->
  names_without "/" (Dir es) = true ->
  In rel1 (leaf_files (Dir es)) ->
  In rel2 (leaf_files (Dir es)) ->
  rel1 <> rel2 ->
  location_of (Str.join sep_string (BUILD_DIRECTORY :: rel1)) <>
  location_of (Str.join sep_string (BUILD_DIRECTORY :: rel2)).
Proof.
  intros Hd Hsep Hslash H1 H2 Hne Heq. apply Hne.
  rewrite !location_of_join in Heq; auto;
    try (eapply leaf_files_names; eauto).
  apply (join_injective "/" SERVE_ORIGIN); auto;
    try (eapply leaf_files_below; eauto);
    try (eapply leaf_files_names; eauto).
Qed.

(** X16.  The directory esbuild writes to and serves is [outdir] taken
    from the working directory, while the hooks write to [dist] beside the
    directory of the script: the two are the same directory exactly when
    the script is run from the project root. *)
Theorem served_directory_is_distDir (Hsep : Str.contains sep BUILD_DIRECTORY = false) :
  served_directory = distDir <-> cwd = rootDir.
Proof.
  unfold served_directory, distDir, path_join. cbn [outdir context_options].
  rewrite (split_one _ _ Hsep). split.
  - apply app_inv_tail.
  - now intros ->.
Qed.

End ReporterMore.

(** X13 on the POSIX host and the nested output directory. *)
Lemma logServedFiles_table_posix :
  @logServedFiles posix_development 3 {| files := sample_output; console := [] |} =
  ({| files := sample_output;
      console :=
        [Table (filter_Boolean
                  (map row_of
                       (leaf_files (Dir sample_output_entries))))] |},
   Ok tt).
Proof.
  apply (@logServedFiles_table posix_development 3
           {| files := sample_output; console := [] |} sample_output_entries);
    [left; reflexivity | reflexivity | reflexivity | reflexivity | simpl; lia].
Defined.

(** X14 on the sample project before its first build. *)
Lemma logServedFiles_without_output_sample :
  @logServedFiles posix_development 1 sample_unbuilt = (sample_unbuilt, Threw ENOENT).
Proof.
  apply (@logServedFiles_without_output posix_development 0 sample_unbuilt). reflexivity.
Defined.

(** X15 on the POSIX host: the script and the logo. *)
Lemma locations_are_distinct_posix :
  @location_of posix_development "dist/app.js" <>
  @location_of posix_development "dist/assets/logo.png".
Proof.
  apply (@locations_are_distinct posix_development sample_output_entries
           ["app.js"] ["assets"; "logo.png"]);
    [reflexivity | reflexivity | reflexivity
    | simpl; tauto | simpl; tauto | discriminate].
Defined.

(** X16 on a host that runs the script from the project root, and on
    one that does not. *)
Lemma served_directory_is_distDir_posix :
  @served_directory posix_development = @distDir posix_development <->
  @cwd posix_development = @rootDir posix_development.
Proof. apply (@served_directory_is_distDir posix_development). reflexivity. Defined.

Example served_directory_elsewhere :
  @served_directory posix_elsewhere = ["elsewhere"; "dist"] /\
  @distDir posix_elsewhere = ["proj"; "dist"].
Proof. split; reflexivity. Qed.

(** ** A whole build *)

Lemma filter_Boolean_In {A B : Type} (f : A -> option B) (l : list A) (x : A) (y : B) :
  In x l -> f x = Some y -> In y (filter_Boolean (map f l)).
Proof.
  intros Hin Hf. unfold filter_Boolean. apply in_flat_map.
  exists (Some y). split; [|now left].
  rewrite <- Hf. now apply in_map.
Qed.

Lemma runOnEndCallbacks_step (callback : St world unit) (rest : list (St world unit))
  (w w1 : world) :
  callback w = (w1, Ok tt) ->
  runOnEndCallbacks (callback :: rest) w = runOnEndCallbacks rest w1.
Proof.
  intros H. cbn [runOnEndCallbacks]. unfold bind, try_catch, ret. rewrite H.
  destruct (runOnEndCallbacks rest w1) as [w2 [more| |]]; reflexivity.
Qed.

Section WholeBuild.
Context {host : Host}.

Lemma depth_at_slot (p : path) (fs : node) (b : nat) :
  depth_at p fs <= b -> if_there (fun dn => Nat.leb (depth dn) b) (lookup p fs) = true.
Proof.
  unfold depth_at. destruct (lookup p fs); simpl; [apply Nat.leb_le | reflexivity].
Qed.

(** X17.  What the hook copies, the reporter lists.  When the script is
    run from the project root on a well-formed tree and the copy of
    [public/] can go through, the reporter run on the state that the end
    of a development build leaves prints a table that has the row of every
    file of [public/] whose name does not end in [.map], served from the
    origin under its path relative to [public/]. *)
Theorem development_build_is_reported (fuel : nat) (w : world)
  (es : list (string * node)) :
  PRODUCTION = false ->
  cwd = rootDir ->
  sep = "/"%char \/ sep = "\"%char ->
  lookup publicDir (files w) = Some (Dir es) ->
  unique_names (Dir es) = true ->
  names_without sep (Dir es) = true ->
  depth (Dir es) <= fuel ->
  creatable distDir (files w) = true ->
  compatible (Dir es) (lookup distDir (files w)) = true ->
  if_there unique_names (lookup distDir (files w)) = true ->
  if_there (names_without sep) (lookup distDir (files w)) = true ->
  depth_at distDir (files w) <= fuel ->
  exists w1 rows,
    build_end fuel w = (w1, Ok []) /\
    logServedFiles fuel w1 =
      ({| files := files w1; console := console w1 ++ [Table rows] |}, Ok tt) /\
    (forall rel data row,
        lookup rel (Dir es) = Some (File data) ->
        row_of rel = Some row ->
        In row rows).
Proof.
  intros Hdev Hcwd Hsep Hsrc Huniq Hnames Hdepth Hc Hcompat Hdu Hdn Hdd.
  unfold build_end, plugins. rewrite Hdev. simpl registered.
  rewrite (runOnEndCallbacks_step _ _ _ _
             (copyPublic_onEnd_copies fuel w es Hsrc Huniq Hc Hcompat Hdepth)).
  cbn [runOnEndCallbacks]. unfold ret.
  set (O := fold_left overlay_step es (entries_of (lookup distDir (files w)))).
  assert (overlay (Dir es) (lookup distDir (files w)) = Dir O) as HO by apply overlay_Dir.
  eexists. exists (filter_Boolean (map row_of (leaf_files (Dir O)))).
  split; [reflexivity|].
  assert (unique_names (Dir O) = true) as HuO
      by (rewrite <- HO; now apply overlay_unique_names).
  split.
  - apply (logServedFiles_rows fuel _ O); auto; cbn [files].
    + rewrite Hcwd. change (rootDir ++ [BUILD_DIRECTORY]) with distDir.
      rewrite HO. now apply lookup_graft_same.
    + rewrite <- HO. now apply overlay_names_without.
    + rewrite <- HO. apply overlay_depth; auto. now apply depth_at_slot.
  - intros rel data row Hrel Hrow.
    apply (filter_Boolean_In row_of _ rel); auto.
    apply leaf_files_spec; auto.
    rewrite <- HO, (overlay_has_source_files _ _ _ _ Huniq Hrel). reflexivity.
Qed.

Lemma output_paths_differ :
  path_join distDir "package.json" <> path_join distDir "README.md".
Proof. unfold path_join. intros H. apply app_inv_head in H. discriminate. Qed.

(** X18.  The order of the hooks decides a clash.  In a production
    build the manifest hook runs after the copy of [public/], so when the
    copy goes through and the manifest trims to [M'], the build ends with
    no error and [dist/package.json] holds the text of [M'], also when
    [public/] has a [package.json] file of its own. *)
Theorem production_build_writes_trimmed_manifest (fuel : nat) (w : world)
  (es : list (string * node)) (M' : value number) :
  PRODUCTION = true ->
  lookup publicDir (files w) = Some (Dir es) ->
  unique_names (Dir es) = true ->
  creatable distDir (files w) = true ->
  compatible (Dir es) (lookup distDir (files w)) = true ->
  depth (Dir es) <= fuel ->
  trimmed_manifest (files w) = Ok M' ->
  is_directory (Assoc.get "package.json" es) = false ->
  is_directory (Assoc.get "package.json" (entries_of (lookup distDir (files w)))) = false ->
  snd (build_end fuel w) = Ok [] /\
  read_at (path_join distDir "package.json") (files (fst (build_end fuel w)))
  = Ok (JSON_stringify M' 2).
Proof.
  intros Hprod Hsrc Huniq Hc Hcompat Hdepth HM Hsrcslot Hdistslot.
  unfold build_end, plugins. rewrite Hprod. simpl registered.
  rewrite (runOnEndCallbacks_step _ _ _ _
             (copyPublic_onEnd_copies fuel w es Hsrc Huniq Hc Hcompat Hdepth)).
  set (w1 := {| files := graft distDir _ (files w); console := _ |}).
  set (O := fold_left overlay_step es (entries_of (lookup distDir (files w)))).
  assert (lookup distDir (files w1) = Some (Dir O)) as Hdist1.
  { unfold w1. cbn [files]. rewrite overlay_Dir. now apply lookup_graft_same. }
  assert (trimmed_manifest (files w1) = Ok M') as HM1.
  { rewrite <- HM. unfold w1, trimmed_manifest, read_at. cbn [files].
    now rewrite (lookup_graft_apart _ _ _ _ distDir_apart_manifest). }
  assert (is_directory (Assoc.get "package.json" O) = false) as Hslot1.
  { apply unique_names_entries in Huniq. destruct Huniq as [Hnd _].
    pose proof (get_overlay es (lookup distDir (files w)) "package.json" Hnd) as Hget.
    rewrite overlay_Dir in Hget. cbn [entries_of] in Hget. fold O in Hget.
    rewrite Hget.
    destruct (Assoc.get "package.json" es) as [[data|ces]|]; auto; discriminate. }
  pose proof (write_at_child _ "package.json" (JSON_stringify M' 2) _ _ Hdist1
                (no_directory_slot _ _ Hslot1)) as W.
  assert (generatePackageJson_onEnd w1 =
          ({| files := graft distDir
                         (Dir (Assoc.put "package.json" (File (JSON_stringify M' 2)) O))
                         (files w1);
              console := console w1 ++ [Log "package.json generated in dist directory"] |},
           Ok tt)) as Hgen.
  { rewrite generatePackageJson_onEnd_run, HM1, W. reflexivity. }
  rewrite (runOnEndCallbacks_step _ _ _ _ Hgen).
  set (w2 := {| files := graft distDir _ (files w1); console := _ |}).
  destruct (copyReadme_onEnd_cases w2) as (Hret & _ & Hframe).
  destruct (copyReadme_onEnd w2) as [w3 out3] eqn:Hreadme. cbn [fst snd] in Hret, Hframe.
  subst out3. rewrite (runOnEndCallbacks_step _ _ _ _ Hreadme).
  cbn [runOnEndCallbacks]. unfold ret. cbn [fst snd]. split; [reflexivity|].
  apply read_at_glance. rewrite (Hframe _ output_paths_differ).
  apply read_at_glance. unfold w2. cbn [files]. apply (write_at_read _ _ _ _ W).
Qed.

End WholeBuild.

(** X17 on the sample project. *)
Lemma development_build_is_reported_sample :
  exists w1 rows,
    @build_end posix_development 2 sample_world = (w1, Ok []) /\
    @logServedFiles posix_development 2 w1 =
      ({| files := files w1; console := console w1 ++ [Table rows] |}, Ok tt) /\
    (forall rel data row,
        lookup rel (Dir sample_public_entries) = Some (File data) ->
        row_of rel = Some row ->
        In row rows).
Proof.
  apply (@development_build_is_reported posix_development 2 sample_world
           sample_public_entries);
    try reflexivity; try (left; reflexivity); try (unfold depth_at; simpl; lia).
Defined.

(** X18 on the sample project with a [package.json] in [public/]. *)
Lemma production_build_writes_trimmed_manifest_sample :
  snd (@build_end posix_production 1 sample_shadowed) = Ok [] /\
  read_at ["proj"; "dist"; "package.json"]
    (files (fst (@build_end posix_production 1 sample_shadowed)))
  = Ok sample_trimmed_text.
Proof.
  apply (@production_build_writes_trimmed_manifest posix_production 1 sample_shadowed
           sample_public_shadowing
           (JObject [("name", JString "fs-developer-starter");
                     ("version", JString "1.0.0");
                     ("retries", JNumber 3);
                     ("browser", JString "index.js")]));
    reflexivity.
Defined.

(** ** What a copy can put in place *)

Lemma mkdir_at_makes_no_file (p : path) :
  forall (n n' : node) (q : path) (data : string),
    mkdir_at p n = Ok n' ->
    lookup q n' = Some (File data) ->
    lookup q n = Some (File data).
Proof.
  induction p as [|s p IH]; intros n n' q data Hmk Hq.
  - destruct n; simpl in Hmk; [discriminate|]. now injection Hmk as <-.
  - destruct n as [|es]; simpl in Hmk; [discriminate|].
    destruct (mkdir_at p _) as [c'| |] eqn:Hc in Hmk; simpl in Hmk; try discriminate.
    injection Hmk as <-.
    destruct q as [|t q]; [discriminate|].
    rewrite lookup_cons_Dir in *.
    destruct (string_dec t s) as [->|Hne].
    + rewrite get_put_same in Hq.
      destruct (Assoc.get s es) as [c|].
      * now apply (IH c c').
      * specialize (IH _ _ _ _ Hc Hq). destruct q; discriminate.
    + now rewrite get_put_other in Hq.
Qed.

Lemma only_copies_refl (src dest : path) (fs0 fs : node) : only_copies src dest fs0 fs fs.
Proof. intros q data Hq. now left. Qed.

Lemma only_copies_trans (src dest : path) (fs0 fs1 fs2 fs3 : node) :
  only_copies src dest fs0 fs1 fs2 ->
  only_copies src dest fs0 fs2 fs3 ->
  only_copies src dest fs0 fs1 fs3.
Proof.
  intros H12 H23 q data Hq.
  destruct (H23 q data Hq) as [H2|Hw]; [|now right].
  now apply H12.
Qed.

Lemma copyRecursive_only_copies (fuel : nat) :
  forall (src dest : path) (fs fs' : node) (out : result unit),
    apart src dest ->
    copyRecursive fuel src dest fs = (fs', out) ->
    only_copies src dest fs fs fs'.
Proof.
  induction fuel as [|fuel IH]; intros src dest fs fs' out Hap H.
  - injection H as <- _. apply only_copies_refl.
  - rewrite copyRecursive_S_plain in H. unfold bind at 1, readdir, query in H.
    destruct (readdir_at src fs) as [entries| |];
      try (injection H as <- _; apply only_copies_refl).
    unfold bind at 1 in H.
    destruct (mkdir dest fs) as [fs1 out1] eqn:M.
    assert (same_apart dest fs fs1) as Hsame by (eapply mkdir_same_apart; eauto).
    assert (only_copies src dest fs fs fs1) as Honly.
    { unfold mkdir, update in M.
      destruct (mkdir_at dest fs) as [n'| |] eqn:Mk; injection M as <- _;
        try apply only_copies_refl.
      intros q data Hq. left. eapply mkdir_at_makes_no_file; eauto. }
    destruct out1 as [[]| |]; try (injection H as <- _; assumption).
    apply (only_copies_trans _ _ _ _ _ _ Honly). clear Honly M.
    revert fs1 Hsame H. induction entries as [|entry rest IHl]; intros fs1 Hsame H.
    + injection H as <- _. apply only_copies_refl.
    + simpl in H. unfold bind at 1 in H.
      destruct (copy_entry_plain (copyRecursive fuel) src dest entry fs1) as [fs2 out2] eqn:Hstep.
      assert (same_apart dest fs1 fs2 /\ only_copies src dest fs fs1 fs2) as [Hs Hk].
      { unfold copy_entry_plain in Hstep. destruct (isDirectory entry).
        - split.
          + apply copyRecursive_same_apart in Hstep. eapply same_apart_child; eauto.
          + apply IH in Hstep; [|now apply apart_join].
            intros q data Hq. destruct (Hstep q data Hq) as [Hq'|[rel [-> Hrel]]]; [now left|].
            right. exists (name entry :: rel). unfold path_join in *.
            rewrite <- !app_assoc in *. simpl in *. split; auto.
            rewrite <- Hrel. symmetry. apply Hsame.
            apply apart_sym. now apply apart_below.
        - split.
          + apply copy_plain_same_apart in Hstep. eapply same_apart_child; eauto.
          + unfold copy_plain, update, read_at in Hstep.
            destruct (lookup (path_join src (name entry)) fs1) as [[data0|?]|] eqn:Hsrc;
              simpl in Hstep; try (injection Hstep as <- _; apply only_copies_refl).
            destruct (write_at _ data0 fs1) as [n'| |] eqn:W; injection Hstep as <- _;
              try apply only_copies_refl.
            intros q data Hq.
            destruct (list_eq_dec string_dec q (path_join dest (name entry))) as [->|Hne].
            * right. exists [name entry]. split; auto.
              pose proof (write_at_read _ _ _ _ W) as R. unfold read_at in R.
              rewrite Hq in R. injection R as ->.
              unfold path_join in Hsrc. rewrite <- Hsame, Hsrc; auto.
              apply apart_sym. now apply apart_below.
            * left. pose proof (write_at_glance _ _ _ _ _ W Hne) as G.
              rewrite Hq in G. simpl in G.
              destruct (lookup q fs1) as [[d|]|]; simpl in G; congruence. }
      destruct out2 as [[]| |]; try (injection H as <- _; assumption).
      apply (only_copies_trans _ _ _ _ _ _ Hk). apply IHl; auto.
      eapply same_apart_trans; eauto.
Qed.

(** X19.  The copy writes nothing of its own.  However it ends, a file
    found under the destination afterwards either was there with the same
    bytes before, or has the bytes of the source file at the same relative
    path. *)
Theorem copyRecursive_copies_verbatim (fuel : nat) (src dest : path) (fs : node)
  (rel : path) (data : string) :
  apartb src dest = true ->
  lookup (dest ++ rel) (fst (copyRecursive fuel src dest fs)) = Some (File data) ->
  lookup (dest ++ rel) fs = Some (File data) \/
  lookup (src ++ rel) fs = Some (File data).
Proof.
  intros Hap Hafter. apply apartb_spec in Hap.
  destruct (copyRecursive fuel src dest fs) as [fs' out] eqn:Hrun. cbn [fst] in Hafter.
  destruct (copyRecursive_only_copies fuel _ _ _ _ _ Hap Hrun _ _ Hafter)
    as [H|[rel' [Heq Hsrc]]]; [now left|].
  apply app_inv_head in Heq. subst rel'. now right.
Qed.

(** X19 on the sample project: the new icon is the icon of
    [public/]. *)
Lemma copyRecursive_copies_verbatim_sample :
  lookup (["proj"; "dist"] ++ ["favicon.ico"]) sample_fs = Some (File "ICO-v2") \/
  lookup (["proj"; "public"] ++ ["favicon.ico"]) sample_fs = Some (File "ICO-v2").
Proof.
  apply (copyRecursive_copies_verbatim 2 ["proj"; "public"] ["proj"; "dist"] sample_fs
           ["favicon.ico"] "ICO-v2");
    reflexivity.
Defined.

(** ** What a build leaves alone *)

Section BuildFrame.
Context {host : Host}.

Lemma generatePackageJson_onEnd_same_apart (w : world) :
  same_apart distDir (files w) (files (fst (generatePackageJson_onEnd w))).
Proof.
  rewrite generatePackageJson_onEnd_run. intros q Hap.
  destruct (trimmed_manifest (files w)) as [M'| |]; cbn [fst files]; auto.
  destruct (write_at _ _ (files w)) as [fs'| |] eqn:W; cbn [fst files]; auto.
  rewrite (write_at_Ok _ _ _ _ W). apply lookup_graft_apart.
  unfold path_join. now apply apart_below.
Qed.

Lemma copyReadme_onEnd_same_apart (w : world) :
  same_apart distDir (files w) (files (fst (copyReadme_onEnd w))).
Proof.
  rewrite copyReadme_onEnd_run. intros q Hap.
  assert (apart (path_join distDir "README.md") q) as Hap'
      by (unfold path_join; now apply apart_below).
  destruct (copy_at _ _ (files w)) as [fs' out] eqn:Hc.
  pose proof (copyFile_same_apart _ _ _ _ _ Hc q Hap') as Hsame.
  destruct out as [[]| |]; cbn [fst files]; exact Hsame.
Qed.

Lemma runOnEndCallbacks_same_apart (callbacks : list (St world unit)) :
  Forall (fun callback => forall w,
              same_apart distDir (files w) (files (fst (callback w)))) callbacks ->
  forall w, same_apart distDir (files w) (files (fst (runOnEndCallbacks callbacks w))).
Proof.
  induction 1 as [|callback rest Hcb _ IH]; intros w; [intros q _; reflexivity|].
  cbn [runOnEndCallbacks]. unfold bind, try_catch, ret.
  specialize (Hcb w). destruct (callback w) as [w1 out1]. cbn [fst] in Hcb.
  specialize (IH w1).
  destruct out1 as [[]| e |]; cbn [fst]; auto;
    destruct (runOnEndCallbacks rest w1) as [w2 [more| |]]; cbn [fst] in *;
    eapply same_apart_trans; eauto.
Qed.

(** X20.  The hooks write under the output directory only.  In either
    mode and however the hooks end, what stands apart from [dist] (the
    manifest, the README, [public/], the sources) is after the callbacks
    of the end of a build exactly as it was. *)
Theorem build_end_stays_in_dist (fuel : nat) (w : world) (q : path) :
  apartb distDir q = true ->
  lookup q (files (fst (build_end fuel w))) = lookup q (files w).
Proof.
  intros Hap. apply apartb_spec in Hap. revert q Hap.
  change (same_apart distDir (files w) (files (fst (build_end fuel w)))).
  unfold build_end, plugins. apply runOnEndCallbacks_same_apart.
  destruct PRODUCTION; simpl registered; repeat constructor;
    intros w'; try apply generatePackageJson_onEnd_same_apart;
    try apply copyReadme_onEnd_same_apart;
    apply (proj1 (copyPublic_onEnd_contained fuel w')).
Qed.

End BuildFrame.

(** X20 on the sample project: the manifest is as it was. *)
Lemma build_end_stays_in_dist_sample :
  lookup ["proj"; "package.json"] (files (fst (@build_end posix_production 3 sample_complete)))
  = lookup ["proj"; "package.json"] (files sample_complete).
Proof.
  apply (@build_end_stays_in_dist posix_production 3 sample_complete
           ["proj"; "package.json"]).
  reflexivity.
Defined.
